(** * Beam-search decoding engine of [src/bart/my_model.py]

    A shallow embedding of the generation-control functions of the BART
    model file: [shift_tokens_right], [_reorder_cache],
    [_get_logits_processor], [_get_stopping_criteria],
    [_merge_criteria_processor_list], the configuration phase of
    [generate] and the loop of [beam_search].

    Tensors are lists (a two-dimensional tensor keeps its number of
    columns, so that an empty batch still has a shape); Python exceptions
    are the left summand of [result]; warnings are collected by the writer
    part of the monad [M]. *)

From Stdlib Require Import String ZArith QArith List Bool Lia Sorted.
Import ListNotations.

Local Open Scope Z_scope.

(** ** Exceptions, warnings and the two monads *)

Inductive exn : Type :=
| ValueError (msg : string)
| IndexError (msg : string)
| RuntimeError (msg : string)
| TypeError (msg : string)
| ZeroDivisionError (msg : string)
| KeyError (msg : string)
| AttributeError (msg : string)
| UnboundLocalError (msg : string).

Definition result (A : Type) : Type := (exn + A)%type.

Definition ok {A : Type} (a : A) : result A := inr a.
Definition raise {A : Type} (e : exn) : result A := inl e.

Definition rbind {A B : Type} (c : result A) (k : A -> result B) : result B :=
  match c with
  | inl e => inl e
  | inr a => k a
  end.

Declare Scope result_scope.
Delimit Scope result_scope with res.
Notation "x <- c ;; k" := (rbind c (fun x => k))
  (at level 61, c at next level, right associativity) : result_scope.
Notation "' p <- c ;; k" := (rbind c (fun x => match x with p => k end))
  (at level 61, p pattern, c at next level, right associativity) : result_scope.

Fixpoint mapM {A B : Type} (f : A -> result B) (l : list A) : result (list B) :=
  match l with
  | [] => ok []
  | x :: l' =>
      (y <- f x ;;
       ys <- mapM f l' ;;
       ok (y :: ys))%res
  end.

Inductive warning : Type :=
| UserWarning (msg : string)
| LoggerWarning (msg : string).

(** Warnings emitted so far, and either the exception raised or the value. *)
Definition M (A : Type) : Type := (list warning * result A)%type.

Definition ret {A : Type} (a : A) : M A := ([], ok a).
Definition throw {A : Type} (e : exn) : M A := ([], raise e).
Definition warn (w : warning) : M unit := ([w], ok tt).
Definition lift {A : Type} (c : result A) : M A := ([], c).

Definition bind {A B : Type} (c : M A) (k : A -> M B) : M B :=
  match c with
  | (w, inl e) => (w, inl e)
  | (w, inr a) => let '(w', r) := k a in (w ++ w', r)
  end.

Declare Scope gen_scope.
Delimit Scope gen_scope with gen.
Notation "x <- c ;; k" := (bind c (fun x => k))
  (at level 61, c at next level, right associativity) : gen_scope.
Notation "c ;;; k" := (bind c (fun _ => k))
  (at level 61, right associativity) : gen_scope.

(** ** Two-dimensional tensors *)

Record tensor2 (A : Type) : Type := Tensor2 {
  ncols : nat;
  rows : list (list A)
}.
Arguments Tensor2 {A} ncols rows.
Arguments ncols {A} t.
Arguments rows {A} t.

Definition nrows {A : Type} (t : tensor2 A) : nat := length (rows t).

Definition wf_tensor {A : Type} (t : tensor2 A) : Prop :=
  Forall (fun r => length r = ncols t) (rows t).

Definition same_shape {A B : Type} (t : tensor2 A) (u : tensor2 B) : bool :=
  (ncols t =? ncols u)%nat && (nrows t =? nrows u)%nat.

(** ** [shift_tokens_right] *)

(** [input_ids.new_zeros(input_ids.shape)] *)
Definition new_zeros (t : tensor2 Z) : tensor2 Z :=
  Tensor2 (ncols t) (map (fun _ => repeat 0 (ncols t)) (rows t)).

(** [dst[:, 1:] = src[:, :-1]]: every row keeps its first entry and takes
    the row of [src] without its last entry behind it. *)
Definition assign_from_col1 (dst src : tensor2 Z) : tensor2 Z :=
  Tensor2 (ncols dst)
    (map (fun p : list Z * list Z => firstn 1 (fst p) ++ removelast (snd p))
         (combine (rows dst) (rows src))).

(** [t[:, 0] = v]: index 0 is out of bounds for a tensor without columns. *)
Definition assign_col0 (t : tensor2 Z) (v : Z) : result (tensor2 Z) :=
  match ncols t with
  | O => raise (IndexError "index 0 is out of bounds for dimension 1 with size 0")
  | S _ => ok (Tensor2 (ncols t) (map (fun r => v :: tl r) (rows t)))
  end.

(** [t.masked_fill_(t == old, new)] *)
Definition masked_fill_eq (t : tensor2 Z) (old new : Z) : tensor2 Z :=
  Tensor2 (ncols t)
    (map (map (fun x => if x =? old then new else x)) (rows t)).

Definition shift_tokens_right (input_ids : tensor2 Z) (pad_token_id : option Z)
    (decoder_start_token_id : Z) : result (tensor2 Z) :=
  (let shifted_input_ids := new_zeros input_ids in
   let shifted_input_ids := assign_from_col1 shifted_input_ids input_ids in
   shifted_input_ids <- assign_col0 shifted_input_ids decoder_start_token_id ;;
   match pad_token_id with
   | None => raise (ValueError "self.model.config.pad_token_id has to be defined.")
   | Some pad =>
       (* replace possible -100 values in labels by `pad_token_id` *)
       ok (masked_fill_eq shifted_input_ids (-100) pad)
   end)%res.

(** ** [_reorder_cache] *)

(** A cached state is a tensor whose first axis is the beam axis: the list
    of its per-beam slices.  The slices themselves are opaque. *)
Section Cache.
Context {slice : Type}.

Definition past_state : Type := list slice.
Definition layer_past : Type := list past_state.
Definition cache : Type := list layer_past.

(** [t.index_select(0, idx)]: every index has to lie in [0, len t). *)
Definition index_select (t : past_state) (idx : list Z) : result past_state :=
  mapM (fun i =>
          if i <? 0 then raise (IndexError "index out of range in self")
          else match nth_error t (Z.to_nat i) with
               | Some s => ok s
               | None => raise (IndexError "index out of range in self")
               end) idx.

Definition _reorder_cache (past : cache) (beam_idx : list Z) : result cache :=
  mapM (fun layer_past =>
          (* cached cross_attention states don't have to be reordered *)
          (sel <- mapM (fun past_state => index_select past_state beam_idx)
                       (firstn 2 layer_past) ;;
           ok (sel ++ skipn 2 layer_past))%res) past.
End Cache.
Arguments past_state : clear implicits.
Arguments layer_past : clear implicits.
Arguments cache : clear implicits.

(** ** Scores

    A score is a floating-point number.  Its finite values are kept on an
    integer grid (a fixed-point reading of the log-probabilities); the
    three non-finite values are explicit.  Only the order of scores, their
    sum and which of them are finite matter below. *)

Inductive score : Type :=
| NegInf
| Fin (x : Z)
| PosInf
| NaN.

Definition is_finite (s : score) : bool :=
  match s with
  | Fin _ => true
  | _ => false
  end.

(** Addition: the non-finite values combine as in IEEE arithmetic; two
    finite values are added exactly, the rounding of the sum to the grid
    of the dtype is not modelled (a sum with -1e9 then keeps the part that
    float32 would round away). *)
Definition score_add (a b : score) : score :=
  match a, b with
  | NaN, _ | _, NaN => NaN
  | PosInf, NegInf | NegInf, PosInf => NaN
  | PosInf, _ | _, PosInf => PosInf
  | NegInf, _ | _, NegInf => NegInf
  | Fin x, Fin y => Fin (x + y)
  end.

(** The order selection sorts by: [-inf] below the finite values, [+inf]
    above them and NaN above everything (the way the tensor library's
    sort and top-k order NaN). *)
Definition score_key (s : score) : Z * Z :=
  match s with
  | NegInf => (0, 0)
  | Fin x => (1, x)
  | PosInf => (2, 0)
  | NaN => (3, 0)
  end.

Definition score_ltb (a b : score) : bool :=
  let (ca, xa) := score_key a in
  let (cb, xb) := score_key b in
  (ca <? cb) || ((ca =? cb) && (xa <? xb)).

Definition score_eqb (a b : score) : bool :=
  let (ca, xa) := score_key a in
  let (cb, xb) := score_key b in
  (ca =? cb) && (xa =? xb).

(** ** Score-transform rules and stopping criteria (the classes of [utils]) *)

Inductive processor : Type :=
| HammingDiversityLogitsProcessor (diversity_penalty : Q) (num_beams num_beam_groups : Z)
| RepetitionPenaltyLogitsProcessor (penalty : Q)
| NoRepeatNGramLogitsProcessor (ngram_size : Z)
| EncoderNoRepeatNGramLogitsProcessor (ngram_size : Z) (encoder_input_ids : tensor2 Z)
| NoBadWordsLogitsProcessor (bad_words_ids : list (list Z)) (eos_token_id : option Z)
| MinLengthLogitsProcessor (min_length : Z) (eos_token_id : Z)
| PrefixConstrainedLogitsProcessor (prefix_allowed_tokens_fn : nat) (num_beams : Z)
| ForcedBOSTokenLogitsProcessor (bos_token_id : Z)
| ForcedEOSTokenLogitsProcessor (max_length : Z) (eos_token_id : Z)
| InfNanRemoveLogitsProcessor
| ExponentialDecayLengthPenalty (penalty : Z * Q) (eos_token_id : option Z)
    (input_ids_seq_length : Z)
| SuppressTokensLogitsProcessor (suppress_tokens : list Z)
| SuppressTokensAtBeginLogitsProcessor (begin_suppress_tokens : list Z) (begin_index : Z)
| ForceTokensLogitsProcessor (force_token_map : list (Z * Z))
| LogitNormalization
| CustomLogitsProcessor (class_id : nat).

(** [type(p)]: the class of a rule; a caller may bring classes of its own. *)
Inductive processor_type : Type :=
| TyHammingDiversity | TyRepetitionPenalty | TyNoRepeatNGram
| TyEncoderNoRepeatNGram | TyNoBadWords | TyMinLength | TyPrefixConstrained
| TyForcedBOSToken | TyForcedEOSToken | TyInfNanRemove
| TyExponentialDecayLengthPenalty | TySuppressTokens | TySuppressTokensAtBegin
| TyForceTokens | TyLogitNormalization
| TyCustomProcessor (class_id : nat).

Definition type_of_processor (p : processor) : processor_type :=
  match p with
  | HammingDiversityLogitsProcessor _ _ _ => TyHammingDiversity
  | RepetitionPenaltyLogitsProcessor _ => TyRepetitionPenalty
  | NoRepeatNGramLogitsProcessor _ => TyNoRepeatNGram
  | EncoderNoRepeatNGramLogitsProcessor _ _ => TyEncoderNoRepeatNGram
  | NoBadWordsLogitsProcessor _ _ => TyNoBadWords
  | MinLengthLogitsProcessor _ _ => TyMinLength
  | PrefixConstrainedLogitsProcessor _ _ => TyPrefixConstrained
  | ForcedBOSTokenLogitsProcessor _ => TyForcedBOSToken
  | ForcedEOSTokenLogitsProcessor _ _ => TyForcedEOSToken
  | InfNanRemoveLogitsProcessor => TyInfNanRemove
  | ExponentialDecayLengthPenalty _ _ _ => TyExponentialDecayLengthPenalty
  | SuppressTokensLogitsProcessor _ => TySuppressTokens
  | SuppressTokensAtBeginLogitsProcessor _ _ => TySuppressTokensAtBegin
  | ForceTokensLogitsProcessor _ => TyForceTokens
  | LogitNormalization => TyLogitNormalization
  | CustomLogitsProcessor c => TyCustomProcessor c
  end.

(** The position of a class in the registration order of
    [_get_logits_processor]; caller-supplied classes come after the
    built-in ones and [LogitNormalization] after everything. *)
Definition registration_rank (t : processor_type) : nat :=
  match t with
  | TyHammingDiversity => 0
  | TyRepetitionPenalty => 1
  | TyNoRepeatNGram => 2
  | TyEncoderNoRepeatNGram => 3
  | TyNoBadWords => 4
  | TyMinLength => 5
  | TyPrefixConstrained => 6
  | TyForcedBOSToken => 7
  | TyForcedEOSToken => 8
  | TyInfNanRemove => 9
  | TyExponentialDecayLengthPenalty => 10
  | TySuppressTokens => 11
  | TySuppressTokensAtBegin => 12
  | TyForceTokens => 13
  | TyCustomProcessor _ => 14
  | TyLogitNormalization => 15
  end.

Definition processor_type_eqb (a b : processor_type) : bool :=
  match a, b with
  | TyCustomProcessor x, TyCustomProcessor y => (x =? y)%nat
  | TyCustomProcessor _, _ | _, TyCustomProcessor _ => false
  | _, _ => (registration_rank a =? registration_rank b)%nat
  end.

Inductive criterion : Type :=
| MaxLengthCriteria (max_length : Z)
| MaxTimeCriteria (max_time : Q)
| CustomCriteria (class_id : nat)
    (fires : tensor2 Z -> option (list (tensor2 score)) -> bool).

Inductive criterion_type : Type :=
| TyMaxLength | TyMaxTime | TyCustomCriteria (class_id : nat).

Definition type_of_criterion (c : criterion) : criterion_type :=
  match c with
  | MaxLengthCriteria _ => TyMaxLength
  | MaxTimeCriteria _ => TyMaxTime
  | CustomCriteria c _ => TyCustomCriteria c
  end.

Definition criterion_type_eqb (a b : criterion_type) : bool :=
  match a, b with
  | TyMaxLength, TyMaxLength => true
  | TyMaxTime, TyMaxTime => true
  | TyCustomCriteria x, TyCustomCriteria y => (x =? y)%nat
  | _, _ => false
  end.

(** Modelled from the spec: the property [max_length] of
    [StoppingCriteriaList] (class of [utils], not in the source file): the
    bound of the list's max-length criterion, [None] when it has none. *)
Fixpoint criteria_max_length (l : list criterion) : option Z :=
  match l with
  | [] => None
  | MaxLengthCriteria n :: _ => Some n
  | _ :: l' => criteria_max_length l'
  end.

(** ** [self.config] *)

Module Config.
Record t : Type := Build {
  is_encoder_decoder : bool;
  bos_token_id : option Z;
  pad_token_id : option Z;
  eos_token_id : option Z;
  decoder_eos_token_id : option (option Z);  (* [hasattr(config, "decoder")] *)
  decoder_start_token_id : option Z;
  num_beams : Z;
  num_beam_groups : Z;
  num_return_sequences : Z;
  length_penalty : Q;
  early_stopping : bool;
  do_sample : bool;
  max_length : Z;
  min_length : option Z;
  output_scores : bool;
  output_attentions : bool;
  output_hidden_states : bool;
  return_dict_in_generate : bool;
  repetition_penalty : option Q;
  no_repeat_ngram_size : option Z;
  encoder_no_repeat_ngram_size : option Z;
  bad_words_ids : option (list (list Z));
  diversity_penalty : option Q;
  forced_bos_token_id : option Z;
  forced_eos_token_id : option Z;
  remove_invalid_values : option bool;
  exponential_decay_length_penalty : option (Z * Q);
  suppress_tokens : option (list Z);
  begin_suppress_tokens : option (list Z);
  forced_decoder_ids : option (option (list (Z * Z)))  (* [hasattr] *)
}.
End Config.

(** [x if x is not None else d] *)
Definition or_config {A : Type} (x d : option A) : option A :=
  match x with
  | Some v => Some v
  | None => d
  end.

Definition or_default {A : Type} (x : option A) (d : A) : A :=
  match x with
  | Some v => v
  | None => d
  end.

(** ** [_merge_criteria_processor_list], [_get_logits_processor],
       [_get_stopping_criteria] *)

Definition duplicate_message (object_type : string) : string :=
  ("A custom " ++ object_type ++ " has been passed to `generate`, but it has already been created")%string.

(** One function of the source serves both kinds of list; [type_eqb] is
    [type(custom) is type(default)] and [object_type] the word the message
    uses.  A list that is [None] has no [len]. *)
Definition _merge_criteria_processor_list {A T : Type} (type_of : A -> T)
    (type_eqb : T -> T -> bool) (object_type : string)
    (default_list : list A) (custom_list : option (list A)) : result (list A) :=
  match custom_list with
  | None => raise (TypeError "object of type 'NoneType' has no len()")
  | Some custom_list =>
      if (List.length custom_list =? 0)%nat then ok default_list
      else if existsb (fun default =>
                existsb (fun custom => type_eqb (type_of custom) (type_of default))
                        custom_list) default_list
      then raise (ValueError (duplicate_message object_type))
      else ok (default_list ++ custom_list)
  end.

Module LP.
(** The parameters of [_get_logits_processor]. *)
Record args : Type := Build {
  repetition_penalty : option Q;
  no_repeat_ngram_size : option Z;
  encoder_no_repeat_ngram_size : option Z;
  input_ids_seq_length : Z;
  encoder_input_ids : tensor2 Z;
  bad_words_ids : option (list (list Z));
  min_length : option Z;
  max_length : Z;
  eos_token_id : option Z;
  forced_bos_token_id : option Z;
  forced_eos_token_id : option Z;
  prefix_allowed_tokens_fn : option nat;
  num_beams : Z;
  num_beam_groups : Z;
  diversity_penalty : option Q;
  remove_invalid_values : option bool;
  exponential_decay_length_penalty : option (Z * Q);
  logits_processor : option (list processor);
  renormalize_logits : option bool;
  suppress_tokens : option (list Z);
  begin_suppress_tokens : option (list Z);
  forced_decoder_ids : option (list (Z * Z))
}.
End LP.

(** [processors.append(p)] when the guard holds. *)
Definition append_if {A : Type} (guard : bool) (p : A) (l : list A) : list A :=
  if guard then l ++ [p] else l.

Definition is_some {A : Type} (x : option A) : bool :=
  match x with
  | Some _ => true
  | None => false
  end.

(** [x is not None and test x] *)
Definition some_and {A : Type} (x : option A) (test : A -> bool) : bool :=
  match x with
  | Some v => test v
  | None => false
  end.

(** [forced_decoder_ids[-1][0]] *)
Definition last_forced_index (forced_decoder_ids : list (Z * Z)) : result Z :=
  match rev forced_decoder_ids with
  | [] => raise (IndexError "list index out of range")
  | p :: _ => ok (fst p)
  end.

(** The rule classes are those of [utils]; a rule is the record of its
    class and of the arguments it is created with.  The checks that the
    constructors of these classes make on their arguments, and the
    exceptions they raise, are not part of the source file and are not
    modelled: where a constructor would raise, the model goes on. *)
Definition _get_logits_processor (config : Config.t) (a : LP.args)
    : result (list processor) :=
  (let processors : list processor := [] in
   (* init warp parameters *)
   let repetition_penalty :=
     or_config (LP.repetition_penalty a) (Config.repetition_penalty config) in
   let no_repeat_ngram_size :=
     or_config (LP.no_repeat_ngram_size a) (Config.no_repeat_ngram_size config) in
   let encoder_no_repeat_ngram_size :=
     or_config (LP.encoder_no_repeat_ngram_size a)
               (Config.encoder_no_repeat_ngram_size config) in
   let bad_words_ids := or_config (LP.bad_words_ids a) (Config.bad_words_ids config) in
   let eos_token_id := or_config (LP.eos_token_id a) (Config.eos_token_id config) in
   let diversity_penalty :=
     or_config (LP.diversity_penalty a) (Config.diversity_penalty config) in
   let forced_bos_token_id :=
     or_config (LP.forced_bos_token_id a) (Config.forced_bos_token_id config) in
   let forced_eos_token_id :=
     or_config (LP.forced_eos_token_id a) (Config.forced_eos_token_id config) in
   let remove_invalid_values :=
     or_config (LP.remove_invalid_values a) (Config.remove_invalid_values config) in
   let exponential_decay_length_penalty :=
     or_config (LP.exponential_decay_length_penalty a)
               (Config.exponential_decay_length_penalty config) in
   let suppress_tokens :=
     or_config (LP.suppress_tokens a) (Config.suppress_tokens config) in
   let begin_suppress_tokens :=
     or_config (LP.begin_suppress_tokens a) (Config.begin_suppress_tokens config) in
   let forced_decoder_ids :=
     match LP.forced_decoder_ids a, Config.forced_decoder_ids config with
     | None, Some from_config => from_config
     | given, _ => given
     end in
   (* instantiate processors list *)
   let processors :=
     match diversity_penalty with
     | Some d =>
         append_if (negb (Qle_bool d 0))
           (HammingDiversityLogitsProcessor d (LP.num_beams a) (LP.num_beam_groups a))
           processors
     | None => processors
     end in
   let processors :=
     match repetition_penalty with
     | Some p =>
         append_if (negb (Qeq_bool p 1)) (RepetitionPenaltyLogitsProcessor p) processors
     | None => processors
     end in
   let processors :=
     match no_repeat_ngram_size with
     | Some n => append_if (0 <? n) (NoRepeatNGramLogitsProcessor n) processors
     | None => processors
     end in
   processors <-
     match encoder_no_repeat_ngram_size with
     | Some n =>
         if 0 <? n then
           if Config.is_encoder_decoder config then
             ok (processors ++
                 [EncoderNoRepeatNGramLogitsProcessor n (LP.encoder_input_ids a)])
           else
             raise (ValueError
               "It's impossible to use `encoder_no_repeat_ngram_size` with decoder-only architecture")
         else ok processors
     | None => ok processors
     end ;;
   let processors :=
     match bad_words_ids with
     | Some b => processors ++ [NoBadWordsLogitsProcessor b eos_token_id]
     | None => processors
     end in
   let processors :=
     match LP.min_length a, eos_token_id with
     | Some m, Some eos =>
         append_if (0 <? m) (MinLengthLogitsProcessor m eos) processors
     | _, _ => processors
     end in
   processors <-
     match LP.prefix_allowed_tokens_fn a with
     | Some fn =>
         if LP.num_beam_groups a =? 0
         then raise (ZeroDivisionError "integer division or modulo by zero")
         else ok (processors ++
                  [PrefixConstrainedLogitsProcessor fn
                     (LP.num_beams a / LP.num_beam_groups a)])
     | None => ok processors
     end ;;
   let processors :=
     match forced_bos_token_id with
     | Some bos => processors ++ [ForcedBOSTokenLogitsProcessor bos]
     | None => processors
     end in
   let processors :=
     match forced_eos_token_id with
     | Some eos => processors ++ [ForcedEOSTokenLogitsProcessor (LP.max_length a) eos]
     | None => processors
     end in
   let processors :=
     match remove_invalid_values with
     | Some true => processors ++ [InfNanRemoveLogitsProcessor]
     | _ => processors
     end in
   let processors :=
     match exponential_decay_length_penalty with
     | Some p =>
         processors ++
         [ExponentialDecayLengthPenalty p eos_token_id (LP.input_ids_seq_length a)]
     | None => processors
     end in
   let processors :=
     match suppress_tokens with
     | Some s => processors ++ [SuppressTokensLogitsProcessor s]
     | None => processors
     end in
   processors <-
     match begin_suppress_tokens with
     | Some b =>
         let begin_index := LP.input_ids_seq_length a in
         let begin_index :=
           if (1 <? LP.input_ids_seq_length a) || negb (is_some forced_bos_token_id)
           then begin_index else begin_index + 1 in
         begin_index <-
           match forced_decoder_ids with
           | Some f =>
               (* generation starts after the last token that is forced *)
               i <- last_forced_index f ;; ok (begin_index + i)
           | None => ok begin_index
           end ;;
         ok (processors ++ [SuppressTokensAtBeginLogitsProcessor b begin_index])
     | None => ok processors
     end ;;
   let processors :=
     match forced_decoder_ids with
     | Some f => processors ++ [ForceTokensLogitsProcessor f]
     | None => processors
     end in
   processors <-
     _merge_criteria_processor_list type_of_processor processor_type_eqb
       "logits processor" processors (LP.logits_processor a) ;;
   (* `LogitNormalization` should always be the last logit processor, when present *)
   let processors :=
     match LP.renormalize_logits a with
     | Some true => processors ++ [LogitNormalization]
     | _ => processors
     end in
   ok processors)%res.

Definition _get_stopping_criteria (max_length : option Z) (max_time : option Q)
    (stopping_criteria : option (list criterion)) : result (list criterion) :=
  (let criteria : list criterion := [] in
   let criteria :=
     match max_length with
     | Some n => criteria ++ [MaxLengthCriteria n]
     | None => criteria
     end in
   let criteria :=
     match max_time with
     | Some t => criteria ++ [MaxTimeCriteria t]
     | None => criteria
     end in
   _merge_criteria_processor_list type_of_criterion criterion_type_eqb
     "stopping criteria" criteria stopping_criteria)%res.

(** ** Candidate selection: [view], [torch.topk], [torch_int_div], [%] *)

(** An entry of a flattened score vector together with its position. *)
Definition entry : Type := (score * nat)%type.

(** [beats a b]: [a] comes before [b] in the selection order, by the higher
    score and, between equal scores, by the lower position. *)
Definition beats (a b : entry) : bool :=
  score_ltb (fst b) (fst a) || (score_eqb (fst a) (fst b) && (snd a <? snd b)%nat).

Definition before (a b : entry) : Prop := beats a b = true.

Fixpoint indexed_from (i : nat) (v : list score) : list entry :=
  match v with
  | [] => []
  | s :: v' => (s, i) :: indexed_from (S i) v'
  end.

Fixpoint insert_desc (x : entry) (l : list entry) : list entry :=
  match l with
  | [] => [x]
  | y :: l' => if beats x y then x :: y :: l' else y :: insert_desc x l'
  end.

Definition sort_desc (l : list entry) : list entry := fold_right insert_desc [] l.

(** The selection in the words of the specification: the [k] largest
    entries in descending order, ties broken by the lower flattened index.
    The program calls [torch.topk(v, k, largest=True, sorted=True)], a
    primitive of the tensor library, which promises the [k] largest
    entries in descending order and nothing about entries of equal score:
    the statements about the program take the primitive as a parameter
    that keeps this promise ([meets_topk_contract]); [topk] is one such
    primitive, the one the examples run.  Asking for more entries than the
    vector has is a run-time error of the library. *)
Definition topk (k : nat) (v : list score) : result (list entry) :=
  if (List.length v <? k)%nat
  then raise (RuntimeError "selected index k out of range")
  else ok (firstn k (sort_desc (indexed_from 0 v))).

(** What a selection of [k] entries of [v] has to satisfy. *)
Definition is_topk (k : nat) (v : list score) (sel : list entry) : Prop :=
  List.length sel = k /\
  (forall e, In e sel -> nth_error v (snd e) = Some (fst e)) /\
  StronglySorted before sel /\
  (forall j s, nth_error v j = Some s -> ~ In (s, j) sel ->
     forall e, In e sel -> beats e (s, j) = true).

(** The same without the tie rule: descending scores, nothing left out
    that is strictly better than something selected, positions distinct. *)
Definition is_topk_any_ties (k : nat) (v : list score) (sel : list entry) : Prop :=
  List.length sel = k /\
  (forall e, In e sel -> nth_error v (snd e) = Some (fst e)) /\
  NoDup (map snd sel) /\
  StronglySorted (fun a b => score_ltb (fst a) (fst b) = false) sel /\
  (forall j s, nth_error v j = Some s -> ~ In (s, j) sel ->
     forall e, In e sel -> score_ltb (fst e) s = false).

(** [scores.view(batch_size, num_beams * vocab_size)]: the rows of example
    [b] are the [num_beams] rows from [b * num_beams] on, laid end to end. *)
Definition group_rows {A : Type} (num_beams b : nat) (rws : list (list A)) : list A :=
  concat (firstn num_beams (skipn (b * num_beams) rws)).

Definition view_groups {A : Type} (batch_size num_beams : nat) (t : tensor2 A)
    : list (list A) :=
  map (fun b => group_rows num_beams b (rows t)) (seq 0 batch_size).

(** Modelled from the spec: [torch_int_div] of [utils] (not in the source
    file), the flattened index divided by the vocabulary size, rounded
    down. *)
Definition torch_int_div (a b : Z) : Z := a / b.

Record candidates : Type := Candidates {
  cand_scores : list (list score);   (* [next_token_scores] after top-k *)
  cand_tokens : list (list Z);       (* [next_tokens] *)
  cand_indices : list (list Z)       (* [next_indices] *)
}.

Section Selection.
(** The top-k primitive in use. *)
Variable select : nat -> list score -> result (list entry).

(** Lines "reshape for beam search" to [next_tokens % vocab_size]. *)
Definition select_candidates (batch_size num_beams : nat)
    (next_token_scores : tensor2 score) : result candidates :=
  (let vocab_size := ncols next_token_scores in
   flat <-
     (if (nrows next_token_scores * vocab_size =? batch_size * (num_beams * vocab_size))%nat
      then ok (view_groups batch_size num_beams next_token_scores)
      else raise (RuntimeError "shape is invalid for input size")) ;;
   (* Sample 2 next tokens for each beam *)
   top <- mapM (select (2 * num_beams)%nat) flat ;;
   let next_token_scores := map (map fst) top in
   let next_tokens := map (map (fun e : entry => Z.of_nat (snd e))) top in
   let next_indices :=
     map (map (fun t => torch_int_div t (Z.of_nat vocab_size))) next_tokens in
   let next_tokens := map (map (fun t => t mod Z.of_nat vocab_size)) next_tokens in
   ok (Candidates next_token_scores next_tokens next_indices))%res.
End Selection.

(** ** The collaborators of [beam_search] *)

Record beam_outputs : Type := BeamOutputs {
  next_beam_scores : list score;
  next_beam_tokens : list Z;
  next_beam_indices : list Z
}.

(** The abstract class [BeamScorer]: [beam_search] only uses the number of
    examples and of beams, [process], [is_done] and [finalize].  The scorer
    is a mutable object; [S] is its state and [process] returns the state
    it leaves behind. *)
Class BeamScorer (S : Type) : Type := {
  scorer_batch_size : S -> nat;          (* [len(beam_scorer._beam_hyps)] *)
  scorer_num_beams : S -> nat;
  process : S -> tensor2 Z -> candidates -> option Z -> option Z ->
            option (list (list Z)) -> result (S * beam_outputs);
  is_done : S -> bool;
  finalize : S -> tensor2 Z -> list score -> candidates ->
             option Z -> option Z -> option Z -> option (list (list Z)) ->
             result (tensor2 Z)
}.

(** Everything else the loop calls and the source file does not define:
    the scoring model, the semantics of the rule and criterion classes,
    the wall clock and the other processes of a distributed run. *)
Record Env : Type := {
  (** the logits of the last position, [outputs[0][:, -1, :]], that the
      model returns for the token history *)
  forward : tensor2 Z -> result (tensor2 score);
  (** [nn.functional.log_softmax(logits, dim=-1)] *)
  log_softmax : tensor2 score -> tensor2 score;
  (** the [__call__] of a rule *)
  run_processor : processor -> tensor2 Z -> tensor2 score -> result (tensor2 score);
  (** seconds since the loop started, at the end of iteration [n] *)
  elapsed : nat -> Q;
  (** how many other processes still report "not finished" at the barrier
      of iteration [n] *)
  peers_running : nat -> nat
}.

(** Modelled from the spec: [LogitsProcessorList.__call__] ([utils]): the
    rules are applied strictly in the order of the list. *)
Fixpoint apply_processors (env : Env) (chain : list processor)
    (input_ids : tensor2 Z) (scores : tensor2 score) : result (tensor2 score) :=
  match chain with
  | [] => ok scores
  | p :: chain' =>
      (scores <- run_processor env p input_ids scores ;;
       apply_processors env chain' input_ids scores)%res
  end.

(** Modelled from the spec: the criteria of [utils]: max-length fires when
    [current_length >= max_length], max-time when the wall clock since the
    loop started exceeds the budget; a list is combined with logical OR. *)
Definition criterion_fires (env : Env) (iteration : nat) (input_ids : tensor2 Z)
    (scores : option (list (tensor2 score))) (c : criterion) : bool :=
  match c with
  | MaxLengthCriteria n => n <=? Z.of_nat (ncols input_ids)
  | MaxTimeCriteria t => negb (Qle_bool (elapsed env iteration) t)
  | CustomCriteria _ fires => fires input_ids scores
  end.

Definition stopping_criteria_call (env : Env) (iteration : nat)
    (criteria : list criterion) (input_ids : tensor2 Z)
    (scores : option (list (tensor2 score))) : bool :=
  existsb (criterion_fires env iteration input_ids scores) criteria.

(** Modelled from the spec: [validate_stopping_criteria] ([utils]): a list
    without max-length criterion gets one for the deprecated [max_length]
    argument; the flag tells whether the list's own bound differs (which is
    warned about). *)
Definition validate_stopping_criteria (criteria : list criterion) (max_length : Z)
    : bool * list criterion :=
  match criteria_max_length criteria with
  | Some n => (negb (n =? max_length), criteria)
  | None => (false, criteria ++ [MaxLengthCriteria max_length])
  end.

(** ** [beam_search] *)

Module BS.
(** The parameters of [beam_search] the loop depends on. *)
Record args : Type := Build {
  input_ids : tensor2 Z;
  logits_processor : option (list processor);
  stopping_criteria : option (list criterion);
  max_length : option Z;
  pad_token_id : option Z;
  eos_token_id : option Z;
  output_attentions : option bool;
  output_hidden_states : option bool;
  output_scores : option bool;
  return_dict_in_generate : option bool;
  synced_gpus : bool;
  (* [model_kwargs]: whether it has the key "encoder_outputs", and
     [model_kwargs.get("past")] *)
  kwargs_encoder_outputs : bool
}.
End BS.

(** [beam_scores = zeros((batch_size, num_beams)); beam_scores[:, 1:] = -1e9;
    beam_scores.view((batch_size * num_beams,))] *)
Definition init_beam_row (num_beams : nat) : list score :=
  match repeat (Fin 0) num_beams with
  | [] => []
  | first :: others => first :: map (fun _ => Fin (-1000000000)) others
  end.

Definition init_beam_scores (batch_size num_beams : nat) : list score :=
  concat (repeat (init_beam_row num_beams) batch_size).

(** [t[idx, :]]: an index below zero counts from the end. *)
Definition gather_rows {A : Type} (t : tensor2 A) (idx : list Z) : result (tensor2 A) :=
  (rws <- mapM (fun i =>
                  let j := if i <? 0 then i + Z.of_nat (nrows t) else i in
                  if j <? 0 then raise (IndexError "index out of bounds")
                  else match nth_error (rows t) (Z.to_nat j) with
                       | Some r => ok r
                       | None => raise (IndexError "index out of bounds")
                       end) idx ;;
   ok (Tensor2 (ncols t) rws))%res.

(** [torch.cat([t, col.unsqueeze(-1)], dim=-1)] *)
Definition cat_column {A : Type} (t : tensor2 A) (col : list A) : result (tensor2 A) :=
  if (nrows t =? List.length col)%nat
  then ok (Tensor2 (S (ncols t)) (map (fun p => fst p ++ [snd p]) (combine (rows t) col)))
  else raise (RuntimeError "Sizes of tensors must match except in dimension 1").

(** [processed + beam_scores[:, None].expand_as(next_token_scores)], for
    operands of equal shape; shapes that differ raise (tensors that differ
    in shape but could be broadcast are not modelled). *)
Definition add_beam_scores (next_token_scores processed : tensor2 score)
    (beam_scores : list score) : result (tensor2 score) :=
  if (nrows next_token_scores =? List.length beam_scores)%nat
     && same_shape processed next_token_scores
  then ok (Tensor2 (ncols processed)
             (map (fun p => map (fun s => score_add s (snd p)) (fst p))
                  (combine (rows processed) beam_scores)))
  else raise (RuntimeError "The size of tensor a must match the size of tensor b").

(** The variables the loop updates. *)
Record loop_state (S slice : Type) : Type := LoopState {
  st_input_ids : tensor2 Z;
  st_past : option (cache slice);                 (* [model_kwargs["past"]] *)
  st_beam_scores : list score;
  st_cur_len : nat;
  st_scorer : S;
  st_scores : option (list (tensor2 score));      (* [scores] *)
  st_beam_indices : option (list (list Z));       (* [beam_indices] *)
  st_candidates : option candidates;              (* [next_tokens], [next_indices] *)
  st_this_peer_finished : bool;
  st_iteration : nat
}.
Arguments LoopState {S slice}.
Arguments st_input_ids {S slice}.
Arguments st_past {S slice}.
Arguments st_beam_scores {S slice}.
Arguments st_cur_len {S slice}.
Arguments st_scorer {S slice}.
Arguments st_scores {S slice}.
Arguments st_beam_indices {S slice}.
Arguments st_candidates {S slice}.
Arguments st_this_peer_finished {S slice}.
Arguments st_iteration {S slice}.

Inductive control (A : Type) : Type :=
| Break (st : A)
| Continue (st : A).
Arguments Break {A}.
Arguments Continue {A}.

(** What [beam_search] fixes before the loop. *)
Record loop_env : Type := LoopEnv {
  le_logits_processor : list processor;
  le_stopping_criteria : list criterion;
  le_pad_token_id : option Z;
  le_eos_token_id : option Z;
  le_output_scores : bool;
  le_output_attentions : bool;
  le_output_hidden_states : bool;
  le_return_dict_in_generate : bool;
  le_synced_gpus : bool;
  le_batch_size : nat;
  le_num_beams : nat
}.

Definition adjust_logits_during_generation (logits : tensor2 score) : tensor2 score :=
  logits.

(** [tuple(beam_indices[beam_idx[i]] + (beam_idx[i],) for i in
    range(len(beam_indices)))] *)
Definition extend_beam_indices (beam_indices : list (list Z)) (beam_idx : list Z)
    : result (list (list Z)) :=
  mapM (fun i =>
          match nth_error beam_idx i with
          | None => raise (IndexError "index out of bounds")
          | Some b =>
              let j := if b <? 0 then b + Z.of_nat (List.length beam_indices) else b in
              if j <? 0 then raise (IndexError "tuple index out of range")
              else match nth_error beam_indices (Z.to_nat j) with
                   | Some r => ok (r ++ [b])
                   | None => raise (IndexError "tuple index out of range")
                   end
          end) (seq 0 (List.length beam_indices)).

Section BeamSearch.
Context {Sc : Type} {scorer_class : BeamScorer Sc} {slice : Type}.
Variable select : nat -> list score -> result (list entry).
Variable env : Env.
Variable config : Config.t.

Local Abbreviation state := (loop_state Sc slice).

(** From "init values" to the initialisation of [beam_scores]. *)
Definition beam_search_init (beam_scorer : Sc) (past : option (cache slice))
    (a : BS.args) : M (loop_env * state) :=
  (let logits_processor := or_default (BS.logits_processor a) [] in
   let stopping_criteria := or_default (BS.stopping_criteria a) [] in
   stopping_criteria <-
     match BS.max_length a with
     | Some max_length =>
         warn (UserWarning "`max_length` is deprecated in this function") ;;;
         let '(differs, validated) :=
           validate_stopping_criteria stopping_criteria max_length in
         (if differs
          then warn (UserWarning
                 "The set stopping criteria's max length is different from `max_length`")
          else ret tt) ;;;
         ret validated
     | None => ret stopping_criteria
     end ;;
   (if (List.length stopping_criteria =? 0)%nat
    then warn (UserWarning
           "You don't have defined any stopping_criteria, this will likely loop forever")
    else ret tt) ;;;
   let pad_token_id := or_config (BS.pad_token_id a) (Config.pad_token_id config) in
   let eos_token_id := or_config (BS.eos_token_id a) (Config.eos_token_id config) in
   let output_scores := or_default (BS.output_scores a) (Config.output_scores config) in
   let output_attentions :=
     or_default (BS.output_attentions a) (Config.output_attentions config) in
   let output_hidden_states :=
     or_default (BS.output_hidden_states a) (Config.output_hidden_states config) in
   let return_dict_in_generate :=
     or_default (BS.return_dict_in_generate a) (Config.return_dict_in_generate config) in
   let batch_size := scorer_batch_size beam_scorer in
   let num_beams := scorer_num_beams beam_scorer in
   let batch_beam_size := nrows (BS.input_ids a) in
   let cur_len := ncols (BS.input_ids a) in
   (if (num_beams * batch_size =? batch_beam_size)%nat then ret tt
    else throw (ValueError "Batch dimension of `input_ids` is not num_beams * batch_size")) ;;;
   (* init attention / hidden states / scores tuples *)
   let scores : option (list (tensor2 score)) :=
     if return_dict_in_generate && output_scores then Some [] else None in
   let beam_indices : option (list (list Z)) :=
     if return_dict_in_generate && output_scores
     then Some (repeat [] batch_beam_size) else None in
   (* if model is an encoder-decoder, retrieve encoder attention weights and
      hidden states *)
   (if return_dict_in_generate && Config.is_encoder_decoder config
       && (output_attentions || output_hidden_states)
       && negb (BS.kwargs_encoder_outputs a)
    then throw (KeyError "encoder_outputs") else ret tt) ;;;
   (* initialise score of first beam with 0 and the rest with -1e9 *)
   let beam_scores := init_beam_scores batch_size num_beams in
   let this_peer_finished := false in
   ret (LoopEnv logits_processor stopping_criteria pad_token_id eos_token_id
          output_scores output_attentions output_hidden_states
          return_dict_in_generate (BS.synced_gpus a) batch_size num_beams,
        LoopState (BS.input_ids a) past beam_scores cur_len beam_scorer scores
          beam_indices None this_peer_finished 0%nat))%gen.

(** One pass through the loop body behind the barrier and the model call:
    from [next_token_logits] to "increase cur_len". *)
Definition beam_step (le : loop_env) (outputs : tensor2 score) (st : state)
    : result state :=
  (let input_ids := st_input_ids st in
   let next_token_logits := outputs in
   let next_token_logits := adjust_logits_during_generation next_token_logits in
   let next_token_scores := log_softmax env next_token_logits in
   next_token_scores_processed <-
     apply_processors env (le_logits_processor le) input_ids next_token_scores ;;
   next_token_scores <-
     add_beam_scores next_token_scores next_token_scores_processed (st_beam_scores st) ;;
   (* Store scores, attentions and hidden_states when required *)
   let scores :=
     if le_return_dict_in_generate le && le_output_scores le
     then option_map (fun l => l ++ [next_token_scores_processed]) (st_scores st)
     else st_scores st in
   _ <- (if le_return_dict_in_generate le
            && (le_output_attentions le || le_output_hidden_states le)
         then raise (AttributeError "'tuple' object has no attribute")
         else ok tt) ;;
   (* reshape for beam search *)
   cands <- select_candidates select (le_batch_size le) (le_num_beams le)
              next_token_scores ;;
   (* stateless *)
   ' (beam_scorer, beam_outputs) <-
     process (st_scorer st) input_ids cands (le_pad_token_id le) (le_eos_token_id le)
       (st_beam_indices st) ;;
   let beam_scores := next_beam_scores beam_outputs in
   let beam_next_tokens := next_beam_tokens beam_outputs in
   let beam_idx := next_beam_indices beam_outputs in
   gathered <- gather_rows input_ids beam_idx ;;
   input_ids <- cat_column gathered beam_next_tokens ;;
   past <-
     match st_past st with
     | Some past => (past <- _reorder_cache past beam_idx ;; ok (Some past))
     | None => ok None
     end ;;
   beam_indices <-
     match st_beam_indices st with
     | Some beam_indices =>
         if le_return_dict_in_generate le && le_output_scores le
         then (b <- extend_beam_indices beam_indices beam_idx ;; ok (Some b))
         else ok (Some beam_indices)
     | None => ok None
     end ;;
   (* increase cur_len *)
   ok (LoopState input_ids past beam_scores (S (st_cur_len st)) beam_scorer scores
         beam_indices (Some cands) (st_this_peer_finished st) (st_iteration st)))%res.

(** [beam_scorer.is_done or stopping_criteria(input_ids, scores)] *)
Definition done_or_stop (le : loop_env) (st : state) : bool :=
  is_done (st_scorer st)
  || stopping_criteria_call env (st_iteration st) (le_stopping_criteria le)
       (st_input_ids st) (st_scores st).

Definition next_iteration (st : state) : state :=
  LoopState (st_input_ids st) (st_past st) (st_beam_scores st) (st_cur_len st)
    (st_scorer st) (st_scores st) (st_beam_indices st) (st_candidates st)
    (st_this_peer_finished st) (S (st_iteration st)).

Definition set_peer_finished (st : state) : state :=
  LoopState (st_input_ids st) (st_past st) (st_beam_scores st) (st_cur_len st)
    (st_scorer st) (st_scores st) (st_beam_indices st) (st_candidates st)
    true (st_iteration st).

Definition skip_step (st : state) : state :=
  LoopState (st_input_ids st) (st_past st) (st_beam_scores st) (S (st_cur_len st))
    (st_scorer st) (st_scores st) (st_beam_indices st) (st_candidates st)
    (st_this_peer_finished st) (st_iteration st).

(** The test that ends an iteration. *)
Definition loop_exit (le : loop_env) (st : state) : control state :=
  if done_or_stop le st then
    if negb (le_synced_gpus le) then Break st
    else Continue (next_iteration (set_peer_finished st))
  else Continue (next_iteration st).

(** One iteration of [while True]. *)
Definition loop_iter (le : loop_env) (st : state) : result (control state) :=
  (let reduced :=
     ((if st_this_peer_finished st then 0 else 1) + peers_running env (st_iteration st))%nat in
   if le_synced_gpus le && (reduced =? 0)%nat then ok (Break st)
   else
     outputs <- forward env (st_input_ids st) ;;
     if le_synced_gpus le && st_this_peer_finished st
     then ok (Continue (next_iteration (skip_step st)))
     else
       st <- beam_step le outputs st ;;
       ok (loop_exit le st))%res.

(** The loop, for at most [fuel] iterations; [None]: still running. *)
Fixpoint beam_search_loop (fuel : nat) (le : loop_env) (st : state)
    : result (option state) :=
  match fuel with
  | O => ok None
  | S fuel' =>
      (c <- loop_iter le st ;;
       match c with
       | Break st => ok (Some st)
       | Continue st => beam_search_loop fuel' le st
       end)%res
  end.

Definition beam_search_finalize (le : loop_env) (st : state) : result (tensor2 Z) :=
  match st_candidates st with
  | None => raise (UnboundLocalError "local variable 'next_tokens' referenced before assignment")
  | Some cands =>
      finalize (st_scorer st) (st_input_ids st) (st_beam_scores st) cands
        (le_pad_token_id le) (le_eos_token_id le)
        (criteria_max_length (le_stopping_criteria le)) (st_beam_indices st)
  end.

(** [beam_search], its loop cut off after [fuel] iterations: the warnings,
    and the exception raised, [None] while the loop is still running, or
    the sequences returned. *)
Definition beam_search (fuel : nat) (beam_scorer : Sc) (past : option (cache slice))
    (a : BS.args) : M (option (tensor2 Z)) :=
  (init <- beam_search_init beam_scorer past a ;;
   let '(le, st) := init in
   final <- lift (beam_search_loop fuel le st) ;;
   match final with
   | None => ret None
   | Some st =>
       sequences <- lift (beam_search_finalize le st) ;;
       ret (Some sequences)
   end)%gen.
End BeamSearch.

(** ** [generate]: the configuration phase and the call of [beam_search] *)

Module G.
(** The parameters of [generate] that steer generation; the encoder inputs
    (pixel values, entity ids, masks) only reach the encoder stack. *)
Record args : Type := Build {
  input_ids : tensor2 Z;
  max_length : option Z;
  min_length : option Z;
  early_stopping : option bool;
  num_beams : option Z;
  repetition_penalty : option Q;
  bos_token_id : option Z;
  pad_token_id : option Z;
  eos_token_id : option Z;
  length_penalty : option Q;
  no_repeat_ngram_size : option Z;
  encoder_no_repeat_ngram_size : option Z;
  num_return_sequences : option Z;
  max_time : option Q;
  max_new_tokens : option Z;
  num_beam_groups : option Z;
  diversity_penalty : option Q;
  logits_processor : option (list processor);
  renormalize_logits : option bool;
  stopping_criteria : option (list criterion);
  output_attentions : option bool;
  output_hidden_states : option bool;
  output_scores : option bool;
  return_dict_in_generate : option bool;
  forced_bos_token_id : option Z;
  forced_eos_token_id : option Z;
  remove_invalid_values : option bool;
  synced_gpus : bool;
  exponential_decay_length_penalty : option (Z * Q);
  suppress_tokens : option (list Z);
  begin_suppress_tokens : option (list Z);
  forced_decoder_ids : option (list (Z * Z));
  kwargs_encoder_outputs : bool            (* a key of [model_kwargs] *)
}.
End G.

(** The attributes of [self] the phase reads. *)
Record model : Type := Model {
  config : Config.t;
  has_text_image : bool;
  has_entity_image : bool
}.

(** What [generate] hands to [beam_search]. *)
Record beam_search_call (Sc : Type) : Type := BeamSearchCall {
  call_scorer : Sc;
  call_args : BS.args
}.
Arguments BeamSearchCall {Sc}.
Arguments call_scorer {Sc}.
Arguments call_args {Sc}.

(** Step 5 of [generate]: "Prepare `max_length` depending on other stopping
    criteria" up to the default from the configuration. *)
Definition resolve_max_length (config : Config.t) (max_length max_new_tokens : option Z)
    (input_ids_seq_length : Z) : M Z :=
  (max_length <-
     match max_length, max_new_tokens with
     | None, None =>
         warn (UserWarning
           "Neither `max_length` nor `max_new_tokens` has been set, `max_length` will default to `self.config.max_length`") ;;;
         ret None
     | None, Some max_new_tokens => ret (Some (max_new_tokens + input_ids_seq_length))
     | Some _, Some _ =>
         throw (ValueError
           "Both `max_new_tokens` and `max_length` have been set but they serve the same purpose")
     | Some max_length, None => ret (Some max_length)
     end ;;
   (* default to config if still None *)
   ret (or_default max_length (Config.max_length config)))%gen.

Section Generate.
Context {Sc : Type}.
(** The constructor of [BeamSearchScorer] ([utils]): batch size, number of
    beams, length penalty, early stopping, hypotheses to keep. *)
Variable new_scorer : nat -> Z -> Q -> bool -> Z -> result Sc.

(** [generate] from its first line to the call of [beam_search]; the two
    encoder passes and the fusion gate (steps 2 and 3) are tensor
    arithmetic of the scoring model and are taken to return. *)
Definition generate_setup (self : model) (a : G.args) : M (beam_search_call Sc) :=
  (let config := config self in
   (* 1. Set generation parameters if not already defined *)
   let bos_token_id := or_config (G.bos_token_id a) (Config.bos_token_id config) in
   let num_beams := or_default (G.num_beams a) (Config.num_beams config) in
   let length_penalty := or_default (G.length_penalty a) (Config.length_penalty config) in
   let early_stopping := or_default (G.early_stopping a) (Config.early_stopping config) in
   let num_beam_groups :=
     or_default (G.num_beam_groups a) (Config.num_beam_groups config) in
   let num_return_sequences :=
     or_default (G.num_return_sequences a) (Config.num_return_sequences config) in
   let pad_token_id := or_config (G.pad_token_id a) (Config.pad_token_id config) in
   let eos_token_id := or_config (G.eos_token_id a) (Config.eos_token_id config) in
   let eos_token_id :=
     match eos_token_id, Config.decoder_eos_token_id config with
     | None, Some from_decoder => from_decoder
     | given, _ => given
     end in
   pad_token_id <-
     match pad_token_id, eos_token_id with
     | None, Some eos =>
         warn (LoggerWarning "The attention mask and the pad token id were not set.") ;;;
         warn (LoggerWarning "Setting `pad_token_id` to `eos_token_id` for open-end generation.") ;;;
         ret (Some eos)
     | given, _ => ret given
     end ;;
   let output_scores := or_default (G.output_scores a) (Config.output_scores config) in
   let return_dict_in_generate :=
     or_default (G.return_dict_in_generate a) (Config.return_dict_in_generate config) in
   (* 2., 3. encoder outputs and image selection *)
   (if has_text_image self || has_entity_image self then ret tt
    else throw (RuntimeError "`has_text_image` and `has_entity_image` cannot both be False!")) ;;;
   (* 4. Prepare `input_ids` which will be used for auto-regressive generation *)
   let batch_size := nrows (G.input_ids a) in
   decoder_start_token_id <-
     match Config.decoder_start_token_id config with
     | Some t => ret t
     | None => throw (TypeError "unsupported operand type(s) for *: 'Tensor' and 'NoneType'")
     end ;;
   let gen_input_ids := Tensor2 1 (repeat [decoder_start_token_id] batch_size) in
   (* 5. Prepare `max_length` depending on other stopping criteria. *)
   let input_ids_seq_length := Z.of_nat (ncols gen_input_ids) in
   max_length <-
     resolve_max_length config (G.max_length a) (G.max_new_tokens a) input_ids_seq_length ;;
   let min_length := or_config (G.min_length a) (Config.min_length config) in
   (if some_and min_length (fun m => max_length <? m)
    then throw (ValueError "Unfeasible length constraints")
    else ret tt) ;;;
   (if max_length <=? input_ids_seq_length
    then warn (LoggerWarning "Input length is at least `max_length`")
    else ret tt) ;;;
   (* 6. determine generation mode *)
   (if num_beams <? num_beam_groups
    then throw (ValueError "`num_beam_groups` has to be smaller or equal to `num_beams`")
    else ret tt) ;;;
   (* 7. prepare distribution pre_processing samplers *)
   logits_processor <-
     lift (_get_logits_processor config
       (LP.Build (G.repetition_penalty a) (G.no_repeat_ngram_size a)
          (G.encoder_no_repeat_ngram_size a) input_ids_seq_length (G.input_ids a)
          None min_length max_length eos_token_id (G.forced_bos_token_id a)
          (G.forced_eos_token_id a) None num_beams num_beam_groups
          (G.diversity_penalty a) (G.remove_invalid_values a)
          (G.exponential_decay_length_penalty a) (G.logits_processor a)
          (G.renormalize_logits a) (G.suppress_tokens a) (G.begin_suppress_tokens a)
          (G.forced_decoder_ids a))) ;;
   (* 8. prepare stopping criteria *)
   stopping_criteria <-
     lift (_get_stopping_criteria (Some max_length) (G.max_time a)
             (G.stopping_criteria a)) ;;
   (* 9. go into different generation modes *)
   (if num_beams <? num_return_sequences
    then throw (ValueError "`num_return_sequences` has to be smaller or equal to `num_beams`.")
    else ret tt) ;;;
   (if is_some (criteria_max_length stopping_criteria) then ret tt
    else throw (ValueError "`max_length` needs to be a stopping_criteria for now.")) ;;;
   (* 10. prepare beam search scorer *)
   beam_scorer <-
     lift (new_scorer batch_size num_beams length_penalty early_stopping
             num_return_sequences) ;;
   (* 11. interleave input_ids with `num_beams` additional sequences per batch *)
   expand_size <-
     (if num_beams <? 0
      then throw (RuntimeError "Trying to create tensor with negative dimension")
      else ret (Z.to_nat num_beams)) ;;
   let gen_input_ids :=
     Tensor2 1 (concat (map (fun r => repeat r expand_size) (rows gen_input_ids))) in
   (* 12. run beam search *)
   (if G.kwargs_encoder_outputs a
    then throw (TypeError "beam_search() got multiple values for argument 'encoder_outputs'")
    else ret tt) ;;;
   ret (BeamSearchCall beam_scorer
          (BS.Build gen_input_ids (Some logits_processor) (Some stopping_criteria) None
             pad_token_id eos_token_id None None (Some output_scores)
             (Some return_dict_in_generate) (G.synced_gpus a) false)))%gen.

Context {scorer_class : BeamScorer Sc} {slice : Type}.
Variable select : nat -> list score -> result (list entry).
Variable env : Env.

Definition generate (fuel : nat) (self : model) (past : option (cache slice))
    (a : G.args) : M (option (tensor2 Z)) :=
  (call <- generate_setup self a ;;
   beam_search select env (config self) fuel (call_scorer call) past (call_args call))%gen.
End Generate.

(** ** A beam scorer after section 4.3 of the specification *)

Module SpecScorer.
(** Modelled from the spec: [BeamSearchScorer] ([utils], not in the source
    file), the BeamHypothesisPool of section 4.3: per example a bounded set
    of at most [num_beams] finished hypotheses ordered by length-penalised
    score, and a done flag.  The floating-point formula
    [score / length^length_penalty] is the field [penalise]. *)
Record hyp : Type := Hyp {
  hyp_key : score;
  hyp_tokens : list Z
}.

Record group : Type := Group {
  finished : list hyp;       (* best first, earlier insertion first among ties *)
  group_done : bool
}.

Record t : Type := Scorer {
  num_beams : nat;
  do_early_stopping : bool;
  num_beam_hyps_to_keep : nat;
  penalise : score -> nat -> score;
  groups : list group
}.

Fixpoint insert_hyp (h : hyp) (l : list hyp) : list hyp :=
  match l with
  | [] => [h]
  | x :: l' =>
      if score_ltb (hyp_key x) (hyp_key h) then h :: x :: l' else x :: insert_hyp h l'
  end.

(** Insert into the bounded set: a full set drops its minimum, and a new
    hypothesis that does not exceed the minimum is the one discarded. *)
Definition add_hyp (nb : nat) (h : hyp) (l : list hyp) : list hyp :=
  firstn nb (insert_hyp h l).

Definition live_beam : Type := (score * Z * Z)%type.   (* score, token, parent *)

(** Step 3: walk the candidates in descending score order. *)
Fixpoint walk (sc : t) (history : tensor2 Z) (offset : nat) (eos : option Z)
    (cands : list live_beam) (fin : list hyp) (live : list live_beam)
    : list hyp * list live_beam :=
  match cands with
  | [] => (fin, live)
  | (s, tok, parent) :: rest =>
      if (num_beams sc <=? List.length live)%nat then (fin, live)
      else if some_and eos (Z.eqb tok) then
        let row := nth (offset + Z.to_nat parent)%nat (rows history) [] in
        let h := Hyp (penalise sc s (ncols history)) (row ++ [tok]) in
        walk sc history offset eos rest (add_hyp (num_beams sc) h fin) live
      else walk sc history offset eos rest fin (live ++ [(s, tok, Z.of_nat offset + parent)])
  end.

(** Step 4: pad with the dummy [(pad_token_id, score=0, parent=0)]. *)
Definition pad_live (nb : nat) (pad : Z) (live : list live_beam) : list live_beam :=
  live ++ repeat (Fin 0, pad, 0) (nb - List.length live).

(** Step 6: full under early stopping, or the best live score can no
    longer beat the worst finished one. *)
Definition group_is_done (sc : t) (cur_len : nat) (fin : list hyp)
    (live : list live_beam) : bool :=
  (num_beams sc <=? List.length fin)%nat
  && (do_early_stopping sc
      || match live, rev fin with
         | (best, _, _) :: _, worst :: _ =>
             negb (score_ltb (hyp_key worst) (penalise sc best cur_len))
         | _, _ => false
         end).

Definition zip3 (c : candidates) (b : nat) : list live_beam :=
  combine (combine (nth b (cand_scores c) []) (nth b (cand_tokens c) []))
          (nth b (cand_indices c) []).

Definition process_group (sc : t) (history : tensor2 Z) (c : candidates)
    (pad : Z) (eos : option Z) (b : nat) (g : group) : group * list live_beam :=
  if group_done g then (g, pad_live (num_beams sc) pad [])
  else
    let '(fin, live) :=
      walk sc history (b * num_beams sc) eos (zip3 c b) (finished g) [] in
    (Group fin (group_is_done sc (ncols history) fin live),
     pad_live (num_beams sc) pad live).

Definition process (sc : t) (history : tensor2 Z) (c : candidates)
    (pad eos : option Z) (beam_indices : option (list (list Z)))
    : result (t * beam_outputs) :=
  match pad with
  | None => raise (ValueError "pad_token_id has to be defined")
  | Some pad =>
      let per_group :=
        map (fun bg : nat * group => process_group sc history c pad eos (fst bg) (snd bg))
            (combine (seq 0 (List.length (groups sc))) (groups sc)) in
      let live := concat (map snd per_group) in
      ok (Scorer (num_beams sc) (do_early_stopping sc) (num_beam_hyps_to_keep sc)
            (penalise sc) (map fst per_group),
          BeamOutputs (map (fun l : live_beam => fst (fst l)) live)
            (map (fun l : live_beam => snd (fst l)) live)
            (map (fun l : live_beam => snd l) live))
  end.

Definition is_done (sc : t) : bool := forallb group_done (groups sc).

(** Promote live beams until the set has [num_beams] entries. *)
Fixpoint promote (sc : t) (cur_len : nat) (beams : list (score * list Z))
    (fin : list hyp) : list hyp :=
  match beams with
  | [] => fin
  | (s, row) :: rest =>
      if (num_beams sc <=? List.length fin)%nat then fin
      else promote sc cur_len rest
             (add_hyp (num_beams sc) (Hyp (penalise sc s cur_len) row) fin)
  end.

Definition pad_right (pad : Z) (width : nat) (l : list Z) : list Z :=
  l ++ repeat pad (width - List.length l).

Definition finalize (sc : t) (history : tensor2 Z) (final_scores : list score)
    (c : candidates) (pad eos max_length : option Z)
    (beam_indices : option (list (list Z))) : result (tensor2 Z) :=
  match pad with
  | None => raise (ValueError "pad_token_id has to be defined")
  | Some pad =>
      let nb := num_beams sc in
      let best :=
        concat (map (fun bg : nat * group =>
                  let beams :=
                    combine (firstn nb (skipn (fst bg * nb) final_scores))
                            (firstn nb (skipn (fst bg * nb) (rows history))) in
                  map hyp_tokens
                    (firstn (num_beam_hyps_to_keep sc)
                       (promote sc (ncols history) beams (finished (snd bg)))))
               (combine (seq 0 (List.length (groups sc))) (groups sc))) in
      let width := fold_right Nat.max 0%nat (map (@List.length Z) best) in
      ok (Tensor2 width (map (pad_right pad width) best))
  end.

Definition new (batch_size : nat) (num_beams : Z) (length_penalty : Q)
    (do_early_stopping : bool) (num_beam_hyps_to_keep : Z)
    (penalise : score -> nat -> score) : t :=
  Scorer (Z.to_nat num_beams) do_early_stopping (Z.to_nat num_beam_hyps_to_keep)
    penalise (repeat (Group [] false) batch_size).
End SpecScorer.

#[export] Instance SpecScorer_BeamScorer : BeamScorer SpecScorer.t := {
  scorer_batch_size sc := List.length (SpecScorer.groups sc);
  scorer_num_beams := SpecScorer.num_beams;
  process := SpecScorer.process;
  is_done := SpecScorer.is_done;
  finalize := SpecScorer.finalize
}.

(** ** What the top-k primitive promises, and clear-cut scores *)

(** What [torch.topk(v, k, largest=True, sorted=True)] promises: a
    selection of the [k] largest entries in descending order, whatever the
    order among equal scores, and an error when [k] exceeds the size. *)
Definition meets_topk_contract (select : nat -> list score -> result (list entry)) : Prop :=
  forall k v,
    ((k <= List.length v)%nat ->
     exists sel, select k v = ok sel /\ is_topk_any_ties k v sel) /\
    ((List.length v < k)%nat ->
     select k v = raise (RuntimeError "selected index k out of range")).

(** No two scores of the vector are equal. *)
Fixpoint pairwise_different (v : list score) : bool :=
  match v with
  | [] => true
  | s :: v' => negb (existsb (score_eqb s) v') && pairwise_different v'
  end.

(** The [k + 1] largest scores of the vector are pairwise different: the
    [k] largest entries and their order are then the same under every
    order of equal scores. *)
Definition clear_cut (k : nat) (v : list score) : bool :=
  pairwise_different (map fst (firstn (S k) (sort_desc (indexed_from 0 v)))).

(** Every example of the score matrix has a clear-cut selection of
    [2 * num_beams] candidates. *)
Definition clear_cut_scores (batch_size num_beams : nat) (scores : tensor2 score) : bool :=
  forallb (clear_cut (2 * num_beams)) (view_groups batch_size num_beams scores).

(** ** Runs of the loop *)

Section LoopRuns.
Context {Sc : Type} {scorer_class : BeamScorer Sc} {slice : Type}.
Variable select : nat -> list score -> result (list entry).
Variable env : Env.

(** The body of an iteration of a process that still generates: the model
    call and the step behind it. *)
Definition iteration_body (le : loop_env) (st : loop_state Sc slice)
    : result (loop_state Sc slice) :=
  (outputs <- forward env (st_input_ids st) ;;
   beam_step select env le outputs st)%res.

(** [runs_on le st n st']: from [st] the loop goes through [n] iterations,
    each of which returns and ends with neither the scorer done nor a
    stopping criterion fired, and is then in [st'], about to iterate again. *)
Inductive runs_on (le : loop_env) : loop_state Sc slice -> nat -> loop_state Sc slice -> Prop :=
| runs_zero (st : loop_state Sc slice) : runs_on le st 0 st
| runs_step (st st1 st' : loop_state Sc slice) (n : nat) :
    iteration_body le st = ok st1 ->
    done_or_stop env le st1 = false ->
    runs_on le (next_iteration st1) n st' ->
    runs_on le st (S n) st'.

(** The score matrix that the model, the rules and the beam scores yield
    on a state, the one the selection of an iteration is given: the beam
    scores added to the processed log-probabilities. *)
Definition step_scores (le : loop_env) (st : loop_state Sc slice)
    : result (tensor2 score) :=
  (outputs <- forward env (st_input_ids st) ;;
   let next_token_scores := log_softmax env (adjust_logits_during_generation outputs) in
   next_token_scores_processed <-
     apply_processors env (le_logits_processor le) (st_input_ids st) next_token_scores ;;
   add_beam_scores next_token_scores next_token_scores_processed (st_beam_scores st))%res.

(** On the states of the first [fuel] iterations of the loop (those whose
    step a finished process skips included), the score matrix has a
    clear-cut selection for every example. *)
Fixpoint run_clear_cut (fuel : nat) (le : loop_env) (st : loop_state Sc slice) : bool :=
  match fuel with
  | O => true
  | S fuel' =>
      match step_scores le st with
      | inr scores => clear_cut_scores (le_batch_size le) (le_num_beams le) scores
      | inl _ => true
      end
      && match loop_iter select env le st with
         | inr (Continue st') => run_clear_cut fuel' le st'
         | _ => true
         end
  end.
End LoopRuns.

Section TwoPrimitives.
Context {Sc : Type} {scorer_class : BeamScorer Sc} {slice : Type}.
Variables select1 select2 : nat -> list score -> result (list entry).
Variable env : Env.

(** The two primitives return the same selection for every example of
    the score matrix. *)
Definition same_selections (le : loop_env) (scores : tensor2 score) : Prop :=
  forall v, In v (view_groups (le_batch_size le) (le_num_beams le) scores) ->
    select1 (2 * le_num_beams le)%nat v = select2 (2 * le_num_beams le)%nat v.

(** On the states of the first [fuel] iterations of the loop run with
    [select1], the two primitives return the same selections. *)
Fixpoint run_agrees (fuel : nat) (le : loop_env) (st : loop_state Sc slice) : Prop :=
  match fuel with
  | O => True
  | S fuel' =>
      match step_scores env le st with
      | inr scores => same_selections le scores
      | inl _ => True
      end
      /\ match loop_iter select1 env le st with
         | inr (Continue st') => run_agrees fuel' le st'
         | _ => True
         end
  end.
End TwoPrimitives.

(** ** Attention masks: [_make_causal_mask], [_expand_mask] *)

(** A tensor of shape [bsz, 1, tgt_len, src_len]. *)
Definition tensor4 (A : Type) : Type := list (list (list (list A))).

Section MaskOperations.
Context {A : Type}.

(** [torch.full((r, c), v)] *)
Definition full (r c : nat) (v : A) : list (list A) := repeat (repeat v c) r.

(** [torch.arange(n)] *)
Definition arange (n : nat) : list Z := map Z.of_nat (seq 0 n).

(** [m.masked_fill_(cond, v)] *)
Definition masked_fill (m : list (list A)) (cond : list (list bool)) (v : A)
    : list (list A) :=
  map (fun p : list A * list bool =>
         map (fun q : A * bool => if snd q then v else fst q)
             (combine (fst p) (snd p)))
      (combine m cond).

End MaskOperations.

Section Masks.
(** [A]: the values of the mask's dtype; [B]: the values of the default
    dtype, float32, in which [_make_causal_mask] builds its mask before it
    casts it. *)
Context {A B : Type}.
Variable zero : A.          (* 0 in the mask's dtype *)
Variable min_value : A.     (* [torch.finfo(dtype).min] *)
(** [torch.tensor(torch.finfo(dtype).min)]: the minimum of the dtype as a
    float32 tensor (for float64, whose minimum is beyond float32, [-inf]). *)
Variable min_value32 : B.
Variable zero32 : B.        (* 0 in float32 *)
Variable to_dtype : B -> A. (* [mask.to(dtype)] on one entry *)

(** [past_key_values_length] is the number of cached positions, the size
    of an axis of a cached state. *)
Definition _make_causal_mask (input_ids_shape : nat * nat)
    (past_key_values_length : nat) : tensor4 A :=
  let (bsz, tgt_len) := input_ids_shape in
  let mask := full tgt_len tgt_len min_value32 in
  let mask_cond := arange tgt_len in
  (* mask_cond < (mask_cond + 1).view(tgt_len, 1) *)
  let mask :=
    masked_fill mask
      (map (fun ci => map (fun cj => cj <? ci + 1) mask_cond) mask_cond) zero32 in
  let mask := map (map to_dtype) mask in
  let mask :=
    if (0 <? past_key_values_length)%nat
    then map (fun row => repeat zero past_key_values_length ++ row) mask
    else mask in
  (* mask[None, None, :, :].expand(bsz, 1, tgt_len, tgt_len + past) *)
  repeat [mask] bsz.

(** The mask holds integers (0 and 1 as a rule); [1.0 - m] is zero for
    [m = 1] only, and every other entry is filled with the minimum. *)
Definition _expand_mask (mask : tensor2 Z) (tgt_len : option nat) : tensor4 A :=
  let src_len := ncols mask in
  let tgt_len := or_default tgt_len src_len in
  let expanded_mask := map (fun row => [repeat row tgt_len]) (rows mask) in
  let inverted_mask := map (map (map (map (fun m => 1 - m)))) expanded_mask in
  map (map (map (map (fun x : Z => if x =? 0 then zero else min_value)))) inverted_mask.
End Masks.

(** The entry [t[b, h, i, j]], if there is one. *)
Definition at4 {A : Type} (t : tensor4 A) (b h i j : nat) : option A :=
  match nth_error t b with
  | Some heads =>
      match nth_error heads h with
      | Some m =>
          match nth_error m i with
          | Some row => nth_error row j
          | None => None
          end
      | None => None
      end
  | None => None
  end.

(** ** [BartLearnedPositionalEmbedding], [EntityEmbedding] *)

Section Embeddings.
Context {A : Type}.

(** [nn.Embedding.forward]: the rows of the table at the given indices;
    an index outside the table raises. *)
Definition lookup (weight : list A) (i : Z) : result A :=
  if i <? 0 then raise (IndexError "index out of range in self")
  else match nth_error weight (Z.to_nat i) with
       | Some r => ok r
       | None => raise (IndexError "index out of range in self")
       end.

Definition embedding (weight : list A) (ids : list (list Z)) : result (list (list A)) :=
  mapM (mapM (lookup weight)) ids.

(** [self.offset = 2] *)
Definition positional_offset : Z := 2.

(** [BartLearnedPositionalEmbedding.forward]; only the shape of [input_ids]
    is used. *)
Definition BartLearnedPositionalEmbedding_forward (weight : list A)
    (input_ids : tensor2 Z) (past_key_values_length : Z) : result (list (list A)) :=
  let bsz := nrows input_ids in
  let seq_len := ncols input_ids in
  (* torch.arange(past, past + seq_len).expand(bsz, -1) *)
  let positions :=
    repeat (map (fun i => past_key_values_length + Z.of_nat i) (seq 0 seq_len)) bsz in
  embedding weight (map (map (fun p => p + positional_offset)) positions).

(** What [set_embeddings] is given: a tensor, an [nn.Embedding] (with its
    weight) or an object of another type. *)
Inductive embedding_file : Type :=
| TensorFile (t : tensor2 A)
| EmbeddingFile (weight : tensor2 A)
| OtherFile.

(** [weight[k:] = new_weight]: the number of rows agrees already; the
    columns have to agree, or [new_weight] has one column, which is then
    broadcast. *)
Definition assign_rows_from (k : nat) (weight new_weight : tensor2 A)
    : result (tensor2 A) :=
  if (ncols new_weight =? ncols weight)%nat
  then ok (Tensor2 (ncols weight) (firstn k (rows weight) ++ rows new_weight))
  else if (ncols new_weight =? 1)%nat
  then ok (Tensor2 (ncols weight)
             (firstn k (rows weight)
              ++ map (fun r => concat (map (fun x => repeat x (ncols weight)) r))
                     (rows new_weight)))
  else raise (RuntimeError "The expanded size of the tensor must match the existing size").

(** [EntityEmbedding.set_embeddings]; [offset] is [self.offset] (the pad and
    scene entries in front) and the result the new [self.weight]. *)
Definition set_embeddings (offset : nat) (weight : tensor2 A)
    (new_embeddings : embedding_file) : result (tensor2 A) :=
  ((* file type? *)
   new_weight <-
     match new_embeddings with
     | TensorFile t => ok t
     | EmbeddingFile w => ok w
     | OtherFile =>
         raise (TypeError
           "The new entity embedding file must be a torch.Tensor object or a torch.nn.Embedding object.")
     end ;;
   (* has pad & scene token? *)
   if (nrows weight =? nrows new_weight + offset)%nat
   then assign_rows_from offset weight new_weight
   else if (nrows weight =? nrows new_weight)%nat
   then assign_rows_from 0 weight new_weight
   else raise (ValueError "Mismatched entity embedding."))%res.
End Embeddings.

(** ** [_resize_final_logits_bias] *)

Section FinalLogitsBias.
Context {A : Type}.
Variable zero : A.

(** [l[:n]]; a negative [n] counts from the end. *)
Definition slice_to (l : list A) (n : Z) : list A :=
  if n <? 0 then firstn (List.length l - Z.to_nat (- n)) l
  else firstn (Z.to_nat n) l.

(** The bias has shape [(1, old_num_tokens)]: its one row; the result is
    the new buffer [final_logits_bias]. *)
Definition _resize_final_logits_bias (final_logits_bias : list A)
    (new_num_tokens : Z) : list A :=
  let old_num_tokens := Z.of_nat (List.length final_logits_bias) in
  if new_num_tokens <=? old_num_tokens
  then slice_to final_logits_bias new_num_tokens
  else
    let extra_bias := repeat zero (Z.to_nat (new_num_tokens - old_num_tokens)) in
    final_logits_bias ++ extra_bias.
End FinalLogitsBias.

(** ** [prepare_inputs_for_generation] *)

(** The dictionary [prepare_inputs_for_generation] returns; [H] is the type
    of the head masks and [E] of the encoder outputs, which pass through. *)
Record model_inputs (slice H E : Type) : Type := ModelInputs {
  mi_input_ids : option (tensor2 Z);
  mi_encoder_outputs : option E;
  mi_past_key_values : option (cache slice);
  mi_decoder_input_ids : tensor2 Z;
  mi_attention_mask : option (tensor2 Z);
  mi_head_mask : option H;
  mi_decoder_head_mask : option H;
  mi_cross_attn_head_mask : option H;
  mi_use_cache : option bool
}.
Arguments ModelInputs {slice H E}.
Arguments mi_input_ids {slice H E}.
Arguments mi_encoder_outputs {slice H E}.
Arguments mi_past_key_values {slice H E}.
Arguments mi_decoder_input_ids {slice H E}.
Arguments mi_attention_mask {slice H E}.
Arguments mi_head_mask {slice H E}.
Arguments mi_decoder_head_mask {slice H E}.
Arguments mi_cross_attn_head_mask {slice H E}.
Arguments mi_use_cache {slice H E}.

(** [t[:, -1:]] *)
Definition last_column {A : Type} (t : tensor2 A) : tensor2 A :=
  Tensor2 (Nat.min 1 (ncols t))
    (map (fun r => skipn (List.length r - 1) r) (rows t)).

Definition prepare_inputs_for_generation {slice H E : Type}
    (decoder_input_ids : tensor2 Z) (past : option (cache slice))
    (attention_mask : option (tensor2 Z))
    (head_mask decoder_head_mask cross_attn_head_mask : option H)
    (use_cache : option bool) (encoder_outputs : option E) : model_inputs slice H E :=
  (* cut decoder_input_ids if past is used *)
  let decoder_input_ids :=
    match past with
    | Some _ => last_column decoder_input_ids
    | None => decoder_input_ids
    end in
  ModelInputs None encoder_outputs past decoder_input_ids attention_mask head_mask
    decoder_head_mask cross_attn_head_mask use_cache.

(** ** Vocabulary of the statements *)

(** The exception of an [index_select] whose index is out of range. *)
Definition index_select_error : exn := IndexError "index out of range in self".

(** The exception of [beam_search] for a wrong number of rows. *)
Definition batch_dimension_error : exn :=
  ValueError "Batch dimension of `input_ids` is not num_beams * batch_size".

(** [torch.arange(n)] as a vector of parent indices: the identity. *)
Definition identity_beam_idx (n : nat) : list Z := map Z.of_nat (seq 0 n).

(** Parents of parents: slot [j] of the second reordering takes slot
    [second[j]] of the first, which took slot [first[second[j]]]. *)
Definition compose_beam_idx (first second : list Z) : list Z :=
  map (fun j => nth (Z.to_nat j) first 0) second.


Definition score_eq_dec (a b : score) : {a = b} + {a <> b}.
Proof. decide equality; apply Z.eq_dec. Defined.

Definition entry_eq_dec (a b : entry) : {a = b} + {a <> b}.
Proof. decide equality; [apply Nat.eq_dec | apply score_eq_dec]. Defined.

(** The scores of two beams over three tokens, [[-1, -2, -1], [-1, 0, -2]],
    flattened: the maximum at position 4 and three equal scores at the
    positions 0, 2 and 3. *)
Definition tied_scores : list score :=
  [Fin (-1); Fin (-2); Fin (-1); Fin (-1); Fin 0; Fin (-2)].

(** A top-k primitive that keeps the promise of [torch.topk] and not the
    index order among equal scores: of [tied_scores] it selects, for
    [k = 4], the positions 4, 2, 3, 0, the order in which the selection of
    the tensor library (an [nth_element] and a sort of the leading entries,
    both comparing scores alone) leaves them; on every other input it is
    [topk]. *)
Definition topk_other_ties (k : nat) (v : list score) : result (list entry) :=
  if (k =? 4)%nat && (if list_eq_dec score_eq_dec v tied_scores then true else false)
  then ok [(Fin 0, 4%nat); (Fin (-1), 2%nat); (Fin (-1), 3%nat); (Fin (-1), 0%nat)]
  else topk k v.

(** What [masked_fill_] does to one entry. *)
Definition fill_label (pad x : Z) : Z := if x =? -100 then pad else x.

(** Every parent index is a valid beam of every state that is reordered. *)
Definition beam_idx_in_range {slice : Type} (past : cache slice) (beam_idx : list Z)
    : Prop :=
  forall layer t i,
    In layer past -> In t (firstn 2 layer) -> In i beam_idx ->
    0 <= i < Z.of_nat (List.length t).

Definition rank_of (p : processor) : nat := registration_rank (type_of_processor p).

(** The rules of [l] are in strictly increasing registration order and all
    come before position [n]. *)
Definition registered_below (n : nat) (l : list processor) : Prop :=
  StronglySorted (fun p q => (rank_of p < rank_of q)%nat) l /\
  Forall (fun p => (rank_of p < n)%nat) l.

(** The invariant of the chain under construction: registration order, and
    an [InfNanRemoveLogitsProcessor] only when [remove_invalid_values] is on. *)
Definition chain_inv (remove_invalid_values : option bool) (n : nat)
    (l : list processor) : Prop :=
  registered_below n l /\
  (In InfNanRemoveLogitsProcessor l -> remove_invalid_values = Some true).

Definition fails {A : Type} (c : M A) : Prop := exists w e, c = (w, raise e).

Definition fails_with {A : Type} (e : exn) (c : M A) : Prop := exists w, c = (w, raise e).

Definition both_lengths_error : exn :=
  ValueError "Both `max_new_tokens` and `max_length` have been set but they serve the same purpose".

Definition no_criteria_warning : warning :=
  UserWarning "You don't have defined any stopping_criteria, this will likely loop forever".

Definition token_of (vocab_size : nat) (e : entry) : Z :=
  Z.of_nat (snd e) mod Z.of_nat vocab_size.

Definition beam_of (vocab_size : nat) (e : entry) : Z :=
  torch_int_div (Z.of_nat (snd e)) (Z.of_nat vocab_size).


Definition has_non_finite (t : tensor2 score) : Prop :=
  exists row s, In row (rows t) /\ In s row /\ is_finite s = false.

(** ** Concrete configurations used by the examples *)

Module Fixture.
(** A configuration that sets the token ids, two beams and a length
    penalty of 0. *)
Definition plain_config : Config.t :=
  Config.Build true (Some 0) (Some 1) (Some 2) None (Some 0) 2 1 1 0%Q false false 20
    None false false false false None None None None None None None None None None
    None None.

(** Repetition penalty 1.2, no-repeat-n-gram 3, minimum length 5, forced
    EOS, suppressed tokens, one rule of the caller, renormalisation. *)
Definition busy_args : LP.args :=
  LP.Build (Some (12 # 10)) (Some 3) None 1 (Tensor2 2 [[7; 8]]) None (Some 5) 20
    (Some 2) None (Some 2) None 2 1 None None None (Some [CustomLogitsProcessor 7])
    (Some true) (Some [4; 5]) None None.

(** Nothing enabled and no rule of the caller. *)
Definition bare_args : LP.args :=
  LP.Build None None None 1 (Tensor2 2 [[7; 8]]) None None 20 (Some 2) None None None
    2 1 None None None (Some []) None None None None.

(** A model with both image branches, and the scorer constructor for a
    length penalty of 0, where [score / length^0] is the score itself. *)
Definition self : model := Model plain_config true true.

Definition new_scorer (batch_size : nat) (num_beams : Z) (length_penalty : Q)
    (do_early_stopping : bool) (num_beam_hyps_to_keep : Z) : result SpecScorer.t :=
  ok (SpecScorer.new batch_size num_beams length_penalty do_early_stopping
        num_beam_hyps_to_keep (fun s _ => s)).

(** [log_softmax] of a row that is read as log-probabilities already:
    the row itself; a row that holds [+inf] or NaN, or nothing but [-inf],
    has no finite normaliser and becomes NaN throughout. *)
Definition log_softmax_row (row : list score) : list score :=
  if existsb (fun s => match s with PosInf | NaN => true | _ => false end) row
     || forallb (fun s => match s with NegInf => true | _ => false end) row
  then map (fun _ => NaN) row
  else row.

(** A scoring model that returns the same row for every beam, rules that
    leave the scores alone, a clock that stands still and [peers] other
    processes that never finish. *)
Definition constant_env (row : list score) (peers : nat) : Env := {|
  forward := fun ids => ok (Tensor2 (List.length row) (map (fun _ => row) (rows ids)));
  log_softmax := fun t => Tensor2 (ncols t) (map log_softmax_row (rows t));
  run_processor := fun _ _ scores => ok scores;
  elapsed := fun _ => 0%Q;
  peers_running := fun _ => peers
|}.

(** One example, two beams, one hypothesis returned, no early stopping. *)
Definition scorer2 : SpecScorer.t := SpecScorer.new 1 2 0 false 1 (fun s _ => s).

(** [beam_search] on the start token 0 replicated for the two beams. *)
Definition search_args (criteria : option (list criterion)) (synced_gpus : bool)
    : BS.args :=
  BS.Build (Tensor2 1 [[0]; [0]]) None criteria None None None None None None None
    synced_gpus false.

(** The same, with both hypotheses returned. *)
Definition scorer2_keep2 : SpecScorer.t := SpecScorer.new 1 2 0 false 2 (fun s _ => s).

(** [plain_config] without an end-of-sequence token. *)
Definition open_config : Config.t :=
  Config.Build true (Some 0) (Some 1) None None (Some 0) 2 1 1 0%Q false false 20
    None false false false false None None None None None None None None None None
    None None.

(** A scoring model whose row depends on the last token of the history
    alone, otherwise as [constant_env]. *)
Definition table_env (vocab_size : nat) (row_after : Z -> list score) (peers : nat)
    : Env := {|
  forward := fun ids =>
    ok (Tensor2 vocab_size (map (fun r => row_after (last r 0)) (rows ids)));
  log_softmax := fun t => Tensor2 (ncols t) (map log_softmax_row (rows t));
  run_processor := fun _ _ scores => ok scores;
  elapsed := fun _ => 0%Q;
  peers_running := fun _ => peers
|}.


(** Rows whose sums with the beam scores never coincide among the best. *)
Definition spread_rows (last_token : Z) : list score :=
  if last_token =? 0 then [Fin (-1); Fin (-3); Fin (-9); Fin (-27); Fin (-81)]
  else [Fin (-2); Fin (-20); Fin (-30); Fin (-40); Fin (-50)].

(** What [beam_search] enters the loop with on [search_args]. *)
Definition loop_env0 (criteria : list criterion) (synced_gpus : bool) : loop_env :=
  LoopEnv [] criteria (Some 1) (Some 2) false false false false synced_gpus 1 2.

Definition state0 : loop_state SpecScorer.t unit :=
  LoopState (Tensor2 1 [[0]; [0]]) None [Fin 0; Fin (-1000000000)] 1 scorer2 None None
    None false 0.

(** The same state with a cache of one layer: the keys and values of the
    two beams, and the two cross-attention states. *)
Definition state_with_cache : loop_state SpecScorer.t string :=
  LoopState (Tensor2 1 [[0]; [0]])
    (Some [[["k0"; "k1"]; ["v0"; "v1"]; ["ck"]; ["cv"]]]%string)
    [Fin 0; Fin (-1000000000)] 1 scorer2 None None None false 0.

(** [generate] asked for [max_new_tokens] and [max_length] respectively. *)
Definition generate_args (max_length max_new_tokens : option Z) : G.args :=
  G.Build (Tensor2 2 [[7; 8]]) max_length None None None None None None None None None
    None None None max_new_tokens None None (Some []) None (Some []) None None None None
    None None None false None None None None false.

(** The scoring model of the examples: three tokens with the
    log-probabilities -1, -2 and -3 for every beam, no other process. *)
Definition steady_env : Env := constant_env [Fin (-1); Fin (-2); Fin (-3)] 0.

(** [generate] with [max_length = 10] and the given rules, criteria,
    minimum length, number of beam groups and of returned sequences. *)
Definition custom_args (processors : option (list processor))
    (criteria : option (list criterion))
    (min_length num_beam_groups num_return_sequences : option Z) : G.args :=
  G.Build (Tensor2 2 [[7; 8]]) (Some 10) min_length None None None None None None None
    None None num_return_sequences None None num_beam_groups None processors None
    criteria None None None None None None None false None None None None false.
End Fixture.

(** * Properties *)

(** ** Monad and list facts shared by the proofs *)

Lemma mapM_length {A B : Type} (f : A -> result B) (l : list A) (r : list B) :
  mapM f l = ok r -> List.length r = List.length l.
Proof.
  revert r. induction l as [| x l IH]; simpl; intros r H.
  - inversion H. reflexivity.
  - destruct (f x) as [e | y]; simpl in H; [discriminate |].
    destruct (mapM f l) as [e | ys]; simpl in H; [discriminate |].
    inversion H. simpl. f_equal. apply IH. reflexivity.
Qed.

Lemma mapM_nth {A B : Type} (f : A -> result B) (l : list A) (r : list B) :
  mapM f l = ok r ->
  forall i x, nth_error l i = Some x ->
  exists y, nth_error r i = Some y /\ f x = ok y.
Proof.
  revert r. induction l as [| a l IH]; simpl; intros r H i x Hi.
  - destruct i; discriminate.
  - destruct (f a) as [e | y] eqn:Hf; simpl in H; [discriminate |].
    destruct (mapM f l) as [e | ys] eqn:Hm; simpl in H; [discriminate |].
    inversion H; subst r. destruct i as [| i]; simpl in *.
    + inversion Hi; subst. exists y. split; [reflexivity | exact Hf].
    + apply (IH ys eq_refl i x Hi).
Qed.

Lemma mapM_ext {A B : Type} (f g : A -> result B) (l : list A) :
  (forall x, In x l -> f x = g x) -> mapM f l = mapM g l.
Proof.
  induction l as [| x l IH]; intros H; simpl.
  - reflexivity.
  - rewrite (H x (or_introl eq_refl)).
    rewrite IH by (intros y Hy; apply H; right; exact Hy).
    reflexivity.
Qed.

Lemma map_combine_map_l {A B C : Type} (f : A -> B) (g : B * A -> C) (l : list A) :
  map g (combine (map f l) l) = map (fun x => g (f x, x)) l.
Proof.
  induction l as [| x l IH]; simpl; [reflexivity | rewrite IH; reflexivity].
Qed.

(** ** [shift_tokens_right] *)

Lemma shift_tokens_right_rows (m : tensor2 Z) (pad start : Z) :
  (0 < ncols m)%nat ->
  shift_tokens_right m (Some pad) start
  = ok (Tensor2 (ncols m)
          (map (fun row => map (fill_label pad) (start :: removelast row)) (rows m))).
Proof.
  intros Hn. unfold shift_tokens_right, assign_col0, assign_from_col1, new_zeros.
  simpl. destruct (ncols m) as [| n] eqn:En; [lia |]. simpl.
  unfold masked_fill_eq. simpl. f_equal. f_equal.
  rewrite map_combine_map_l. rewrite !map_map.
  apply map_ext. intros row. reflexivity.
Qed.

Lemma removelast_nth_error {A : Type} (l : list A) (j : nat) :
  (j + 1 < List.length l)%nat -> nth_error (removelast l) j = nth_error l j.
Proof.
  revert j. induction l as [| x l IH]; intros j H; simpl in *.
  - lia.
  - destruct l as [| y l'].
    + simpl in H. lia.
    + destruct j as [| j]; [reflexivity |].
      simpl. apply IH. simpl in *. lia.
Qed.

(** C10, as the code has it: for a matrix with at least one column,
    [shift_tokens_right] raises the ValueError when [pad_token_id] is None
    and otherwise returns a matrix of the same shape in which every row is
    [decoder_start_token_id] followed by the input row without its last
    entry, every -100 of that row (the start token included) replaced by
    [pad_token_id]; a matrix without columns raises an IndexError whatever
    [pad_token_id] is. *)
Theorem shift_tokens_right_spec (m : tensor2 Z) (pad : option Z) (start : Z) :
  wf_tensor m ->
  ((0 < ncols m)%nat ->
   match pad with
   | None =>
       shift_tokens_right m None start
       = raise (ValueError "self.model.config.pad_token_id has to be defined.")
   | Some p =>
       exists r,
         shift_tokens_right m (Some p) start = ok r /\
         ncols r = ncols m /\ nrows r = nrows m /\ wf_tensor r /\
         forall i row, nth_error (rows m) i = Some row ->
           exists row',
             nth_error (rows r) i = Some row' /\
             nth_error row' 0 = Some (fill_label p start) /\
             (start <> -100 -> nth_error row' 0 = Some start) /\
             forall j, (j + 1 < ncols m)%nat ->
               nth_error row' (j + 1) = option_map (fill_label p) (nth_error row j)
   end) /\
  (ncols m = 0%nat ->
   shift_tokens_right m pad start
   = raise (IndexError "index 0 is out of bounds for dimension 1 with size 0")).
Proof.
  intros Hwf. split.
  - intros Hn. destruct pad as [p |].
    + eexists. split; [apply shift_tokens_right_rows; exact Hn |].
      simpl. split; [reflexivity |]. split; [unfold nrows; simpl; apply length_map |].
      split.
      * unfold wf_tensor in *. simpl. rewrite Forall_map.
        eapply Forall_impl; [| exact Hwf]. intros row Hrow. simpl.
        rewrite length_map.
        destruct row as [| x row]; [simpl in Hrow; lia |].
        rewrite removelast_firstn_len, length_firstn. simpl in *. lia.
      * intros i row Hi. eexists. split; [rewrite nth_error_map, Hi; reflexivity |].
        simpl. split; [reflexivity |]. split.
        -- intros Hs. unfold fill_label.
           destruct (start =? -100) eqn:E; [apply Z.eqb_eq in E; contradiction | reflexivity].
        -- intros j Hj. replace (j + 1)%nat with (S j) by lia. simpl.
           rewrite nth_error_map. f_equal. apply removelast_nth_error.
           unfold wf_tensor in Hwf. rewrite Forall_forall in Hwf.
           rewrite (Hwf row (nth_error_In _ _ Hi)). exact Hj.
    + unfold shift_tokens_right, assign_col0, assign_from_col1, new_zeros. simpl.
      destruct (ncols m); [lia | reflexivity].
  - intros Hz. unfold shift_tokens_right, assign_col0, assign_from_col1, new_zeros.
    simpl. rewrite Hz. reflexivity.
Qed.

Lemma shift_tokens_right_spec_witness :
  wf_tensor (Tensor2 3 [[5; -100; 7]; [8; 9; -100]]) /\
  shift_tokens_right (Tensor2 3 [[5; -100; 7]; [8; 9; -100]]) None 2
  = raise (ValueError "self.model.config.pad_token_id has to be defined.").
Proof.
  split.
  - repeat constructor.
  - refine (proj1 (shift_tokens_right_spec (Tensor2 3 [[5; -100; 7]; [8; 9; -100]])
                     None 2 _) _).
    + repeat constructor.
    + simpl. lia.
Defined.

Example shift_tokens_right_labels :
  shift_tokens_right (Tensor2 3 [[5; -100; 7]; [8; 9; -100]]) (Some 1) 2
  = ok (Tensor2 3 [[2; 5; 1]; [2; 8; 9]]).
Proof. reflexivity. Qed.

(** C10, as stated, fails twice: a start token of -100 does not survive in
    column 0 (the fill replaces it by the pad token), and a matrix without
    columns raises an IndexError, not the ValueError, when the pad token is
    None. *)
Lemma shift_tokens_right_claim_fails :
  shift_tokens_right (Tensor2 2 [[5; 6]]) (Some 1) (-100) = ok (Tensor2 2 [[1; 5]]) /\
  shift_tokens_right (Tensor2 0 [[]]) None 2
  = raise (IndexError "index 0 is out of bounds for dimension 1 with size 0").
Proof. split; reflexivity. Qed.

Lemma mapM_total {A B : Type} (f : A -> result B) (l : list A) :
  (forall x, In x l -> exists y, f x = ok y) -> exists r, mapM f l = ok r.
Proof.
  induction l as [| x l IH]; intros H; simpl.
  - eexists; reflexivity.
  - destruct (H x (or_introl eq_refl)) as [y Hy]. rewrite Hy. simpl.
    destruct IH as [ys Hys]; [intros z Hz; apply H; right; exact Hz |].
    rewrite Hys. simpl. eexists; reflexivity.
Qed.

(** ** [_reorder_cache] *)

Lemma index_select_in_range {slice : Type} (t : past_state slice) (idx : list Z) :
  (forall i, In i idx -> 0 <= i < Z.of_nat (List.length t)) ->
  exists t',
    index_select t idx = ok t' /\
    List.length t' = List.length idx /\
    forall i b, nth_error idx i = Some b -> nth_error t' i = nth_error t (Z.to_nat b).
Proof.
  intros Hr. unfold index_select.
  destruct (mapM_total
              (fun i => if i <? 0 then raise (IndexError "index out of range in self")
                        else match nth_error t (Z.to_nat i) with
                             | Some s => ok s
                             | None => raise (IndexError "index out of range in self")
                             end) idx) as [t' Ht'].
  - intros i Hi. specialize (Hr i Hi).
    destruct (i <? 0) eqn:E; [apply Z.ltb_lt in E; lia |].
    destruct (nth_error t (Z.to_nat i)) as [s |] eqn:En; [eexists; reflexivity |].
    apply nth_error_None in En. lia.
  - exists t'. split; [exact Ht' |]. split; [eapply mapM_length; exact Ht' |].
    intros i b Hb. destruct (mapM_nth _ _ _ Ht' i b Hb) as [y [Hy Hf]].
    rewrite Hy. destruct (b <? 0); [discriminate |].
    destruct (nth_error t (Z.to_nat b)); inversion Hf; reflexivity.
Qed.

(** C3: for an in-range [beam_idx], [_reorder_cache] returns a cache with
    the same layers in which, per layer, the first two states (the
    self-attention key and value) have at slot [i] the old slice of slot
    [beam_idx[i]], and every further state (the cross-attention ones) is
    the old state itself. *)
Theorem reorder_cache_spec {slice : Type} (past : cache slice) (beam_idx : list Z) :
  beam_idx_in_range past beam_idx ->
  exists past',
    _reorder_cache past beam_idx = ok past' /\
    List.length past' = List.length past /\
    forall l layer, nth_error past l = Some layer ->
      exists layer',
        nth_error past' l = Some layer' /\
        List.length layer' = List.length layer /\
        (forall k t, (k < 2)%nat -> nth_error layer k = Some t ->
           exists t',
             nth_error layer' k = Some t' /\
             List.length t' = List.length beam_idx /\
             forall i b, nth_error beam_idx i = Some b ->
               nth_error t' i = nth_error t (Z.to_nat b)) /\
        (forall k, (2 <= k)%nat -> nth_error layer' k = nth_error layer k).
Proof.
  intros Hr. unfold _reorder_cache.
  set (f := fun layer : layer_past slice =>
              (sel <- mapM (fun st => index_select st beam_idx) (firstn 2 layer) ;;
               ok (sel ++ skipn 2 layer))%res).
  assert (Hlayer : forall layer, In layer past ->
            exists sel, mapM (fun st => index_select st beam_idx) (firstn 2 layer) = ok sel).
  { intros layer Hin. apply mapM_total. intros t Ht.
    destruct (index_select_in_range t beam_idx) as [t' [Ht' _]].
    - intros i Hi. apply (Hr layer t i Hin Ht Hi).
    - exists t'. exact Ht'. }
  destruct (mapM_total f past) as [past' Hp].
  { intros layer Hin. destruct (Hlayer layer Hin) as [sel Hsel].
    unfold f. rewrite Hsel. simpl. eexists; reflexivity. }
  exists past'. split; [exact Hp |]. split; [eapply mapM_length; exact Hp |].
  intros l layer Hl.
  destruct (mapM_nth _ _ _ Hp l layer Hl) as [layer' [Hl' Hf]].
  exists layer'. split; [exact Hl' |].
  unfold f in Hf.
  destruct (mapM (fun st => index_select st beam_idx) (firstn 2 layer)) as [e | sel] eqn:Hsel;
    unfold rbind in Hf; [discriminate |].
  inversion Hf; subst layer'. clear Hf.
  pose proof (mapM_length _ _ _ Hsel) as Hlen.
  split.
  { rewrite length_app, Hlen, <- length_app, firstn_skipn. reflexivity. }
  split.
  - intros k t Hk Ht.
    assert (Hkt : nth_error (firstn 2 layer) k = Some t).
    { rewrite nth_error_firstn. destruct (Nat.ltb_spec k 2); [exact Ht | lia]. }
    destruct (mapM_nth _ _ _ Hsel k t Hkt) as [t' [Ht' Hidx]].
    exists t'. split.
    + rewrite nth_error_app1; [exact Ht' |]. apply nth_error_Some. rewrite Ht'. discriminate.
    + destruct (index_select_in_range t beam_idx) as [t2 [Ht2 [Hlen2 Hnth]]].
      * intros i Hi. apply (Hr layer t i (nth_error_In _ _ Hl) (nth_error_In _ _ Hkt) Hi).
      * rewrite Ht2 in Hidx. inversion Hidx; subst t2. split; assumption.
  - intros k Hk.
    destruct (Nat.le_gt_cases (List.length layer) k) as [Hge | Hlt].
    + rewrite (proj2 (nth_error_None layer k) Hge).
      apply nth_error_None. rewrite length_app, Hlen, <- length_app, firstn_skipn. exact Hge.
    + assert (Hf2 : List.length (firstn 2 layer) = 2%nat) by (rewrite length_firstn; lia).
      rewrite nth_error_app2 by lia. rewrite Hlen, Hf2.
      transitivity (nth_error layer (2 + (k - 2)));
        [exact (nth_error_skipn 2 layer (k - 2)) | f_equal; lia].
Qed.

(** Parent indices [2,0,0,1]: slot 0 of the reordered self-attention states
    is the old slot 2; the cross-attention states are untouched. *)
Example reorder_cache_2001 :
  _reorder_cache
    [[["k0"; "k1"; "k2"; "k3"]; ["v0"; "v1"; "v2"; "v3"]; ["ck"]; ["cv"]]]%string
    [2; 0; 0; 1]
  = ok [[["k2"; "k0"; "k0"; "k1"]; ["v2"; "v0"; "v0"; "v1"]; ["ck"]; ["cv"]]]%string.
Proof. reflexivity. Qed.

Lemma reorder_cache_spec_witness :
  beam_idx_in_range
    [[["k0"; "k1"; "k2"; "k3"]; ["v0"; "v1"; "v2"; "v3"]; ["ck"]; ["cv"]]]%string
    [2; 0; 0; 1] /\
  exists past',
    _reorder_cache
      [[["k0"; "k1"; "k2"; "k3"]; ["v0"; "v1"; "v2"; "v3"]; ["ck"]; ["cv"]]]%string
      [2; 0; 0; 1] = ok past' /\
    List.length past' = 1%nat.
Proof.
  assert (H : beam_idx_in_range
    [[["k0"; "k1"; "k2"; "k3"]; ["v0"; "v1"; "v2"; "v3"]; ["ck"]; ["cv"]]]%string
    [2; 0; 0; 1]).
  { intros layer t i [Hl | []] Ht Hi. subst layer. simpl in Ht, Hi.
    destruct Ht as [Ht | [Ht | []]]; subst t; simpl;
      destruct Hi as [Hi | [Hi | [Hi | [Hi | []]]]]; subst i; lia. }
  split; [exact H |].
  destruct (reorder_cache_spec _ _ H) as [past' [Hp [Hlen _]]].
  exists past'. split; [exact Hp | exact Hlen].
Defined.

(** ** [_get_logits_processor]: the registration order *)

Lemma registered_below_nil (n : nat) : registered_below n [].
Proof. split; constructor. Qed.

Lemma registered_below_weaken (n m : nat) (l : list processor) :
  registered_below n l -> (n <= m)%nat -> registered_below m l.
Proof.
  intros [Hs Hf] Hnm. split; [exact Hs |].
  eapply Forall_impl; [| exact Hf]. simpl. intros p Hp. lia.
Qed.

Lemma registered_below_snoc (n : nat) (l : list processor) (p : processor) :
  registered_below n l -> rank_of p = n -> registered_below (S n) (l ++ [p]).
Proof.
  intros [Hs Hf] Hp. split.
  - clear -Hs Hf Hp. induction l as [| q l IH]; simpl.
    + repeat constructor.
    + inversion Hs; subst. inversion Hf; subst. constructor.
      * apply IH; assumption.
      * apply Forall_app. split; [assumption |].
        constructor; [lia | constructor].
  - apply Forall_app. split.
    + eapply Forall_impl; [| exact Hf]. simpl. intros q Hq. lia.
    + constructor; [lia | constructor].
Qed.

Lemma chain_inv_nil (rem : option bool) (n : nat) : chain_inv rem n [].
Proof. split; [apply registered_below_nil | intros []]. Qed.

Lemma chain_inv_weaken (rem : option bool) (n m : nat) (l : list processor) :
  chain_inv rem n l -> (n <= m)%nat -> chain_inv rem m l.
Proof.
  intros [Hr Hi] Hnm. split; [eapply registered_below_weaken; eassumption | exact Hi].
Qed.

Lemma chain_inv_snoc (rem : option bool) (n : nat) (l : list processor) (p : processor) :
  chain_inv rem n l -> rank_of p = n ->
  (p = InfNanRemoveLogitsProcessor -> rem = Some true) ->
  chain_inv rem (S n) (l ++ [p]).
Proof.
  intros [Hr Hi] Hp Hrem. split; [apply registered_below_snoc; assumption |].
  intros Hin. apply in_app_or in Hin. destruct Hin as [Hin | [Hin | []]].
  - apply Hi. exact Hin.
  - apply Hrem. exact Hin.
Qed.

(** Name the value bound by the outermost [let] of [H]. *)
Ltac name_let H v :=
  lazymatch type of H with
  | (let x := ?e in @?b x) = ?r => pose (v := e); change (b v = r) in H; cbv beta in H
  end.

(** Name the value an outermost bind of [H] passes on; the bound
    computation is kept as the equation [E]. *)
Ltac name_bind H v E :=
  lazymatch type of H with
  | rbind ?c ?k = ?r =>
      destruct c as [? | v] eqn:E; [discriminate H |]; change (k v = r) in H; cbv beta in H
  end.

Ltac split_goal_matches :=
  repeat match goal with
         | |- context [match ?x with _ => _ end] => destruct x
         end.

Ltac split_matches_in E :=
  repeat (try discriminate E;
          lazymatch type of E with
          | context [match ?x with _ => _ end] => destruct x
          end).

Ltac registered_step n :=
  first [ apply (chain_inv_snoc _ n);
          [assumption | reflexivity
           | let Hp := fresh in intros Hp; first [discriminate Hp | reflexivity]]
        | apply (chain_inv_weaken _ n); [assumption | lia] ].

(** The step is a [let]: the new list is the body of [v]. *)
Ltac close_registered v n :=
  subst v; unfold append_if; split_goal_matches; registered_step n.

(** The step is a bind: the new list is what [E] says was returned. *)
Ltac close_registered_from E n :=
  split_matches_in E; try discriminate E;
  inversion E; subst; registered_step n.

Lemma default_chain_registered (config : Config.t) (a : LP.args)
    (chain : list processor) :
  _get_logits_processor config a = ok chain ->
  exists defaults custom,
    LP.logits_processor a = Some custom /\
    chain_inv (or_config (LP.remove_invalid_values a)
                         (Config.remove_invalid_values config)) 14 defaults /\
    chain = defaults ++ custom ++
            match LP.renormalize_logits a with
            | Some true => [LogitNormalization]
            | _ => []
            end.
Proof.
  intros H. cbv delta [_get_logits_processor] in H. cbv beta in H.
  name_let H p0.
  name_let H repetition_penalty. clearbody repetition_penalty.
  name_let H no_repeat_ngram_size. clearbody no_repeat_ngram_size.
  name_let H encoder_no_repeat_ngram_size. clearbody encoder_no_repeat_ngram_size.
  name_let H bad_words_ids. clearbody bad_words_ids.
  name_let H eos_token_id. clearbody eos_token_id.
  name_let H diversity_penalty. clearbody diversity_penalty.
  name_let H forced_bos_token_id. clearbody forced_bos_token_id.
  name_let H forced_eos_token_id. clearbody forced_eos_token_id.
  name_let H remove_invalid_values.
  assert (Er : remove_invalid_values
               = or_config (LP.remove_invalid_values a)
                           (Config.remove_invalid_values config)) by reflexivity.
  clearbody remove_invalid_values.
  name_let H exponential_decay_length_penalty. clearbody exponential_decay_length_penalty.
  name_let H suppress_tokens. clearbody suppress_tokens.
  name_let H begin_suppress_tokens. clearbody begin_suppress_tokens.
  name_let H forced_decoder_ids. clearbody forced_decoder_ids.
  assert (I0 : chain_inv remove_invalid_values 0 p0).
  { clear H. subst p0. apply chain_inv_nil. }
  name_let H p1.
  assert (I1 : chain_inv remove_invalid_values 1 p1) by (clear H; close_registered p1 0%nat).
  clearbody p1. clear I0 p0.
  name_let H p2.
  assert (I2 : chain_inv remove_invalid_values 2 p2) by (clear H; close_registered p2 1%nat).
  clearbody p2. clear I1 p1.
  name_let H p3.
  assert (I3 : chain_inv remove_invalid_values 3 p3) by (clear H; close_registered p3 2%nat).
  clearbody p3. clear I2 p2.
  name_bind H p4 E4.
  assert (I4 : chain_inv remove_invalid_values 4 p4) by (clear H; close_registered_from E4 3%nat).
  clear E4 I3 p3.
  name_let H p5.
  assert (I5 : chain_inv remove_invalid_values 5 p5) by (clear H; close_registered p5 4%nat).
  clearbody p5. clear I4 p4.
  name_let H p6.
  assert (I6 : chain_inv remove_invalid_values 6 p6) by (clear H; close_registered p6 5%nat).
  clearbody p6. clear I5 p5.
  name_bind H p7 E7.
  assert (I7 : chain_inv remove_invalid_values 7 p7) by (clear H; close_registered_from E7 6%nat).
  clear E7 I6 p6.
  name_let H p8.
  assert (I8 : chain_inv remove_invalid_values 8 p8) by (clear H; close_registered p8 7%nat).
  clearbody p8. clear I7 p7.
  name_let H p9.
  assert (I9 : chain_inv remove_invalid_values 9 p9) by (clear H; close_registered p9 8%nat).
  clearbody p9. clear I8 p8.
  name_let H p10.
  assert (I10 : chain_inv remove_invalid_values 10 p10) by (clear H; close_registered p10 9%nat).
  clearbody p10. clear I9 p9.
  name_let H p11.
  assert (I11 : chain_inv remove_invalid_values 11 p11) by (clear H; close_registered p11 10%nat).
  clearbody p11. clear I10 p10.
  name_let H p12.
  assert (I12 : chain_inv remove_invalid_values 12 p12) by (clear H; close_registered p12 11%nat).
  clearbody p12. clear I11 p11.
  name_bind H p13 E13.
  assert (I13 : chain_inv remove_invalid_values 13 p13).
  { destruct begin_suppress_tokens as [b |].
    - destruct forced_decoder_ids as [f |].
      + destruct (last_forced_index f) as [e | i]; simpl in E13; [discriminate |].
        inversion E13; subst p13. apply (chain_inv_snoc _ 12); [assumption | reflexivity | discriminate].
      + simpl in E13. inversion E13; subst p13.
        apply (chain_inv_snoc _ 12); [assumption | reflexivity | discriminate].
    - inversion E13; subst p13. apply (chain_inv_weaken _ 12); [assumption | lia]. }
  clear E13 I12 p12.
  name_let H p14.
  assert (I14 : chain_inv remove_invalid_values 14 p14) by (clear H; close_registered p14 13%nat).
  clearbody p14. clear I13 p13.
  name_bind H merged Em.
  unfold _merge_criteria_processor_list in Em.
  destruct (LP.logits_processor a) as [custom |]; [| discriminate Em].
  exists p14, custom. split; [reflexivity |]. split; [rewrite <- Er; exact I14 |].
  assert (Hm : merged = p14 ++ custom).
  { destruct custom as [| c custom'].
    - simpl in Em. inversion Em. rewrite app_nil_r. reflexivity.
    - simpl in Em.
      destruct (existsb _ p14); [discriminate Em | inversion Em; reflexivity]. }
  subst merged.
  destruct (LP.renormalize_logits a) as [[|] |]; inversion H; subst chain.
  - rewrite app_assoc. reflexivity.
  - rewrite app_nil_r. reflexivity.
  - rewrite app_nil_r. reflexivity.
Qed.

Lemma StronglySorted_nth_error {A : Type} (R : A -> A -> Prop) (l : list A) :
  StronglySorted R l ->
  forall i j x y, (i < j)%nat -> nth_error l i = Some x -> nth_error l j = Some y -> R x y.
Proof.
  induction 1 as [| a l Hs IH Hf]; intros i j x y Hij Hi Hj.
  - destruct i; discriminate.
  - destruct j as [| j]; [lia |]. simpl in Hj. destruct i as [| i]; simpl in Hi.
    + inversion Hi; subst. rewrite Forall_forall in Hf. apply Hf.
      eapply nth_error_In; exact Hj.
    + apply (IH i j); [lia | assumption | assumption].
Qed.

(** C5: whenever [_get_logits_processor] returns a chain, the chain is the
    rules it activated itself, then the caller's rules, then
    [LogitNormalization] if renormalisation is on; the activated rules
    stand in the registration order (diversity, repetition penalty,
    no-repeat-n-gram, encoder-no-repeat-n-gram, bad-words, min-length,
    prefix-constrained, forced-BOS, forced-EOS, remove-invalid-values,
    exponential-decay, suppress-tokens, begin-suppress-tokens,
    forced-token-ids), each class at most once. *)
Theorem logits_processor_registration_order (config : Config.t) (a : LP.args)
    (chain : list processor) :
  _get_logits_processor config a = ok chain ->
  exists defaults custom,
    LP.logits_processor a = Some custom /\
    chain = defaults ++ custom ++
            match LP.renormalize_logits a with
            | Some true => [LogitNormalization]
            | _ => []
            end /\
    Forall (fun p => (rank_of p <= 13)%nat) defaults /\
    (forall i j p q, (i < j)%nat ->
       nth_error defaults i = Some p -> nth_error defaults j = Some q ->
       (rank_of p < rank_of q)%nat) /\
    (LP.renormalize_logits a = Some true ->
     exists front, chain = front ++ [LogitNormalization]).
Proof.
  intros H.
  destruct (default_chain_registered config a chain H)
    as [defaults [custom [Hc [[[Hs Hf] _] Hchain]]]].
  exists defaults, custom. split; [exact Hc |]. split; [exact Hchain |]. split.
  - eapply Forall_impl; [| exact Hf]. simpl. intros p Hp. lia.
  - split.
    + apply StronglySorted_nth_error. exact Hs.
    + intros Hr. rewrite Hr in Hchain. exists (defaults ++ custom).
      rewrite Hchain, app_assoc. reflexivity.
Qed.

Example busy_chain :
  _get_logits_processor Fixture.plain_config Fixture.busy_args
  = ok [RepetitionPenaltyLogitsProcessor (12 # 10); NoRepeatNGramLogitsProcessor 3;
        MinLengthLogitsProcessor 5 2; ForcedEOSTokenLogitsProcessor 20 2;
        SuppressTokensLogitsProcessor [4; 5]; CustomLogitsProcessor 7;
        LogitNormalization].
Proof. reflexivity. Qed.

Lemma logits_processor_registration_order_witness :
  _get_logits_processor Fixture.plain_config Fixture.busy_args
  = ok [RepetitionPenaltyLogitsProcessor (12 # 10); NoRepeatNGramLogitsProcessor 3;
        MinLengthLogitsProcessor 5 2; ForcedEOSTokenLogitsProcessor 20 2;
        SuppressTokensLogitsProcessor [4; 5]; CustomLogitsProcessor 7;
        LogitNormalization] /\
  exists defaults custom,
    LP.logits_processor Fixture.busy_args = Some custom /\
    [RepetitionPenaltyLogitsProcessor (12 # 10); NoRepeatNGramLogitsProcessor 3;
     MinLengthLogitsProcessor 5 2; ForcedEOSTokenLogitsProcessor 20 2;
     SuppressTokensLogitsProcessor [4; 5]; CustomLogitsProcessor 7;
     LogitNormalization]
    = defaults ++ custom ++ [LogitNormalization].
Proof.
  split; [reflexivity |].
  destruct (logits_processor_registration_order Fixture.plain_config Fixture.busy_args
              _ eq_refl) as [defaults [custom [Hc [Hchain _]]]].
  exists defaults, custom. split; [exact Hc | exact Hchain].
Defined.

(** ** The monad [M]: how errors and values pass through a bind *)

Lemma fails_bind_l {A B : Type} (c : M A) (k : A -> M B) : fails c -> fails (bind c k).
Proof. intros [w [e H]]. subst c. exists w, e. reflexivity. Qed.

Lemma fails_bind_r {A B : Type} (c : M A) (k : A -> M B) :
  (forall v, fails (k v)) -> fails (bind c k).
Proof.
  intros H. destruct c as [w [e | v]].
  - exists w, e. reflexivity.
  - destruct (H v) as [w' [e Hk]]. exists (w ++ w'), e. simpl. rewrite Hk. reflexivity.
Qed.

Lemma fails_with_bind_l {A B : Type} (e : exn) (c : M A) (k : A -> M B) :
  fails_with e c -> fails_with e (bind c k).
Proof. intros [w H]. subst c. exists w. reflexivity. Qed.

Lemma fails_with_bind_ok {A B : Type} (e : exn) (c : M A) (k : A -> M B) :
  (exists w v, c = (w, ok v) /\ fails_with e (k v)) -> fails_with e (bind c k).
Proof.
  intros [w [v [Hc [w' Hk]]]]. subst c. exists (w ++ w'). simpl. rewrite Hk. reflexivity.
Qed.

Lemma fails_with_bind_total {A B : Type} (e : exn) (c : M A) (k : A -> M B) :
  (exists w v, c = (w, ok v)) -> (forall v, fails_with e (k v)) -> fails_with e (bind c k).
Proof.
  intros [w [v Hc]] Hk. apply fails_with_bind_ok. exists w, v. split; [exact Hc | apply Hk].
Qed.

Lemma bind_ok_inv {A B : Type} (c : M A) (k : A -> M B) (w : list warning) (b : B) :
  bind c k = (w, ok b) ->
  exists w1 v w2, c = (w1, ok v) /\ k v = (w2, ok b) /\ w = w1 ++ w2.
Proof.
  destruct c as [w1 [e | v]]; simpl; intros H.
  - inversion H.
  - destruct (k v) as [w2 r] eqn:Hk. inversion H; subst.
    exists w1, v, w2. split; [reflexivity | split; [exact Hk | reflexivity]].
Qed.

(** Split the outermost bind of a successful computation [H]. *)
Ltac bind_inv H v Hc :=
  let w1 := fresh "w" in
  let w2 := fresh "w" in
  let Hw := fresh "Hw" in
  let Hk := fresh "Hk" in
  apply bind_ok_inv in H;
  destruct H as [w1 [v [w2 [Hc [Hk Hw]]]]];
  cbv beta in Hk; rename Hk into H.

(** ** [_get_stopping_criteria] and the length arguments of [generate] *)

Lemma get_stopping_criteria_max_length (n : Z) (max_time : option Q)
    (custom : option (list criterion)) (l : list criterion) :
  _get_stopping_criteria (Some n) max_time custom = ok l ->
  criteria_max_length l = Some n.
Proof.
  unfold _get_stopping_criteria, _merge_criteria_processor_list.
  destruct custom as [c |]; [| discriminate].
  destruct c as [| x c]; simpl.
  - intros H. inversion H. destruct max_time; reflexivity.
  - destruct (existsb _ _); [discriminate |].
    intros H. inversion H. destruct max_time; reflexivity.
Qed.

Lemma resolve_max_length_both (config : Config.t) (ml mn len : Z) :
  resolve_max_length config (Some ml) (Some mn) len = ([], raise both_lengths_error).
Proof. reflexivity. Qed.

Lemma resolve_max_length_new_tokens (config : Config.t) (mn len : Z) :
  resolve_max_length config None (Some mn) len = ([], ok (mn + len)).
Proof. reflexivity. Qed.

(** What [generate_setup] hands on when it returns: the criteria list has a
    max-length criterion, whose bound is the resolved [max_length]. *)
Lemma generate_setup_criteria {Sc : Type} (new_scorer : nat -> Z -> Q -> bool -> Z -> result Sc)
    (self : model) (a : G.args) (w : list warning) (call : beam_search_call Sc) :
  generate_setup new_scorer self a = (w, ok call) ->
  exists criteria wl n,
    resolve_max_length (config self) (G.max_length a) (G.max_new_tokens a) 1 = (wl, ok n) /\
    BS.stopping_criteria (call_args call) = Some criteria /\
    criteria_max_length criteria = Some n /\
    BS.max_length (call_args call) = None.
Proof.
  unfold generate_setup. intros H.
  bind_inv H pad Hpad.
  bind_inv H u1 Himg.
  bind_inv H start Hstart.
  bind_inv H n Hres.
  bind_inv H u2 Hmin.
  bind_inv H u3 Hwarn.
  bind_inv H u4 Hgroups.
  bind_inv H chain Hchain.
  bind_inv H criteria Hcrit.
  bind_inv H u5 Hret.
  bind_inv H u6 Hmax.
  bind_inv H scorer Hsc.
  bind_inv H expand Hexp.
  bind_inv H u7 Hkw.
  inversion H; subst call. simpl.
  exists criteria. eexists. exists n.
  split; [exact Hres |]. split; [reflexivity |]. split; [| reflexivity].
  unfold lift in Hcrit. inversion Hcrit as [[Hw' Hc']].
  apply (get_stopping_criteria_max_length _ _ _ _ Hc').
Qed.


Example generate_both_lengths :
  generate_setup Fixture.new_scorer Fixture.self
    (Fixture.generate_args (Some 10) (Some 4))
  = ([], raise both_lengths_error).
Proof. reflexivity. Qed.

Example generate_new_tokens_only :
  option_map (fun c => option_map criteria_max_length (BS.stopping_criteria (call_args c)))
    (match snd (generate_setup Fixture.new_scorer Fixture.self
                  (Fixture.generate_args None (Some 4))) with
     | inr c => Some c
     | inl _ => None
     end)
  = Some (Some (Some 5)).
Proof. reflexivity. Qed.


(** ** [beam_search] without stopping criteria *)

(** C7, as the code has it: without any stopping criterion [beam_search]
    raises nothing; it emits a warning and enters the loop with an empty
    criteria list.  [generate] itself never calls the loop without a
    max-length criterion: when it returns from its configuration phase the
    criteria list it passes on has one (and is therefore not empty). *)
Theorem beam_search_without_criteria {Sc : Type} {scorer_class : BeamScorer Sc}
    {slice : Type} (config : Config.t) (beam_scorer : Sc)
    (past : option (cache slice)) (a : BS.args) :
  (or_default (BS.stopping_criteria a) [] = [] ->
   BS.max_length a = None ->
   (scorer_num_beams beam_scorer * scorer_batch_size beam_scorer)%nat
   = nrows (BS.input_ids a) ->
   or_default (BS.return_dict_in_generate a) (Config.return_dict_in_generate config)
   = false ->
   exists le st,
     beam_search_init config beam_scorer past a = ([no_criteria_warning], ok (le, st)) /\
     le_stopping_criteria le = [] /\
     st_input_ids st = BS.input_ids a /\
     st_iteration st = 0%nat) /\
  (forall (new_scorer : nat -> Z -> Q -> bool -> Z -> result Sc) self ga w call,
     generate_setup new_scorer self ga = (w, ok call) ->
     exists criteria n,
       BS.stopping_criteria (call_args call) = Some criteria /\
       criteria_max_length criteria = Some n /\
       criteria <> []).
Proof.
  split.
  - intros Hc Hm Hshape Hrd.
    unfold beam_search_init. rewrite Hm, Hc, Hrd. simpl.
    rewrite Hshape, Nat.eqb_refl. simpl.
    eexists. eexists. split; [reflexivity |]. simpl. repeat split.
  - intros new_scorer self ga w call H.
    destruct (generate_setup_criteria _ _ _ _ _ H) as [criteria [wl [n [_ [Hc [Hmax _]]]]]].
    exists criteria, n. split; [exact Hc |]. split; [exact Hmax |].
    intros He. subst criteria. discriminate Hmax.
Qed.

Lemma beam_search_without_criteria_witness :
  (or_default (BS.stopping_criteria (Fixture.search_args None false)) [] = [] /\
   BS.max_length (Fixture.search_args None false) = None) /\
  exists le st,
    beam_search_init (slice := unit) Fixture.plain_config Fixture.scorer2 None
      (Fixture.search_args None false)
    = ([no_criteria_warning], ok (le, st)) /\
    le_stopping_criteria le = [].
Proof.
  split; [split; reflexivity |].
  destruct (proj1 (beam_search_without_criteria (slice := unit) Fixture.plain_config
                     Fixture.scorer2 None (Fixture.search_args None false)))
    as [le [st [H [Hc _]]]]; [reflexivity | reflexivity | reflexivity | reflexivity |].
  exists le, st. split; [exact H | exact Hc].
Defined.

(** C7, as stated, fails: [beam_search] called without any stopping
    criterion raises no exception; it warns, and after five iterations the
    loop is still running. *)
Lemma beam_search_without_criteria_not_fatal :
  beam_search (slice := unit) topk
    (Fixture.constant_env [Fin (-1); Fin (-2); Fin (-3)] 0) Fixture.plain_config 5
    Fixture.scorer2 None (Fixture.search_args None false)
  = ([no_criteria_warning], ok None).
Proof. vm_compute. reflexivity. Qed.

(** ** The selection order *)

Lemma score_key_inj (a b : score) : score_key a = score_key b -> a = b.
Proof. destruct a, b; simpl; intros H; inversion H; reflexivity. Qed.

Lemma score_eqb_eq (a b : score) : score_eqb a b = true <-> a = b.
Proof.
  split.
  - intros H. apply score_key_inj. unfold score_eqb in H.
    destruct (score_key a) as [ca xa], (score_key b) as [cb xb].
    apply andb_true_iff in H. destruct H as [H1 H2].
    apply Z.eqb_eq in H1. apply Z.eqb_eq in H2. subst. reflexivity.
  - intros H. subst b. unfold score_eqb. destruct (score_key a) as [ca xa].
    rewrite !Z.eqb_refl. reflexivity.
Qed.

(** [beats] read on the keys: lexicographic on class, value and position. *)
Lemma beats_iff (a b : entry) :
  beats a b = true <->
  (fst (score_key (fst b)) < fst (score_key (fst a))) \/
  (fst (score_key (fst b)) = fst (score_key (fst a)) /\
   snd (score_key (fst b)) < snd (score_key (fst a))) \/
  (score_key (fst a) = score_key (fst b) /\ (snd a < snd b)%nat).
Proof.
  unfold beats, score_ltb, score_eqb.
  destruct (score_key (fst a)) as [ca xa], (score_key (fst b)) as [cb xb]. simpl.
  rewrite orb_true_iff, orb_true_iff, !andb_true_iff, !Z.ltb_lt, !Z.eqb_eq, Nat.ltb_lt.
  split.
  - intros [[H | [H1 H2]] | [[H1 H2] H3]]; [left | right; left | right; right]; auto.
    split; [congruence | assumption].
  - intros [H | [[H1 H2] | [H1 H2]]]; [left; left | left; right | right]; auto.
    inversion H1; subst. auto.
Qed.

Lemma beats_irrefl (a : entry) : beats a a = false.
Proof.
  destruct (beats a a) eqn:E; [| reflexivity].
  apply beats_iff in E. lia.
Qed.

Lemma beats_asym (a b : entry) : beats a b = true -> beats b a = false.
Proof.
  intros H. destruct (beats b a) eqn:E; [| reflexivity].
  apply beats_iff in H. apply beats_iff in E.
  destruct H as [H | [[H1 H2] | [H1 H2]]], E as [E | [[E1 E2] | [E1 E2]]];
    try lia; try (rewrite ?H1, ?E1 in *; lia).
Qed.

Lemma beats_trans (a b c : entry) :
  beats a b = true -> beats b c = true -> beats a c = true.
Proof.
  rewrite !beats_iff.
  destruct (score_key (fst a)) as [ca xa], (score_key (fst b)) as [cb xb],
           (score_key (fst c)) as [cc xc]. simpl.
  intros [H | [[H1 H2] | [H1 H2]]] [E | [[E1 E2] | [E1 E2]]];
    try (inversion H1; subst); try (inversion E1; subst);
    first [ left; lia | right; left; split; lia | right; right; split; [reflexivity | lia] ].
Qed.

Lemma beats_total (a b : entry) : a <> b -> beats a b = true \/ beats b a = true.
Proof.
  intros Hne. rewrite !beats_iff.
  destruct a as [sa ia], b as [sb ib]. simpl.
  destruct (score_key sa) as [ca xa] eqn:Ea, (score_key sb) as [cb xb] eqn:Eb. simpl.
  destruct (Z.lt_total ca cb) as [H | [H | H]]; [right; left; exact H | | left; left; exact H].
  subst cb.
  destruct (Z.lt_total xa xb) as [H | [H | H]];
    [right; right; left; split; [reflexivity | exact H] |
     | left; right; left; split; [reflexivity | exact H]].
  subst xb.
  assert (sa = sb) by (apply score_key_inj; congruence). subst sb.
  destruct (Nat.lt_total ia ib) as [H | [H | H]].
  - left. right. right. split; [reflexivity | exact H].
  - subst ib. contradiction Hne. reflexivity.
  - right. right. right. split; [reflexivity | exact H].
Qed.

(** ** Sorting by the selection order *)

Lemma In_insert_desc (x y : entry) (l : list entry) :
  In y (insert_desc x l) <-> y = x \/ In y l.
Proof.
  induction l as [| z l IH]; simpl.
  - split; intros [H | H]; auto.
  - destruct (beats x z); simpl.
    + split; intros [H | H]; auto.
    + rewrite IH. split; intros H; intuition auto.
Qed.

Lemma length_insert_desc (x : entry) (l : list entry) :
  List.length (insert_desc x l) = S (List.length l).
Proof.
  induction l as [| z l IH]; simpl; [reflexivity |].
  destruct (beats x z); simpl; [reflexivity | rewrite IH; reflexivity].
Qed.

Lemma insert_desc_sorted (x : entry) (l : list entry) :
  StronglySorted before l -> ~ In x l -> StronglySorted before (insert_desc x l).
Proof.
  induction 1 as [| z l Hs IH Hf]; intros Hnot; simpl.
  - repeat constructor.
  - destruct (beats x z) eqn:E.
    + constructor; [constructor; assumption |].
      constructor; [exact E |].
      eapply Forall_impl; [| exact Hf]. unfold before. intros y Hy.
      eapply beats_trans; eassumption.
    + assert (Hzx : beats z x = true).
      { destruct (beats_total z x) as [H | H]; [| exact H | congruence].
        intros He. apply Hnot. left. exact He. }
      constructor.
      * apply IH. intros Hin. apply Hnot. right. exact Hin.
      * rewrite Forall_forall. intros y Hy. apply In_insert_desc in Hy.
        destruct Hy as [Hy | Hy]; [subst y; exact Hzx |].
        rewrite Forall_forall in Hf. apply Hf. exact Hy.
Qed.

Lemma In_sort_desc (y : entry) (l : list entry) : In y (sort_desc l) <-> In y l.
Proof.
  induction l as [| x l IH]; simpl; [reflexivity |].
  rewrite In_insert_desc, IH. split; intros [H | H]; auto.
Qed.

Lemma length_sort_desc (l : list entry) : List.length (sort_desc l) = List.length l.
Proof.
  induction l as [| x l IH]; simpl; [reflexivity |].
  rewrite length_insert_desc, IH. reflexivity.
Qed.

Lemma sort_desc_sorted (l : list entry) : NoDup l -> StronglySorted before (sort_desc l).
Proof.
  induction 1 as [| x l Hnot Hnd IH]; simpl.
  - constructor.
  - apply insert_desc_sorted; [exact IH |].
    rewrite In_sort_desc. exact Hnot.
Qed.

Lemma In_indexed_from (i : nat) (v : list score) (s : score) (j : nat) :
  In (s, j) (indexed_from i v) <-> (i <= j)%nat /\ nth_error v (j - i) = Some s.
Proof.
  revert i. induction v as [| x v IH]; intros i; simpl.
  - split; [intros [] | intros [_ H]; destruct (j - i)%nat; discriminate].
  - rewrite IH. split.
    + intros [H | [Hle Hn]].
      * inversion H; subst. rewrite Nat.sub_diag. split; [lia | reflexivity].
      * split; [lia |]. replace (j - i)%nat with (S (j - S i)) by lia. exact Hn.
    + intros [Hle Hn]. destruct (Nat.eq_dec i j) as [He | He].
      * subst j. rewrite Nat.sub_diag in Hn. inversion Hn. left. reflexivity.
      * right. split; [lia |].
        replace (j - i)%nat with (S (j - S i)) in Hn by lia. exact Hn.
Qed.

Lemma NoDup_indexed_from (i : nat) (v : list score) : NoDup (indexed_from i v).
Proof.
  revert i. induction v as [| x v IH]; intros i; simpl; constructor.
  - rewrite In_indexed_from. lia.
  - apply IH.
Qed.

Lemma length_indexed_from (i : nat) (v : list score) :
  List.length (indexed_from i v) = List.length v.
Proof.
  revert i. induction v as [| x v IH]; intros i; simpl; [reflexivity | rewrite IH; reflexivity].
Qed.

Lemma firstn_In {A : Type} (k : nat) (l : list A) (x : A) :
  In x (firstn k l) -> In x l.
Proof.
  intros H. rewrite <- (firstn_skipn k l). apply in_or_app. left. exact H.
Qed.

Lemma StronglySorted_firstn {A : Type} (R : A -> A -> Prop) (k : nat) (l : list A) :
  StronglySorted R l -> StronglySorted R (firstn k l).
Proof.
  intros Hs. revert k. induction Hs as [| x l Hs IH Hf]; intros k; destruct k; simpl;
    try constructor.
  - apply IH.
  - rewrite Forall_forall in *. intros y Hy. apply Hf. eapply firstn_In; eassumption.
Qed.

Lemma StronglySorted_app_cross {A : Type} (R : A -> A -> Prop) (l1 l2 : list A) :
  StronglySorted R (l1 ++ l2) -> forall a b, In a l1 -> In b l2 -> R a b.
Proof.
  induction l1 as [| x l1 IH]; simpl; intros Hs a b Ha Hb; [destruct Ha |].
  inversion Hs as [| ? ? Hs' Hf]; subst.
  destruct Ha as [Ha | Ha].
  - subst a. rewrite Forall_forall in Hf. apply Hf. apply in_or_app. right. exact Hb.
  - apply IH; assumption.
Qed.

Lemma StronglySorted_NoDup (l : list entry) : StronglySorted before l -> NoDup l.
Proof.
  induction 1 as [| x l Hs IH Hf]; constructor; [| exact IH].
  intros Hin. rewrite Forall_forall in Hf. specialize (Hf x Hin). unfold before in Hf.
  rewrite beats_irrefl in Hf. discriminate.
Qed.

Lemma sorted_same_elements (l1 l2 : list entry) :
  StronglySorted before l1 -> StronglySorted before l2 ->
  (forall x, In x l1 <-> In x l2) -> l1 = l2.
Proof.
  intros H1. revert l2. induction H1 as [| a l1 Hs1 IH Hf1]; intros l2 H2 Hsame.
  - destruct l2 as [| b l2]; [reflexivity |].
    exfalso. apply (proj2 (Hsame b)). left. reflexivity.
  - destruct H2 as [| b l2 Hs2 Hf2].
    + exfalso. apply (proj1 (Hsame a)). left. reflexivity.
    + rewrite Forall_forall in Hf1, Hf2.
      assert (Hab : a = b).
      { destruct (proj1 (Hsame a) (or_introl eq_refl)) as [Ha | Ha]; [symmetry; exact Ha |].
        destruct (proj2 (Hsame b) (or_introl eq_refl)) as [Hb | Hb]; [exact Hb |].
        pose proof (Hf2 a Ha) as Hba. pose proof (Hf1 b Hb) as Hab. unfold before in *.
        apply beats_asym in Hab. congruence. }
      subst b. f_equal. apply IH; [exact Hs2 |].
      intros x. split; intros Hx.
      * destruct (proj1 (Hsame x) (or_intror Hx)) as [He | Hin]; [| exact Hin].
        subst x. specialize (Hf1 a Hx). unfold before in Hf1. rewrite beats_irrefl in Hf1. discriminate.
      * destruct (proj2 (Hsame x) (or_intror Hx)) as [He | Hin]; [| exact Hin].
        subst x. specialize (Hf2 a Hx). unfold before in Hf2. rewrite beats_irrefl in Hf2. discriminate.
Qed.

(** ** The selection under the index rule, and its uniqueness *)

Lemma sorted_prefix_is_topk (k : nat) (v : list score) (sorted : list entry) :
  StronglySorted before sorted ->
  (forall s j, In (s, j) sorted <-> nth_error v j = Some s) ->
  List.length sorted = List.length v ->
  (k <= List.length v)%nat ->
  is_topk k v (firstn k sorted).
Proof.
  intros Hsorted Hin Hlen Hk. split; [| split; [| split]].
  - rewrite length_firstn. lia.
  - intros [s j] He. simpl. apply Hin. eapply firstn_In. exact He.
  - apply StronglySorted_firstn. exact Hsorted.
  - intros j s Hj Hnot e He.
    apply (StronglySorted_app_cross before (firstn k sorted) (skipn k sorted)).
    + rewrite firstn_skipn. exact Hsorted.
    + exact He.
    + assert (Hs : In (s, j) sorted) by (apply Hin; exact Hj).
      rewrite <- (firstn_skipn k sorted) in Hs. apply in_app_or in Hs.
      destruct Hs as [Hs | Hs]; [contradiction | exact Hs].
Qed.

Lemma In_indexed_from_0 (v : list score) (s : score) (j : nat) :
  In (s, j) (indexed_from 0 v) <-> nth_error v j = Some s.
Proof.
  rewrite In_indexed_from, Nat.sub_0_r.
  split; [intros [_ H]; exact H | intros H; split; [lia | exact H]].
Qed.

Lemma topk_is_topk (k : nat) (v : list score) :
  (k <= List.length v)%nat ->
  exists sel, topk k v = ok sel /\ is_topk k v sel.
Proof.
  intros Hk. unfold topk.
  destruct (Nat.ltb_spec (List.length v) k) as [Hlt | _]; [lia |].
  eexists. split; [reflexivity |].
  apply sorted_prefix_is_topk.
  - apply sort_desc_sorted, NoDup_indexed_from.
  - intros s j. rewrite In_sort_desc. apply In_indexed_from_0.
  - rewrite length_sort_desc. apply length_indexed_from.
  - exact Hk.
Qed.

Lemma is_topk_unique (k : nat) (v : list score) (sel1 sel2 : list entry) :
  is_topk k v sel1 -> is_topk k v sel2 -> sel1 = sel2.
Proof.
  intros [Hl1 [Hv1 [Hs1 Hd1]]] [Hl2 [Hv2 [Hs2 Hd2]]].
  assert (Hincl : forall s1 s2,
            List.length s1 = List.length s2 ->
            (forall e, In e s1 -> nth_error v (snd e) = Some (fst e)) ->
            (forall e, In e s2 -> nth_error v (snd e) = Some (fst e)) ->
            StronglySorted before s1 ->
            (forall j s, nth_error v j = Some s -> ~ In (s, j) s1 ->
               forall e, In e s1 -> beats e (s, j) = true) ->
            (forall j s, nth_error v j = Some s -> ~ In (s, j) s2 ->
               forall e, In e s2 -> beats e (s, j) = true) ->
            incl s2 s1).
  { intros s1 s2 Hlen Ha Hb Hsa Hda Hdb e' He'.
    destruct (in_dec entry_eq_dec e' s1) as [Hin | Hnot]; [exact Hin |].
    exfalso.
    assert (Hsub : incl s1 s2).
    { intros e He. destruct (in_dec entry_eq_dec e s2) as [Hin | Hout]; [exact Hin |].
      exfalso. destruct e as [s j], e' as [s' j'].
      pose proof (Hda j' s' (Hb _ He') Hnot _ He) as H1.
      pose proof (Hdb j s (Ha _ He) Hout _ He') as H2.
      apply beats_asym in H1. congruence. }
    apply Hnot.
    apply (@NoDup_length_incl _ s1 s2 (StronglySorted_NoDup _ Hsa)); [lia | exact Hsub | exact He']. }
  apply sorted_same_elements; [exact Hs1 | exact Hs2 |].
  intros x. split; intros Hx.
  - assert (Hlen : List.length sel2 = List.length sel1) by (rewrite Hl1, Hl2; reflexivity).
    exact (Hincl sel2 sel1 Hlen Hv2 Hv1 Hs2 Hd2 Hd1 x Hx).
  - assert (Hlen : List.length sel1 = List.length sel2) by (rewrite Hl1, Hl2; reflexivity).
    exact (Hincl sel1 sel2 Hlen Hv1 Hv2 Hs1 Hd1 Hd2 x Hx).
Qed.

(** Without the tie rule a selection is not determined: of two equal
    scores either position may be taken. *)
Example ties_without_rule :
  is_topk_any_ties 1 [Fin 5; Fin 5] [(Fin 5, 0%nat)] /\
  is_topk_any_ties 1 [Fin 5; Fin 5] [(Fin 5, 1%nat)] /\
  is_topk 1 [Fin 5; Fin 5] [(Fin 5, 0%nat)] /\
  ~ is_topk 1 [Fin 5; Fin 5] [(Fin 5, 1%nat)].
Proof.
  assert (Hany : forall i, (i < 2)%nat -> is_topk_any_ties 1 [Fin 5; Fin 5] [(Fin 5, i)]).
  { intros i Hi. split; [reflexivity |]. split; [| split; [| split]].
    - intros e [He | []]. subst e. simpl.
      destruct i as [| [| i]]; [reflexivity | reflexivity | lia].
    - repeat constructor. intros [].
    - repeat constructor.
    - intros j s Hj _ e [He | []]. subst e. simpl.
      destruct j as [| [| j]]; simpl in Hj; inversion Hj; try reflexivity.
      destruct j; discriminate. }
  split; [apply Hany; lia |]. split; [apply Hany; lia |]. split.
  - destruct (topk_is_topk 1 [Fin 5; Fin 5]) as [sel [Hsel Hspec]]; [simpl; lia |].
    vm_compute in Hsel. inversion Hsel; subst sel. exact Hspec.
  - intros [_ [_ [_ Hd]]].
    specialize (Hd 0%nat (Fin 5) eq_refl).
    assert (Hnot : ~ In (Fin 5, 0%nat) [(Fin 5, 1%nat)]) by (intros [H | []]; discriminate).
    specialize (Hd Hnot _ (or_introl eq_refl)). vm_compute in Hd. discriminate.
Qed.

(** ** The promise of the library's top-k, and when it fixes the selection *)

Lemma score_ltb_irrefl (a : score) : score_ltb a a = false.
Proof.
  unfold score_ltb. destruct (score_key a) as [c x].
  rewrite !Z.ltb_irrefl, andb_false_r. reflexivity.
Qed.

Lemma score_ltb_total (a b : score) :
  a <> b -> score_ltb a b = true \/ score_ltb b a = true.
Proof.
  intros Hne.
  assert (Hk : score_key a <> score_key b) by (intros H; apply Hne, score_key_inj, H).
  unfold score_ltb. destruct (score_key a) as [ca xa], (score_key b) as [cb xb].
  destruct (Z.lt_total ca cb) as [H | [H | H]].
  - left. apply orb_true_iff. left. apply Z.ltb_lt. exact H.
  - subst cb. assert (Hx : xa <> xb) by congruence.
    rewrite Z.eqb_refl, Z.ltb_irrefl. simpl.
    destruct (Z.lt_total xa xb) as [H | [H | H]]; [left | contradiction | right];
      apply Z.ltb_lt; exact H.
  - right. apply orb_true_iff. left. apply Z.ltb_lt. exact H.
Qed.

Lemma score_ltb_asym (a b : score) : score_ltb a b = true -> score_ltb b a = false.
Proof.
  unfold score_ltb. destruct (score_key a) as [ca xa], (score_key b) as [cb xb].
  intros H. apply orb_true_iff in H. apply orb_false_iff.
  destruct H as [H | H].
  - apply Z.ltb_lt in H. split; [apply Z.ltb_ge; lia |].
    apply andb_false_iff. left. apply Z.eqb_neq. lia.
  - apply andb_true_iff in H. destruct H as [H1 H2].
    apply Z.eqb_eq in H1. apply Z.ltb_lt in H2.
    split; [apply Z.ltb_ge; lia |]. apply andb_false_iff. right. apply Z.ltb_ge. lia.
Qed.

Lemma score_not_below_trans (a b c : score) :
  score_ltb a b = false -> score_ltb b c = false -> score_ltb a c = false.
Proof.
  unfold score_ltb.
  destruct (score_key a) as [ca xa], (score_key b) as [cb xb], (score_key c) as [cc xc].
  intros H1 H2. apply orb_false_iff in H1, H2.
  destruct H1 as [A1 B1], H2 as [A2 B2]. apply Z.ltb_ge in A1, A2.
  apply andb_false_iff in B1, B2. apply orb_false_iff. split; [apply Z.ltb_ge; lia |].
  apply andb_false_iff.
  destruct (Z.eq_dec ca cc) as [He | Hne]; [right | left; apply Z.eqb_neq; exact Hne].
  apply Z.ltb_ge.
  destruct B1 as [B1 | B1], B2 as [B2 | B2];
    try apply Z.eqb_neq in B1; try apply Z.eqb_neq in B2;
    try apply Z.ltb_ge in B1; try apply Z.ltb_ge in B2; lia.
Qed.

(** Not below each other: equal. *)
Lemma score_not_below_eq (a b : score) :
  score_ltb a b = false -> score_ltb b a = false -> a = b.
Proof.
  intros H1 H2. destruct (score_eq_dec a b) as [He | Hne]; [exact He |].
  destruct (score_ltb_total a b Hne); congruence.
Qed.

(** Not below, and different: above. *)
Lemma score_not_below_above (a b : score) :
  score_ltb a b = false -> a <> b -> score_ltb b a = true.
Proof.
  intros H Hne. destruct (score_ltb_total a b Hne); congruence.
Qed.

Lemma beats_not_below (a b : entry) :
  beats a b = true -> score_ltb (fst a) (fst b) = false.
Proof.
  unfold beats. intros H. apply orb_true_iff in H. destruct H as [H | H].
  - apply score_ltb_asym. exact H.
  - apply andb_true_iff in H. destruct H as [H _]. apply score_eqb_eq in H.
    rewrite H. apply score_ltb_irrefl.
Qed.

Lemma above_beats (a b : entry) :
  score_ltb (fst b) (fst a) = true -> beats a b = true.
Proof. intros H. unfold beats. rewrite H. reflexivity. Qed.

Lemma StronglySorted_weaken {A : Type} (R Q : A -> A -> Prop) (l : list A) :
  (forall a b, R a b -> Q a b) -> StronglySorted R l -> StronglySorted Q l.
Proof.
  intros Himp. induction 1 as [| a l Hs IH Hf]; constructor; [exact IH |].
  rewrite Forall_forall in *. intros b Hb. apply Himp, Hf, Hb.
Qed.

(** A selection under the index rule is a selection under any rule. *)
Lemma is_topk_any_ties_of_is_topk (k : nat) (v : list score) (sel : list entry) :
  is_topk k v sel -> is_topk_any_ties k v sel.
Proof.
  intros [Hl [Hval [Hsorted Hdom]]]. split; [exact Hl |]. split; [exact Hval |].
  split; [| split].
  - assert (Hnd : NoDup sel) by (apply StronglySorted_NoDup; exact Hsorted).
    clear Hsorted Hdom Hl. induction sel as [| e sel IH]; simpl; [constructor |].
    apply NoDup_cons_iff in Hnd. destruct Hnd as [He Hnd]. constructor.
    + intros Hin. apply in_map_iff in Hin. destruct Hin as [e' [Hp He']].
      apply He. replace e with e'; [exact He' |].
      pose proof (Hval e (or_introl eq_refl)) as H1.
      pose proof (Hval e' (or_intror He')) as H2.
      rewrite Hp in H2. rewrite H1 in H2. inversion H2 as [Hf].
      destruct e, e'. simpl in *. congruence.
    + apply IH; [| exact Hnd]. intros e' He'. apply Hval. right. exact He'.
  - apply (StronglySorted_weaken before); [| exact Hsorted].
    intros a b. apply beats_not_below.
  - intros j s Hj Hnot e He. apply (beats_not_below e (s, j)). eapply Hdom; eassumption.
Qed.

Lemma topk_meets_contract : meets_topk_contract topk.
Proof.
  intros k v. split.
  - intros Hk. destruct (topk_is_topk k v Hk) as [sel [Hsel Hspec]].
    exists sel. split; [exact Hsel | apply is_topk_any_ties_of_is_topk; exact Hspec].
  - intros Hlt. unfold topk. destruct (Nat.ltb_spec (List.length v) k); [reflexivity | lia].
Qed.

(** The order of [topk_other_ties] on [tied_scores] is a selection of the
    four largest scores, and not the one of the index rule. *)
Lemma tied_scores_other_order :
  is_topk_any_ties 4 tied_scores
    [(Fin 0, 4%nat); (Fin (-1), 2%nat); (Fin (-1), 3%nat); (Fin (-1), 0%nat)] /\
  ~ is_topk 4 tied_scores
      [(Fin 0, 4%nat); (Fin (-1), 2%nat); (Fin (-1), 3%nat); (Fin (-1), 0%nat)].
Proof.
  split.
  - split; [reflexivity |]. split; [| split; [| split]].
    + intros e [He | [He | [He | [He | []]]]]; subst e; reflexivity.
    + repeat constructor; simpl; intuition lia.
    + repeat constructor.
    + intros j s Hj Hnot e He.
      assert (Hs : s = Fin (-2)).
      { unfold tied_scores in Hj.
        destruct j as [| [| [| [| [| [| j]]]]]]; simpl in Hj;
          try (inversion Hj; subst s; try reflexivity; exfalso; apply Hnot; simpl; tauto).
        destruct j; discriminate Hj. }
      subst s. destruct He as [He | [He | [He | [He | []]]]]; subst e; reflexivity.
  - intros [_ [_ [Hsorted _]]].
    pose proof (StronglySorted_nth_error _ _ Hsorted 1%nat 3%nat
                  (Fin (-1), 2%nat) (Fin (-1), 0%nat) ltac:(lia) eq_refl eq_refl) as H.
    vm_compute in H. discriminate H.
Qed.

Lemma topk_other_ties_meets_contract : meets_topk_contract topk_other_ties.
Proof.
  intros k v. unfold topk_other_ties.
  destruct ((k =? 4)%nat && (if list_eq_dec score_eq_dec v tied_scores then true else false))
    eqn:E; [| apply topk_meets_contract].
  apply andb_true_iff in E. destruct E as [Ek Ev]. apply Nat.eqb_eq in Ek.
  destruct (list_eq_dec score_eq_dec v tied_scores) as [Hv | _]; [| discriminate Ev].
  subst k v. split.
  - intros _. eexists. split; [reflexivity | exact (proj1 tied_scores_other_order)].
  - simpl. lia.
Qed.

Lemma pairwise_different_NoDup (v : list score) :
  pairwise_different v = true -> NoDup v.
Proof.
  induction v as [| s v IH]; simpl; intros H; [constructor |].
  apply andb_true_iff in H. destruct H as [Hs Hv]. constructor; [| apply IH; exact Hv].
  intros Hin. apply negb_true_iff in Hs.
  assert (Ht : existsb (score_eqb s) v = true).
  { apply existsb_exists. exists s. split; [exact Hin | apply score_eqb_eq; reflexivity]. }
  congruence.
Qed.

Lemma NoDup_map_injective {A B : Type} (f : A -> B) (l : list A) (a b : A) :
  NoDup (map f l) -> In a l -> In b l -> f a = f b -> a = b.
Proof.
  induction l as [| x l IH]; simpl; intros Hnd Ha Hb Hf; [contradiction |].
  apply NoDup_cons_iff in Hnd. destruct Hnd as [Hx Hnd].
  destruct Ha as [Ha | Ha], Hb as [Hb | Hb].
  - congruence.
  - subst x. exfalso. apply Hx. rewrite Hf. apply in_map. exact Hb.
  - subst x. exfalso. apply Hx. rewrite <- Hf. apply in_map. exact Ha.
  - apply IH; assumption.
Qed.

Lemma NoDup_map_incl {A B : Type} (f : A -> B) (l l' : list A) :
  NoDup (map f l') -> NoDup l -> incl l l' -> NoDup (map f l).
Proof.
  intros Hnd. induction l as [| x l IH]; simpl; intros Hl Hincl; [constructor |].
  apply NoDup_cons_iff in Hl. destruct Hl as [Hx Hl]. constructor.
  - intros Hin. apply in_map_iff in Hin. destruct Hin as [y [Hf Hy]].
    apply Hx. replace x with y; [exact Hy |].
    apply (NoDup_map_injective f l' y x Hnd);
      [apply Hincl; right; exact Hy | apply Hincl; left; reflexivity | exact Hf].
  - apply IH; [exact Hl |]. intros y Hy. apply Hincl. right. exact Hy.
Qed.

Lemma NoDup_of_positions (sel : list entry) : NoDup (map snd sel) -> NoDup sel.
Proof.
  induction sel as [| e sel IH]; simpl; intros H; [constructor |].
  apply NoDup_cons_iff in H. destruct H as [He H]. constructor; [| apply IH; exact H].
  intros Hin. apply He. apply in_map. exact Hin.
Qed.

(** Descending scores that are pairwise different are in the selection
    order. *)
Lemma descending_different_sorted (l : list entry) :
  NoDup (map fst l) ->
  StronglySorted (fun a b => score_ltb (fst a) (fst b) = false) l ->
  StronglySorted before l.
Proof.
  induction l as [| a l IH]; intros Hnd Hs; [constructor |].
  simpl in Hnd. apply NoDup_cons_iff in Hnd. destruct Hnd as [Ha Hnd].
  apply StronglySorted_inv in Hs. destruct Hs as [Hs Hf].
  constructor; [apply IH; assumption |].
  rewrite Forall_forall in *. intros b Hb. apply above_beats.
  apply score_not_below_above; [apply Hf; exact Hb |].
  intros Heq. apply Ha. rewrite Heq. apply in_map. exact Hb.
Qed.

(** With a clear-cut vector, what the library promises is the selection
    under the index rule. *)
Lemma clear_cut_is_topk (k : nat) (v : list score) (sel : list entry) :
  clear_cut k v = true -> is_topk_any_ties k v sel -> is_topk k v sel.
Proof.
  unfold clear_cut. intros Hcc [Hl [Hval [Hpos [Hdesc Hdom]]]].
  apply pairwise_different_NoDup in Hcc.
  set (sorted := sort_desc (indexed_from 0 v)) in *.
  assert (Hsorted : StronglySorted before sorted)
    by (apply sort_desc_sorted, NoDup_indexed_from).
  assert (Hin : forall s j, In (s, j) sorted <-> nth_error v j = Some s)
    by (intros s j; unfold sorted; rewrite In_sort_desc; apply In_indexed_from_0).
  assert (Hlen : List.length sorted = List.length v)
    by (unfold sorted; rewrite length_sort_desc; apply length_indexed_from).
  assert (Hnd : NoDup sel) by (apply NoDup_of_positions; exact Hpos).
  assert (Hsub : incl sel sorted).
  { intros [s j] He. apply Hin. exact (Hval _ He). }
  assert (Hk : (k <= List.length v)%nat).
  { rewrite <- Hl, <- Hlen. apply NoDup_incl_length; assumption. }
  pose proof (sorted_prefix_is_topk k v sorted Hsorted Hin Hlen Hk) as Hbest.
  set (best := firstn k sorted) in *.
  assert (Hbl : List.length best = k) by (unfold best; rewrite length_firstn; lia).
  assert (Hbnd : NoDup best) by (apply StronglySorted_NoDup; exact (proj1 (proj2 (proj2 Hbest)))).
  assert (Hkeys : NoDup (map fst best)).
  { replace (firstn (S k) sorted) with (best ++ firstn 1 (skipn k sorted)) in Hcc.
    - rewrite map_app in Hcc. apply NoDup_app_remove_r in Hcc. exact Hcc.
    - unfold best. rewrite <- (firstn_skipn k sorted) at 3.
      rewrite firstn_app, length_firstn.
      replace (S k - Nat.min k (List.length sorted))%nat with 1%nat by lia.
      rewrite firstn_firstn. replace (Nat.min (S k) k) with k by lia. reflexivity. }
  assert (Hsel_best : incl sel best).
  { intros e He.
    destruct (in_dec entry_eq_dec e best) as [Hin_best | Hout]; [exact Hin_best | exfalso].
    (* some entry of [best] is not selected *)
    assert (Hmiss : exists e', In e' best /\ ~ In e' sel).
    { destruct (Forall_Exists_dec (fun x => In x sel)
                  (fun x => in_dec entry_eq_dec x sel) best) as [Hall | Hex].
      - exfalso. apply Hout.
        apply (@NoDup_length_incl _ best sel Hbnd); [lia | | exact He].
        rewrite Forall_forall in Hall. exact Hall.
      - apply Exists_exists in Hex. exact Hex. }
    destruct Hmiss as [e' [He' Hnot']].
    assert (He's : In e' sorted) by (eapply firstn_In; exact He').
    (* [e] is behind the cut *)
    assert (Hbehind : In e (skipn k sorted)).
    { pose proof (Hsub e He) as Hs. rewrite <- (firstn_skipn k sorted) in Hs.
      apply in_app_or in Hs. destruct Hs as [Hs | Hs]; [contradiction | exact Hs]. }
    destruct (skipn k sorted) as [| c rest] eqn:Eskip; [contradiction |].
    assert (Hsplit : sorted = best ++ c :: rest).
    { unfold best. rewrite <- Eskip. symmetry. apply firstn_skipn. }
    (* the scores of [e'], of the entry at the cut and of [e] are equal *)
    assert (H1 : score_ltb (fst e) (fst e') = false).
    { destruct e' as [s' j']. apply (Hdom j' s'); [apply Hin; exact He's | exact Hnot' | exact He]. }
    assert (H2 : score_ltb (fst e') (fst c) = false).
    { apply beats_not_below.
      apply (StronglySorted_app_cross before best (c :: rest));
        [rewrite <- Hsplit; exact Hsorted | exact He' | left; reflexivity]. }
    assert (H3 : score_ltb (fst c) (fst e) = false).
    { destruct Hbehind as [Hc | Hr]; [subst c; apply score_ltb_irrefl |].
      apply beats_not_below.
      apply (StronglySorted_app_cross before (best ++ [c]) rest);
        [rewrite <- app_assoc; simpl; rewrite <- Hsplit; exact Hsorted
        | apply in_or_app; right; left; reflexivity | exact Hr]. }
    assert (Heq : fst e' = fst c).
    { apply score_not_below_eq; [exact H2 |].
      eapply score_not_below_trans; eassumption. }
    replace (firstn (S k) sorted) with (best ++ [c]) in Hcc.
    - rewrite map_app in Hcc. simpl in Hcc. apply NoDup_remove_2 in Hcc.
      apply Hcc. rewrite app_nil_r, <- Heq. apply in_map. exact He'.
    - rewrite Hsplit. rewrite firstn_app, Hbl.
      replace (S k - k)%nat with 1%nat by lia.
      change (firstn 1 (c :: rest)) with [c].
      rewrite (firstn_all2 (n := S k) best) by lia. reflexivity. }
  assert (Hbest_sel : incl best sel).
  { apply (@NoDup_length_incl _ sel best Hnd); [lia | exact Hsel_best]. }
  destruct Hbest as [_ [_ [_ Hbdom]]].
  split; [exact Hl |]. split; [exact Hval |]. split.
  - apply descending_different_sorted; [| exact Hdesc].
    apply (NoDup_map_incl fst sel best); assumption.
  - intros j s Hj Hnot e He. apply (Hbdom j s Hj); [| apply Hsel_best; exact He].
    intros Hb. apply Hnot, Hbest_sel, Hb.
Qed.

(** Two primitives that keep the promise agree on a clear-cut vector. *)
Lemma clear_cut_same_selection (select1 select2 : nat -> list score -> result (list entry))
    (k : nat) (v : list score) :
  meets_topk_contract select1 -> meets_topk_contract select2 ->
  clear_cut k v = true ->
  select1 k v = select2 k v.
Proof.
  intros H1 H2 Hcc. destruct (H1 k v) as [Hok1 Herr1], (H2 k v) as [Hok2 Herr2].
  destruct (Nat.le_gt_cases k (List.length v)) as [Hle | Hgt].
  - destruct (Hok1 Hle) as [s1 [E1 S1]], (Hok2 Hle) as [s2 [E2 S2]].
    rewrite E1, E2. f_equal.
    apply (is_topk_unique k v); apply clear_cut_is_topk; assumption.
  - rewrite (Herr1 Hgt), (Herr2 Hgt). reflexivity.
Qed.

(** ** Flattening the beams of one example *)

Lemma length_concat_uniform {A : Type} (n : nat) (l : list (list A)) :
  Forall (fun r => List.length r = n) l ->
  List.length (concat l) = (List.length l * n)%nat.
Proof.
  induction 1 as [| r l Hr Hf IH]; simpl; [reflexivity |].
  rewrite length_app, IH, Hr. reflexivity.
Qed.

(** Position [p] of the flattened vector is column [p mod n] of row [p / n]. *)
Lemma nth_error_concat_uniform {A : Type} (n : nat) (l : list (list A)) (p : nat) (x : A) :
  Forall (fun r => List.length r = n) l ->
  nth_error (concat l) p = Some x ->
  (0 < n)%nat /\ (p / n < List.length l)%nat /\
  exists row, nth_error l (p / n) = Some row /\ nth_error row (p mod n) = Some x.
Proof.
  intros Hf. revert p. induction Hf as [| r l Hr Hf IH]; intros p Hp; simpl in Hp.
  - destruct p; discriminate.
  - destruct (Nat.lt_ge_cases p n) as [Hlt | Hge].
    + rewrite nth_error_app1 in Hp by lia.
      split; [lia |]. rewrite Nat.div_small, Nat.mod_small by lia.
      split; [simpl; lia |]. exists r. split; [reflexivity | exact Hp].
    + rewrite nth_error_app2 in Hp by lia. rewrite Hr in Hp.
      destruct (IH _ Hp) as [Hn [Hq [row [Hrow Hx]]]].
      assert (Hdiv : (p / n = S ((p - n) / n))%nat).
      { replace p with ((p - n) + 1 * n)%nat at 1 by lia.
        rewrite Nat.div_add by lia. lia. }
      assert (Hmod : (p mod n = (p - n) mod n)%nat).
      { replace p with ((p - n) + 1 * n)%nat at 1 by lia.
        rewrite Nat.Div0.mod_add. reflexivity. }
      split; [exact Hn |]. rewrite Hdiv, Hmod. split; [simpl; lia |].
      exists row. split; [exact Hrow | exact Hx].
Qed.

Lemma group_rows_uniform {A : Type} (num_beams b n : nat) (rws : list (list A)) :
  Forall (fun r => List.length r = n) rws ->
  ((b + 1) * num_beams <= List.length rws)%nat ->
  Forall (fun r => List.length r = n) (firstn num_beams (skipn (b * num_beams) rws)) /\
  List.length (firstn num_beams (skipn (b * num_beams) rws)) = num_beams.
Proof.
  intros Hf Hb. split.
  - rewrite Forall_forall in *. intros r Hr. apply Hf.
    apply firstn_In in Hr. rewrite <- (firstn_skipn (b * num_beams) rws).
    apply in_or_app. right. exact Hr.
  - rewrite length_firstn, length_skipn. lia.
Qed.

Lemma nth_error_group {A : Type} (num_beams b i : nat) (rws : list (list A)) :
  (i < num_beams)%nat ->
  nth_error (firstn num_beams (skipn (b * num_beams) rws)) i
  = nth_error rws (b * num_beams + i).
Proof.
  intros Hi. rewrite nth_error_firstn.
  destruct (Nat.ltb_spec i num_beams); [| lia].
  apply nth_error_skipn.
Qed.

(** Lower flattened index: lower beam, then lower token. *)
Lemma flat_index_order (p1 p2 v : Z) :
  0 <= p1 < p2 -> 0 < v ->
  p1 / v < p2 / v \/ (p1 / v = p2 / v /\ p1 mod v < p2 mod v).
Proof.
  intros Hp Hv.
  assert (Hle : p1 / v <= p2 / v) by (apply Z.div_le_mono; lia).
  destruct (Z.eq_dec (p1 / v) (p2 / v)) as [He | Hne]; [right | left; lia].
  split; [exact He |].
  pose proof (Z.div_mod p1 v ltac:(lia)) as H1.
  pose proof (Z.div_mod p2 v ltac:(lia)) as H2.
  rewrite He in H1. lia.
Qed.

(** ** Candidate selection in [beam_search] *)

Lemma select_candidates_groups (select : nat -> list score -> result (list entry))
    (batch_size num_beams : nat) (scores : tensor2 score) :
  meets_topk_contract select ->
  wf_tensor scores ->
  nrows scores = (batch_size * num_beams)%nat ->
  (2 * num_beams <= num_beams * ncols scores)%nat ->
  exists top,
    select_candidates select batch_size num_beams scores
    = ok (Candidates (map (map fst) top)
            (map (map (token_of (ncols scores))) top)
            (map (map (beam_of (ncols scores))) top)) /\
    List.length top = batch_size /\
    forall b, (b < batch_size)%nat ->
      exists sel,
        nth_error top b = Some sel /\
        is_topk_any_ties (2 * num_beams) (group_rows num_beams b (rows scores)) sel.
Proof.
  intros Hselect Hwf Hrows Hk.
  assert (Hgroup : forall b, (b < batch_size)%nat ->
            exists sel,
              select (2 * num_beams)%nat (group_rows num_beams b (rows scores)) = ok sel /\
              is_topk_any_ties (2 * num_beams) (group_rows num_beams b (rows scores)) sel).
  { intros b Hb. apply (proj1 (Hselect _ _)). unfold group_rows.
    destruct (group_rows_uniform num_beams b (ncols scores) (rows scores) Hwf) as [Hu Hl].
    - unfold nrows in Hrows. rewrite Hrows. nia.
    - rewrite (length_concat_uniform _ _ Hu), Hl. lia. }
  destruct (mapM_total (select (2 * num_beams)%nat)
              (view_groups batch_size num_beams scores)) as [top Htop].
  { intros flat Hin. unfold view_groups in Hin. apply in_map_iff in Hin.
    destruct Hin as [b [Hb Hin]]. apply in_seq in Hin.
    destruct (Hgroup b ltac:(lia)) as [sel [Hsel _]]. exists sel. rewrite <- Hb. exact Hsel. }
  exists top. split; [| split].
  - unfold select_candidates. rewrite Hrows.
    replace ((batch_size * num_beams * ncols scores =?
              batch_size * (num_beams * ncols scores))%nat) with true
      by (symmetry; apply Nat.eqb_eq; lia).
    cbn [rbind ok]. rewrite Htop. cbn [rbind ok].
    unfold token_of, beam_of. rewrite !map_map. f_equal. f_equal.
    + apply map_ext. intros sel. rewrite map_map. reflexivity.
    + apply map_ext. intros sel. rewrite !map_map. reflexivity.
  - pose proof (mapM_length _ _ _ Htop) as Hl. unfold view_groups in Hl.
    rewrite length_map, length_seq in Hl. exact Hl.
  - intros b Hb.
    assert (Hnth : nth_error (view_groups batch_size num_beams scores) b
                   = Some (group_rows num_beams b (rows scores))).
    { unfold view_groups. rewrite nth_error_map, nth_error_seq.
      destruct (Nat.ltb_spec b batch_size); [reflexivity | lia]. }
    destruct (mapM_nth _ _ _ Htop b _ Hnth) as [sel [Hsel Htk]].
    exists sel. split; [exact Hsel |].
    destruct (Hgroup b Hb) as [sel' [Hsel' Hspec]].
    rewrite Hsel' in Htk. inversion Htk; subst sel'. exact Hspec.
Qed.

Lemma entry_position (num_beams b : nat) (scores : tensor2 score) (e : entry) :
  wf_tensor scores ->
  ((b + 1) * num_beams <= nrows scores)%nat ->
  nth_error (group_rows num_beams b (rows scores)) (snd e) = Some (fst e) ->
  0 < Z.of_nat (ncols scores) /\
  0 <= beam_of (ncols scores) e < Z.of_nat num_beams /\
  0 <= token_of (ncols scores) e < Z.of_nat (ncols scores) /\
  Z.of_nat (snd e)
  = beam_of (ncols scores) e * Z.of_nat (ncols scores) + token_of (ncols scores) e /\
  exists row,
    nth_error (rows scores) (b * num_beams + Z.to_nat (beam_of (ncols scores) e))
    = Some row /\
    nth_error row (Z.to_nat (token_of (ncols scores) e)) = Some (fst e).
Proof.
  intros Hwf Hb He. unfold group_rows in He.
  destruct (group_rows_uniform num_beams b (ncols scores) (rows scores) Hwf Hb) as [Hu Hl].
  destruct (nth_error_concat_uniform _ _ _ _ Hu He) as [Hn [Hq [row [Hrow Hx]]]].
  rewrite Hl in Hq. rewrite nth_error_group in Hrow by exact Hq.
  unfold beam_of, token_of, torch_int_div.
  rewrite <- Nat2Z.inj_div, <- Nat2Z.inj_mod, !Nat2Z.id.
  split; [lia |]. split; [lia |]. split.
  - pose proof (Nat.mod_upper_bound (snd e) (ncols scores) ltac:(lia)). lia.
  - split.
    + rewrite <- Nat2Z.inj_mul, <- Nat2Z.inj_add. f_equal.
      pose proof (Nat.div_mod_eq (snd e) (ncols scores)). lia.
    + exists row. split; [exact Hrow | exact Hx].
Qed.

(** The candidates a step leaves behind are the selection on the processed
    scores plus the running beam scores. *)
Lemma beam_step_candidates {Sc : Type} {scorer_class : BeamScorer Sc} {slice : Type}
    (select : nat -> list score -> result (list entry)) (env : Env) (le : loop_env)
    (outputs : tensor2 score) (st st' : loop_state Sc slice) :
  beam_step select env le outputs st = ok st' ->
  exists processed scored c,
    apply_processors env (le_logits_processor le) (st_input_ids st)
      (log_softmax env outputs) = ok processed /\
    add_beam_scores (log_softmax env outputs) processed (st_beam_scores st) = ok scored /\
    select_candidates select (le_batch_size le) (le_num_beams le) scored = ok c /\
    st_candidates st' = Some c.
Proof.
  unfold beam_step, adjust_logits_during_generation. intros H.
  destruct (apply_processors env _ _ _) as [e | processed] eqn:Hproc; [discriminate H |].
  cbn [rbind] in H.
  destruct (add_beam_scores _ _ _) as [e | scored] eqn:Hadd; [discriminate H |].
  cbn [rbind] in H.
  destruct (le_return_dict_in_generate le
            && (le_output_attentions le || le_output_hidden_states le));
    [discriminate H |].
  cbn [rbind ok] in H.
  destruct (select_candidates select _ _ scored) as [e | c] eqn:Hsel; [discriminate H |].
  cbn [rbind] in H.
  exists processed, scored, c.
  split; [reflexivity |]. split; [exact Hadd |]. split; [exact Hsel |].
  destruct (process _ _ _ _ _ _) as [e | [sc out]]; [discriminate H |].
  cbn [rbind] in H.
  destruct (gather_rows _ _) as [e | gathered]; [discriminate H |]. cbn [rbind] in H.
  destruct (cat_column _ _) as [e | ids]; [discriminate H |]. cbn [rbind] in H.
  destruct (match st_past st with Some _ => _ | None => _ end) as [e | past'];
    [discriminate H |]. cbn [rbind] in H.
  destruct (match st_beam_indices st with Some _ => _ | None => _ end) as [e | bi];
    [discriminate H |]. cbn [rbind] in H.
  inversion H. reflexivity.
Qed.

(** C1, as the code has it: with a top-k primitive that keeps the promise
    of [torch.topk], in every decoding step whose score matrix has
    [batch_size * num_beams] rows and at least [2 * num_beams] entries per
    example, the selection succeeds and, for each example [b], is a list
    [sel] of [2 * num_beams] entries of the flattened vector of size
    [num_beams * vocab], at distinct positions, in descending order of
    score, such that no entry left out has a higher score than a selected
    one; the parent beam is the flattened index divided by the vocabulary
    size, the token its remainder, and the selected score sits in that
    beam's row at that token.  Which of several equal scores are taken,
    and in what order, is left to the primitive; when the
    [2 * num_beams + 1] largest scores are pairwise different, [sel] is
    the one selection there is, the one the index rule gives as well. *)
Theorem beam_search_candidate_selection
    (select : nat -> list score -> result (list entry))
    (batch_size num_beams : nat) (scores : tensor2 score) :
  meets_topk_contract select ->
  wf_tensor scores ->
  nrows scores = (batch_size * num_beams)%nat ->
  (2 * num_beams <= num_beams * ncols scores)%nat ->
  exists c,
    select_candidates select batch_size num_beams scores = ok c /\
    forall b, (b < batch_size)%nat ->
      List.length (group_rows num_beams b (rows scores))
      = (num_beams * ncols scores)%nat /\
      exists sel,
        is_topk_any_ties (2 * num_beams) (group_rows num_beams b (rows scores)) sel /\
        nth_error (cand_scores c) b = Some (map fst sel) /\
        nth_error (cand_tokens c) b = Some (map (token_of (ncols scores)) sel) /\
        nth_error (cand_indices c) b = Some (map (beam_of (ncols scores)) sel) /\
        (forall e, In e sel ->
           0 <= beam_of (ncols scores) e < Z.of_nat num_beams /\
           0 <= token_of (ncols scores) e < Z.of_nat (ncols scores) /\
           Z.of_nat (snd e)
           = beam_of (ncols scores) e * Z.of_nat (ncols scores)
             + token_of (ncols scores) e /\
           exists row,
             nth_error (rows scores)
               (b * num_beams + Z.to_nat (beam_of (ncols scores) e)) = Some row /\
             nth_error row (Z.to_nat (token_of (ncols scores) e)) = Some (fst e)) /\
        (forall i j e1 e2, (i < j)%nat ->
           nth_error sel i = Some e1 -> nth_error sel j = Some e2 ->
           score_ltb (fst e1) (fst e2) = false /\ snd e1 <> snd e2) /\
        (clear_cut (2 * num_beams) (group_rows num_beams b (rows scores)) = true ->
         is_topk (2 * num_beams) (group_rows num_beams b (rows scores)) sel /\
         forall sel',
           is_topk_any_ties (2 * num_beams) (group_rows num_beams b (rows scores)) sel' ->
           sel' = sel).
Proof.
  intros Hselect Hwf Hrows Hk.
  destruct (select_candidates_groups select batch_size num_beams scores Hselect Hwf Hrows Hk)
    as [top [Hsel [Hlen Hgroups]]].
  eexists. split; [exact Hsel |]. simpl.
  intros b Hb.
  assert (Hbb : ((b + 1) * num_beams <= nrows scores)%nat) by (rewrite Hrows; nia).
  split.
  { unfold group_rows.
    destruct (group_rows_uniform num_beams b (ncols scores) (rows scores) Hwf Hbb) as [Hu Hl].
    rewrite (length_concat_uniform _ _ Hu), Hl. reflexivity. }
  destruct (Hgroups b Hb) as [sel [Hnth Hspec]].
  exists sel. split; [exact Hspec |].
  rewrite !nth_error_map. unfold entry in *. rewrite !Hnth. simpl.
  split; [reflexivity |]. split; [reflexivity |]. split; [reflexivity |].
  pose proof Hspec as [_ [Hval [Hpos [Hsorted _]]]].
  split; [| split].
  - intros e He.
    destruct (entry_position num_beams b scores e Hwf Hbb (Hval e He))
      as [_ [H1 [H2 [H3 H4]]]].
    split; [exact H1 |]. split; [exact H2 |]. split; [exact H3 | exact H4].
  - intros i j e1 e2 Hij H1 H2. split.
    + exact (StronglySorted_nth_error _ _ Hsorted i j e1 e2 Hij H1 H2).
    + intros Heq.
      assert (Hi : (i < List.length (map snd sel))%nat).
      { rewrite length_map. apply nth_error_Some. rewrite H1. discriminate. }
      pose proof (proj1 (NoDup_nth_error (map snd sel)) Hpos i j Hi) as Hp.
      rewrite !nth_error_map, H1, H2 in Hp. simpl in Hp.
      rewrite Heq in Hp. specialize (Hp eq_refl). lia.
  - intros Hcc. split; [apply clear_cut_is_topk; assumption |].
    intros sel' Hspec'.
    apply (is_topk_unique (2 * num_beams) (group_rows num_beams b (rows scores)));
      apply clear_cut_is_topk; assumption.
Qed.

Example candidates_two_beams :
  select_candidates topk 1 2
    (Tensor2 3 [[Fin (-1); Fin (-2); Fin (-1)]; [Fin (-1); Fin 0; Fin (-2)]])
  = ok (Candidates [[Fin 0; Fin (-1); Fin (-1); Fin (-1)]]
          [[1; 0; 2; 0]] [[1; 0; 0; 1]]).
Proof. reflexivity. Qed.

Lemma beam_search_candidate_selection_witness :
  (meets_topk_contract topk_other_ties /\
   wf_tensor (Tensor2 3 [[Fin (-1); Fin (-2); Fin (-1)]; [Fin (-1); Fin 0; Fin (-2)]]) /\
   (2 * 2 <= 2 * 3)%nat) /\
  exists c,
    select_candidates topk_other_ties 1 2
      (Tensor2 3 [[Fin (-1); Fin (-2); Fin (-1)]; [Fin (-1); Fin 0; Fin (-2)]]) = ok c.
Proof.
  assert (Hwf : wf_tensor
            (Tensor2 3 [[Fin (-1); Fin (-2); Fin (-1)]; [Fin (-1); Fin 0; Fin (-2)]]))
    by (repeat constructor).
  split; [split; [exact topk_other_ties_meets_contract | split; [exact Hwf | simpl; lia]] |].
  destruct (beam_search_candidate_selection topk_other_ties 1 2 _
              topk_other_ties_meets_contract Hwf eq_refl ltac:(simpl; lia))
    as [c [Hc _]].
  exists c. exact Hc.
Defined.

(** C1, as stated, fails: on the scores [[-1, -2, -1], [-1, 0, -2]] of two
    beams a primitive that keeps the promise of [torch.topk] returns the
    three candidates of score -1 as (beam 0, token 2), (beam 1, token 0),
    (beam 0, token 0): the higher beam before the lower one, and within
    beam 0 the higher token before the lower one.  This is a selection of
    the four largest scores in descending order, and not the one of the
    index rule. *)
Lemma candidate_selection_ties_not_by_index :
  meets_topk_contract topk_other_ties /\
  select_candidates topk_other_ties 1 2
    (Tensor2 3 [[Fin (-1); Fin (-2); Fin (-1)]; [Fin (-1); Fin 0; Fin (-2)]])
  = ok (Candidates [[Fin 0; Fin (-1); Fin (-1); Fin (-1)]]
          [[1; 2; 0; 0]] [[1; 0; 1; 0]]) /\
  is_topk_any_ties 4
    (group_rows 2 0 [[Fin (-1); Fin (-2); Fin (-1)]; [Fin (-1); Fin 0; Fin (-2)]])
    [(Fin 0, 4%nat); (Fin (-1), 2%nat); (Fin (-1), 3%nat); (Fin (-1), 0%nat)] /\
  ~ is_topk 4
      (group_rows 2 0 [[Fin (-1); Fin (-2); Fin (-1)]; [Fin (-1); Fin 0; Fin (-2)]])
      [(Fin 0, 4%nat); (Fin (-1), 2%nat); (Fin (-1), 3%nat); (Fin (-1), 0%nat)].
Proof.
  split; [exact topk_other_ties_meets_contract |].
  split; [reflexivity |].
  exact tied_scores_other_order.
Qed.

(** ** The initial beam scores *)







Example init_beam_scores_2_3 :
  init_beam_scores 2 3
  = [Fin 0; Fin (-1000000000); Fin (-1000000000);
     Fin 0; Fin (-1000000000); Fin (-1000000000)].
Proof. reflexivity. Qed.

(** The state [beam_search] enters the loop with. *)
Lemma beam_search_init_state {Sc : Type} {scorer_class : BeamScorer Sc} {slice : Type}
    (config : Config.t) (beam_scorer : Sc) (past : option (cache slice)) (a : BS.args)
    (w : list warning) (le : loop_env) (st : loop_state Sc slice) :
  beam_search_init config beam_scorer past a = (w, ok (le, st)) ->
  st_beam_scores st
  = init_beam_scores (scorer_batch_size beam_scorer) (scorer_num_beams beam_scorer) /\
  st_input_ids st = BS.input_ids a /\
  st_scorer st = beam_scorer /\
  st_this_peer_finished st = false /\
  st_iteration st = 0%nat /\
  le_batch_size le = scorer_batch_size beam_scorer /\
  le_num_beams le = scorer_num_beams beam_scorer /\
  le_synced_gpus le = BS.synced_gpus a /\
  nrows (BS.input_ids a)
  = (scorer_num_beams beam_scorer * scorer_batch_size beam_scorer)%nat.
Proof.
  unfold beam_search_init. intros H.
  bind_inv H criteria Hcrit.
  bind_inv H u1 Hwarn.
  bind_inv H u2 Hshape.
  bind_inv H u3 Hkey.
  inversion H; subst. simpl. repeat split.
  destruct (Nat.eqb_spec (scorer_num_beams beam_scorer * scorer_batch_size beam_scorer)
              (nrows (BS.input_ids a))) as [He | Hne];
    [symmetry; exact He | discriminate Hshape].
Qed.



(** ** The first expansion step *)








(** ** Termination of the loop *)

Section LoopTermination.
Context {Sc : Type} {scorer_class : BeamScorer Sc} {slice : Type}.
Variable select : nat -> list score -> result (list entry).
Variable env : Env.

Lemma loop_iter_not_synced (le : loop_env) (st : loop_state Sc slice) :
  le_synced_gpus le = false ->
  loop_iter select env le st
  = (st1 <- iteration_body select env le st ;;
     ok (if done_or_stop env le st1 then Break st1
         else Continue (next_iteration st1)))%res.
Proof.
  intros Hs. unfold loop_iter, iteration_body, loop_exit. rewrite Hs. simpl.
  destruct (forward env (st_input_ids st)) as [e | outputs]; simpl; [reflexivity |].
  destruct (beam_step select env le outputs st) as [e | st1]; simpl; [reflexivity |].
  destruct (done_or_stop env le st1); reflexivity.
Qed.

Lemma loop_returns_after_run (le : loop_env) (st st' final : loop_state Sc slice)
    (n fuel : nat) :
  le_synced_gpus le = false ->
  runs_on select env le st n st' ->
  iteration_body select env le st' = ok final ->
  done_or_stop env le final = true ->
  (n < fuel)%nat ->
  beam_search_loop select env fuel le st = ok (Some final).
Proof.
  intros Hs Hrun. revert fuel.
  induction Hrun as [st | st st1 st' n Hbody Hcont Hrun IH]; intros fuel Hfinal Hdone Hfuel.
  - destruct fuel as [| fuel]; [lia |]. simpl.
    rewrite (loop_iter_not_synced le st Hs), Hfinal. simpl. rewrite Hdone. reflexivity.
  - destruct fuel as [| fuel]; [lia |]. simpl.
    rewrite (loop_iter_not_synced le st Hs), Hbody. simpl. rewrite Hcont.
    apply IH; [assumption | assumption | lia].
Qed.

Lemma loop_return_has_run (le : loop_env) (st final : loop_state Sc slice) (fuel : nat) :
  le_synced_gpus le = false ->
  beam_search_loop select env fuel le st = ok (Some final) ->
  exists n st',
    (n < fuel)%nat /\
    runs_on select env le st n st' /\
    iteration_body select env le st' = ok final /\
    done_or_stop env le final = true.
Proof.
  intros Hs. revert st. induction fuel as [| fuel IH]; intros st H; simpl in H.
  - discriminate H.
  - rewrite (loop_iter_not_synced le st Hs) in H.
    destruct (iteration_body select env le st) as [e | st1] eqn:Hbody; simpl in H;
      [discriminate H |].
    destruct (done_or_stop env le st1) eqn:Hdone.
    + inversion H; subst final. exists 0%nat, st.
      split; [lia |]. split; [constructor |]. split; [exact Hbody | exact Hdone].
    + destruct (IH _ H) as [n [st' [Hn [Hrun [Hfinal Hd]]]]].
      exists (S n), st'. split; [lia |]. split; [| split; assumption].
      econstructor; eassumption.
Qed.

Lemma loop_running_after_run (le : loop_env) (st st' : loop_state Sc slice) (n : nat) :
  le_synced_gpus le = false ->
  runs_on select env le st n st' ->
  beam_search_loop select env n le st = ok None /\
  forall fuel,
    beam_search_loop select env (n + fuel) le st = beam_search_loop select env fuel le st'.
Proof.
  intros Hs Hrun. induction Hrun as [st | st st1 st' n Hbody Hcont Hrun IH].
  - split; [reflexivity | intros fuel; reflexivity].
  - destruct IH as [IH1 IH2]. split.
    + simpl. rewrite (loop_iter_not_synced le st Hs), Hbody. simpl. rewrite Hcont. exact IH1.
    + intros fuel. simpl.
      rewrite (loop_iter_not_synced le st Hs), Hbody. simpl. rewrite Hcont. apply IH2.
Qed.
End LoopTermination.

(** C4, as the code has it: in a run without [synced_gpus] the loop ends
    with the first iteration after which the scorer is done or a stopping
    criterion fires, and only then: every iteration that returns with
    neither of the two re-enters the step; with [synced_gpus] the same test
    only marks the process as finished, and the loop goes on until the
    barrier finds no process still generating. *)
Theorem loop_terminates_on_done_or_stop {Sc : Type} {scorer_class : BeamScorer Sc}
    {slice : Type} (select : nat -> list score -> result (list entry)) (env : Env)
    (le : loop_env) (st : loop_state Sc slice) :
  (le_synced_gpus le = false ->
   (forall final fuel,
      beam_search_loop select env fuel le st = ok (Some final) <->
      exists n st',
        (n < fuel)%nat /\
        runs_on select env le st n st' /\
        iteration_body select env le st' = ok final /\
        done_or_stop env le final = true) /\
   (forall st1,
      iteration_body select env le st = ok st1 ->
      loop_iter select env le st
      = ok (if done_or_stop env le st1 then Break st1 else Continue (next_iteration st1))) /\
   (forall n st',
      runs_on select env le st n st' ->
      beam_search_loop select env n le st = ok None)) /\
  (le_synced_gpus le = true ->
   (done_or_stop env le st = true ->
    loop_exit env le st = Continue (next_iteration (set_peer_finished st))) /\
   (st_this_peer_finished st = true ->
    loop_iter select env le st
    = if (peers_running env (st_iteration st) =? 0)%nat then ok (Break st)
      else rbind (forward env (st_input_ids st))
             (fun _ => ok (Continue (next_iteration (skip_step st)))))).
Proof.
  split.
  - intros Hs. split; [| split].
    + intros final fuel. split.
      * apply loop_return_has_run. exact Hs.
      * intros [n [st' [Hn [Hrun [Hbody Hdone]]]]].
        eapply loop_returns_after_run; eassumption.
    + intros st1 Hbody. rewrite (loop_iter_not_synced select env le st Hs), Hbody.
      reflexivity.
    + intros n st' Hrun.
      apply (proj1 (loop_running_after_run select env le st st' n Hs Hrun)).
  - intros Hs. split.
    + intros Hdone. unfold loop_exit. rewrite Hdone, Hs. reflexivity.
    + intros Hfin. unfold loop_iter. rewrite Hs, Hfin. simpl.
      destruct (peers_running env (st_iteration st) =? 0)%nat; reflexivity.
Qed.

Example loop_start_of_search_args :
  beam_search_init (slice := unit) Fixture.plain_config Fixture.scorer2 None
    (Fixture.search_args (Some [MaxLengthCriteria 3]) false)
  = ([], ok (Fixture.loop_env0 [MaxLengthCriteria 3] false, Fixture.state0)).
Proof. reflexivity. Qed.

Lemma loop_terminates_on_done_or_stop_witness :
  le_synced_gpus (Fixture.loop_env0 [MaxLengthCriteria 3] false) = false /\
  exists final n st',
    beam_search_loop topk (Fixture.constant_env [Fin (-1); Fin (-2); Fin (-3)] 0) 5
      (Fixture.loop_env0 [MaxLengthCriteria 3] false) Fixture.state0
    = ok (Some final) /\
    (n < 5)%nat /\
    runs_on topk (Fixture.constant_env [Fin (-1); Fin (-2); Fin (-3)] 0)
      (Fixture.loop_env0 [MaxLengthCriteria 3] false) Fixture.state0 n st' /\
    done_or_stop (Fixture.constant_env [Fin (-1); Fin (-2); Fin (-3)] 0)
      (Fixture.loop_env0 [MaxLengthCriteria 3] false) final = true.
Proof.
  split; [reflexivity |].
  destruct (beam_search_loop topk (Fixture.constant_env [Fin (-1); Fin (-2); Fin (-3)] 0) 5
              (Fixture.loop_env0 [MaxLengthCriteria 3] false) Fixture.state0)
    as [e | [final |]] eqn:H.
  - vm_compute in H. discriminate H.
  - destruct (proj1 (proj1 (proj1 (loop_terminates_on_done_or_stop topk
                  (Fixture.constant_env [Fin (-1); Fin (-2); Fin (-3)] 0)
                  (Fixture.loop_env0 [MaxLengthCriteria 3] false) Fixture.state0)
                eq_refl) final 5%nat) H) as [n [st' [Hn [Hrun [_ Hdone]]]]].
    exists final, n, st'. split; [reflexivity |]. split; [exact Hn |].
    split; [exact Hrun | exact Hdone].
  - vm_compute in H. discriminate H.
Defined.

(** C4, as stated, fails under [synced_gpus]: with another process still
    generating, the iteration after which the max-length criterion fires
    does not end the loop; the loop marks the process finished and goes
    on, and is still running four iterations later. *)
Lemma loop_goes_on_when_synced :
  exists st1,
    iteration_body topk (Fixture.constant_env [Fin (-1); Fin (-2); Fin (-3)] 1)
      (Fixture.loop_env0 [MaxLengthCriteria 2] true) Fixture.state0 = ok st1 /\
    done_or_stop (Fixture.constant_env [Fin (-1); Fin (-2); Fin (-3)] 1)
      (Fixture.loop_env0 [MaxLengthCriteria 2] true) st1 = true /\
    loop_iter topk (Fixture.constant_env [Fin (-1); Fin (-2); Fin (-3)] 1)
      (Fixture.loop_env0 [MaxLengthCriteria 2] true) Fixture.state0
    = ok (Continue (next_iteration (set_peer_finished st1))) /\
    beam_search_loop topk (Fixture.constant_env [Fin (-1); Fin (-2); Fin (-3)] 1) 5
      (Fixture.loop_env0 [MaxLengthCriteria 2] true) Fixture.state0
    = ok None.
Proof.
  eexists. split; [vm_compute; reflexivity |].
  split; [vm_compute; reflexivity |].
  split; vm_compute; reflexivity.
Qed.

(** ** Runs on which two top-k primitives agree *)

Section AgreeingRuns.
Context {Sc : Type} {scorer_class : BeamScorer Sc} {slice : Type}.
Variables select1 select2 : nat -> list score -> result (list entry).
Variable env : Env.

Lemma select_candidates_same_on (batch_size num_beams : nat) (scores : tensor2 score) :
  (forall v, In v (view_groups batch_size num_beams scores) ->
     select1 (2 * num_beams)%nat v = select2 (2 * num_beams)%nat v) ->
  select_candidates select1 batch_size num_beams scores
  = select_candidates select2 batch_size num_beams scores.
Proof.
  intros Hsame. unfold select_candidates.
  match goal with |- context [if ?c then _ else _] => destruct c end; [| reflexivity].
  cbn [rbind ok].
  rewrite (mapM_ext (select1 (2 * num_beams)) (select2 (2 * num_beams)));
    [reflexivity | exact Hsame].
Qed.

Lemma loop_iter_same_on (le : loop_env) (st : loop_state Sc slice) :
  match step_scores env le st with
  | inr scores => same_selections select1 select2 le scores
  | inl _ => True
  end ->
  loop_iter select1 env le st = loop_iter select2 env le st.
Proof.
  unfold step_scores, loop_iter, beam_step, adjust_logits_during_generation. intros Hsame.
  match goal with |- context [if ?c then ok (Break st) else _] => destruct c end;
    [reflexivity |].
  destruct (forward env (st_input_ids st)) as [e | outputs]; [reflexivity |].
  cbn [rbind] in *.
  destruct (le_synced_gpus le && st_this_peer_finished st); [reflexivity |].
  destruct (apply_processors env _ _ _) as [e | processed]; [reflexivity |].
  cbn [rbind] in *.
  destruct (add_beam_scores _ _ _) as [e | scored]; [reflexivity |]. cbn [rbind].
  destruct (le_return_dict_in_generate le
            && (le_output_attentions le || le_output_hidden_states le));
    [reflexivity |]. cbn [rbind ok].
  rewrite (select_candidates_same_on _ _ _ Hsame). reflexivity.
Qed.

(** The first iteration, told by what [select2] makes of it. *)
Lemma run_agrees_first (fuel : nat) (le : loop_env) (st : loop_state Sc slice) :
  match step_scores env le st with
  | inr scores => same_selections select1 select2 le scores
  | inl _ => True
  end ->
  (forall st', loop_iter select2 env le st = ok (Continue st') ->
     run_agrees select1 select2 env fuel le st') ->
  run_agrees select1 select2 env (S fuel) le st.
Proof.
  intros Hnow Hlater. cbn [run_agrees]. split; [exact Hnow |].
  rewrite (loop_iter_same_on le st Hnow).
  destruct (loop_iter select2 env le st) as [e | [st' | st']]; try exact I.
  apply Hlater. reflexivity.
Qed.

Lemma beam_search_loop_agrees (fuel : nat) (le : loop_env) (st : loop_state Sc slice) :
  run_agrees select1 select2 env fuel le st ->
  beam_search_loop select1 env fuel le st = beam_search_loop select2 env fuel le st.
Proof.
  revert st. induction fuel as [| fuel IH]; intros st Hrun; [reflexivity |].
  cbn [run_agrees] in Hrun. destruct Hrun as [Hnow Hlater].
  cbn [beam_search_loop]. rewrite <- (loop_iter_same_on le st Hnow).
  destruct (loop_iter select1 env le st) as [e | [st' | st']]; cbn [rbind];
    [reflexivity | reflexivity | apply IH; exact Hlater].
Qed.

Lemma beam_search_agrees (config : Config.t) (fuel : nat) (beam_scorer : Sc)
    (past : option (cache slice)) (a : BS.args) :
  (forall w le st,
     beam_search_init config beam_scorer past a = (w, ok (le, st)) ->
     run_agrees select1 select2 env fuel le st) ->
  beam_search select1 env config fuel beam_scorer past a
  = beam_search select2 env config fuel beam_scorer past a.
Proof.
  intros Hrun. unfold beam_search.
  destruct (beam_search_init config beam_scorer past a) as [w [e | [le st]]];
    [reflexivity |].
  cbn [bind]. rewrite (beam_search_loop_agrees fuel le st (Hrun w le st eq_refl)).
  reflexivity.
Qed.

Lemma generate_agrees (new_scorer : nat -> Z -> Q -> bool -> Z -> result Sc)
    (fuel : nat) (self : model) (past : option (cache slice)) (a : G.args) :
  (forall w call w' le st,
     generate_setup new_scorer self a = (w, ok call) ->
     beam_search_init (config self) (call_scorer call) past (call_args call)
     = (w', ok (le, st)) ->
     run_agrees select1 select2 env fuel le st) ->
  generate new_scorer select1 env fuel self past a
  = generate new_scorer select2 env fuel self past a.
Proof.
  intros Hrun. unfold generate.
  destruct (generate_setup new_scorer self a) as [w [e | call]] eqn:Hsetup;
    [reflexivity |].
  cbn [bind]. rewrite (beam_search_agrees (config self) fuel (call_scorer call) past
                         (call_args call)); [reflexivity |].
  intros w' le st Hinit. exact (Hrun w call w' le st eq_refl Hinit).
Qed.

(** Primitives that keep the promise agree on clear-cut runs. *)
Lemma run_clear_cut_agrees (fuel : nat) (le : loop_env) (st : loop_state Sc slice) :
  meets_topk_contract select1 -> meets_topk_contract select2 ->
  run_clear_cut select1 env fuel le st = true ->
  run_agrees select1 select2 env fuel le st.
Proof.
  intros keeps1 keeps2. revert st. induction fuel as [| fuel IH]; intros st Hrun;
    [exact I |].
  cbn [run_clear_cut] in Hrun. apply andb_true_iff in Hrun. destruct Hrun as [Hnow Hlater].
  cbn [run_agrees]. split.
  - destruct (step_scores env le st) as [e | scores]; [exact I |].
    unfold clear_cut_scores in Hnow. rewrite forallb_forall in Hnow.
    intros v Hv. apply clear_cut_same_selection; [exact keeps1 | exact keeps2 |].
    apply Hnow. exact Hv.
  - destruct (loop_iter select1 env le st) as [e | [st' | st']]; try exact I.
    apply IH. exact Hlater.
Qed.
End AgreeingRuns.

(** ** The result of the loop and the bound on its iterations *)

Section Fuel.
Context {Sc : Type} {scorer_class : BeamScorer Sc} {slice : Type}.
Variable select : nat -> list score -> result (list entry).
Variable env : Env.



End Fuel.

(** ** Non-finite scores *)

Lemma add_beam_scores_ok (next_token_scores processed : tensor2 score)
    (beam_scores : list score) :
  nrows next_token_scores = List.length beam_scores ->
  same_shape processed next_token_scores = true ->
  wf_tensor processed ->
  exists scored,
    add_beam_scores next_token_scores processed beam_scores = ok scored /\
    ncols scored = ncols processed /\
    nrows scored = nrows processed /\
    wf_tensor scored.
Proof.
  intros Hlen Hshape Hwf. unfold add_beam_scores. rewrite Hlen, Nat.eqb_refl, Hshape. simpl.
  eexists. split; [reflexivity |]. simpl. split; [reflexivity |].
  unfold same_shape in Hshape. apply andb_true_iff in Hshape. destruct Hshape as [_ Hr].
  apply Nat.eqb_eq in Hr. split.
  - unfold nrows in *. simpl. rewrite length_map, length_combine. lia.
  - unfold wf_tensor in *. simpl. rewrite Forall_map. apply Forall_forall.
    intros [row s] Hin. simpl. rewrite length_map.
    rewrite Forall_forall in Hwf. apply Hwf. eapply in_combine_l. exact Hin.
Qed.

(** The chain has an [InfNanRemoveLogitsProcessor] only if
    [remove_invalid_values] is on or the caller brought one. *)
Lemma inf_nan_remove_only_on_request (config : Config.t) (a : LP.args)
    (chain : list processor) :
  _get_logits_processor config a = ok chain ->
  or_config (LP.remove_invalid_values a) (Config.remove_invalid_values config)
  <> Some true ->
  In InfNanRemoveLogitsProcessor chain ->
  exists custom,
    LP.logits_processor a = Some custom /\ In InfNanRemoveLogitsProcessor custom.
Proof.
  intros H Hoff Hin.
  destruct (default_chain_registered config a chain H)
    as [defaults [custom [Hc [[_ Hinv] Hchain]]]].
  exists custom. split; [exact Hc |].
  subst chain. apply in_app_or in Hin. destruct Hin as [Hin | Hin].
  - contradiction (Hoff (Hinv Hin)).
  - apply in_app_or in Hin. destruct Hin as [Hin | Hin]; [exact Hin |].
    destruct (LP.renormalize_logits a) as [[|] |]; simpl in Hin;
      try contradiction.
    destruct Hin as [Hin | []]. discriminate Hin.
Qed.

(** C6, as the code has it: without [remove_invalid_values] the chain has
    no rule that removes non-finite scores unless the caller supplies one,
    and a step of [beam_search] does not test its scores for finiteness:
    whatever the scores are, the step hands the sums to the selection,
    which returns candidates, and the step returns as soon as the rules,
    the scorer and the gathering of the parent rows return. *)
Theorem non_finite_scores_pass {Sc : Type} {scorer_class : BeamScorer Sc} {slice : Type}
    (select : nat -> list score -> result (list entry))
    (env : Env) (config : Config.t) (a : LP.args) (le : loop_env)
    (st : loop_state Sc slice) (outputs processed : tensor2 score) :
  meets_topk_contract select ->
  (forall chain,
     _get_logits_processor config a = ok chain ->
     or_config (LP.remove_invalid_values a) (Config.remove_invalid_values config)
     <> Some true ->
     In InfNanRemoveLogitsProcessor chain ->
     exists custom,
       LP.logits_processor a = Some custom /\ In InfNanRemoveLogitsProcessor custom) /\
  (le_return_dict_in_generate le = false ->
   st_past st = None ->
   apply_processors env (le_logits_processor le) (st_input_ids st)
     (log_softmax env outputs) = ok processed ->
   wf_tensor processed ->
   same_shape processed (log_softmax env outputs) = true ->
   nrows processed = List.length (st_beam_scores st) ->
   nrows processed = (le_batch_size le * le_num_beams le)%nat ->
   (2 * le_num_beams le <= le_num_beams le * ncols processed)%nat ->
   exists scored c,
     add_beam_scores (log_softmax env outputs) processed (st_beam_scores st) = ok scored /\
     select_candidates select (le_batch_size le) (le_num_beams le) scored = ok c /\
     forall beam_scorer out gathered input_ids,
       process (st_scorer st) (st_input_ids st) c (le_pad_token_id le)
         (le_eos_token_id le) (st_beam_indices st) = ok (beam_scorer, out) ->
       gather_rows (st_input_ids st) (next_beam_indices out) = ok gathered ->
       cat_column gathered (next_beam_tokens out) = ok input_ids ->
       beam_step select env le outputs st
       = ok (LoopState input_ids None (next_beam_scores out) (S (st_cur_len st))
               beam_scorer (st_scores st) (st_beam_indices st) (Some c)
               (st_this_peer_finished st) (st_iteration st))).
Proof.
  intros Hselect.
  split; [intros chain; apply inf_nan_remove_only_on_request |].
  intros Hrd Hpast Hproc Hwf Hshape Hlen Hrows Hk.
  assert (Hshape' := Hshape). unfold same_shape in Hshape'.
  apply andb_true_iff in Hshape'. destruct Hshape' as [_ Hnr]. apply Nat.eqb_eq in Hnr.
  destruct (add_beam_scores_ok (log_softmax env outputs) processed (st_beam_scores st))
    as [scored [Hadd [Hcols [Hnrows Hwfs]]]]; [congruence | exact Hshape | exact Hwf |].
  destruct (select_candidates_groups select (le_batch_size le) (le_num_beams le) scored)
    as [top [Hsel _]];
    [exact Hselect | exact Hwfs | congruence | rewrite Hcols; exact Hk |].
  exists scored. eexists. split; [exact Hadd |]. split; [exact Hsel |].
  intros beam_scorer out gathered input_ids Hprocess Hgather Hcat.
  unfold beam_step, adjust_logits_during_generation.
  rewrite Hproc. cbn [rbind ok]. rewrite Hadd. cbn [rbind ok].
  rewrite Hrd. cbn [andb rbind ok].
  rewrite Hsel. cbn [rbind ok]. rewrite Hprocess. cbn [rbind ok].
  rewrite Hgather. cbn [rbind ok].
  rewrite Hcat. cbn [rbind ok]. rewrite Hpast. cbn [rbind ok].
  destruct (st_beam_indices st); reflexivity.
Qed.

Lemma non_finite_scores_pass_witness :
  (meets_topk_contract topk_other_ties /\
   le_return_dict_in_generate (Fixture.loop_env0 [MaxLengthCriteria 3] false) = false /\
   log_softmax (Fixture.constant_env [Fin (-1); Fin (-3); NegInf] 0)
     (Tensor2 3 [[Fin (-1); Fin (-3); NegInf]; [Fin (-1); Fin (-3); NegInf]])
   = Tensor2 3 [[Fin (-1); Fin (-3); NegInf]; [Fin (-1); Fin (-3); NegInf]] /\
   wf_tensor (Tensor2 3 [[Fin (-1); Fin (-3); NegInf]; [Fin (-1); Fin (-3); NegInf]]) /\
   has_non_finite (Tensor2 3 [[Fin (-1); Fin (-3); NegInf]; [Fin (-1); Fin (-3); NegInf]])) /\
  exists scored c,
    add_beam_scores (Tensor2 3 [[Fin (-1); Fin (-3); NegInf]; [Fin (-1); Fin (-3); NegInf]])
      (Tensor2 3 [[Fin (-1); Fin (-3); NegInf]; [Fin (-1); Fin (-3); NegInf]])
      (st_beam_scores Fixture.state0) = ok scored /\
    select_candidates topk_other_ties 1 2 scored = ok c.
Proof.
  assert (Hwf : wf_tensor (Tensor2 3 [[Fin (-1); Fin (-3); NegInf]; [Fin (-1); Fin (-3); NegInf]]))
    by (repeat constructor).
  split.
  - split; [exact topk_other_ties_meets_contract |]. split; [reflexivity |].
    split; [reflexivity |]. split; [exact Hwf |].
    exists [Fin (-1); Fin (-3); NegInf], NegInf. simpl. auto 10.
  - destruct (proj2 (non_finite_scores_pass topk_other_ties
                       (Fixture.constant_env [Fin (-1); Fin (-3); NegInf] 0)
                       Fixture.plain_config Fixture.bare_args
                       (Fixture.loop_env0 [MaxLengthCriteria 3] false) Fixture.state0
                       (Tensor2 3 [[Fin (-1); Fin (-3); NegInf]; [Fin (-1); Fin (-3); NegInf]])
                       (Tensor2 3 [[Fin (-1); Fin (-3); NegInf]; [Fin (-1); Fin (-3); NegInf]])
                       topk_other_ties_meets_contract)
                eq_refl eq_refl eq_refl Hwf eq_refl eq_refl eq_refl ltac:(simpl; lia))
      as [scored [c [Hadd [Hsel _]]]].
    exists scored, c. split; [exact Hadd | exact Hsel].
Defined.

(** One step of [generate] on all-NaN scores, told by the selection. *)
Lemma generate_on_nan_scores (select : nat -> list score -> result (list entry))
    (sel : list entry) :
  select 4%nat [NaN; NaN; NaN; NaN; NaN; NaN] = ok sel ->
  (forall st',
     loop_iter (fun _ _ => ok sel) (Fixture.constant_env [Fin (-1); PosInf; Fin (-3)] 0)
       (Fixture.loop_env0 [MaxLengthCriteria 2] false) Fixture.state0
     <> ok (Continue st')) ->
  generate (slice := unit) Fixture.new_scorer select
    (Fixture.constant_env [Fin (-1); PosInf; Fin (-3)] 0) 5 Fixture.self None
    (Fixture.generate_args None (Some 1))
  = generate (slice := unit) Fixture.new_scorer (fun _ _ => ok sel)
      (Fixture.constant_env [Fin (-1); PosInf; Fin (-3)] 0) 5 Fixture.self None
      (Fixture.generate_args None (Some 1)).
Proof.
  intros Hsel Hbreak. apply generate_agrees.
  intros w call w' le st Hsetup Hinit.
  vm_compute in Hsetup. inversion Hsetup; subst w call. clear Hsetup.
  vm_compute in Hinit. inversion Hinit; subst w' le st. clear Hinit.
  apply run_agrees_first.
  - match goal with
    | |- match ?X with _ => _ end => let v := eval vm_compute in X in change X with v
    end.
    cbv beta iota. intros v Hv. vm_compute in Hv. destruct Hv as [Hv | []]. subst v.
    exact Hsel.
  - intros st' Hst'. exfalso. exact (Hbreak st' Hst').
Qed.

(** C6, as stated, fails: with [remove_invalid_values] unset [generate]
    raises nothing and returns a sequence, whichever way the top-k
    primitive orders equal scores, when the log-probabilities of every row
    hold [-inf] for the end-of-sequence token (a token the model rules
    out), and when the logits of every row hold [+inf], which [log_softmax]
    turns into NaN throughout. *)
Lemma generate_with_non_finite_scores :
  or_config (G.remove_invalid_values (Fixture.generate_args None (Some 1)))
    (Config.remove_invalid_values (config Fixture.self)) = None /\
  forward
    (Fixture.constant_env [Fin (-1); Fin (-3); NegInf; Fin (-7); Fin (-9); Fin (-11)] 0)
    (Tensor2 1 [[0]; [0]])
  = ok (Tensor2 6 [[Fin (-1); Fin (-3); NegInf; Fin (-7); Fin (-9); Fin (-11)];
                   [Fin (-1); Fin (-3); NegInf; Fin (-7); Fin (-9); Fin (-11)]]) /\
  log_softmax
    (Fixture.constant_env [Fin (-1); Fin (-3); NegInf; Fin (-7); Fin (-9); Fin (-11)] 0)
    (Tensor2 6 [[Fin (-1); Fin (-3); NegInf; Fin (-7); Fin (-9); Fin (-11)];
                [Fin (-1); Fin (-3); NegInf; Fin (-7); Fin (-9); Fin (-11)]])
  = Tensor2 6 [[Fin (-1); Fin (-3); NegInf; Fin (-7); Fin (-9); Fin (-11)];
               [Fin (-1); Fin (-3); NegInf; Fin (-7); Fin (-9); Fin (-11)]] /\
  has_non_finite
    (Tensor2 6 [[Fin (-1); Fin (-3); NegInf; Fin (-7); Fin (-9); Fin (-11)];
                [Fin (-1); Fin (-3); NegInf; Fin (-7); Fin (-9); Fin (-11)]]) /\
  (forall select, meets_topk_contract select ->
     exists w sequences,
       generate (slice := unit) Fixture.new_scorer select
         (Fixture.constant_env [Fin (-1); Fin (-3); NegInf; Fin (-7); Fin (-9); Fin (-11)] 0)
         5 Fixture.self None (Fixture.generate_args None (Some 1))
       = (w, ok (Some sequences))) /\
  forward (Fixture.constant_env [Fin (-1); PosInf; Fin (-3)] 0) (Tensor2 1 [[0]; [0]])
  = ok (Tensor2 3 [[Fin (-1); PosInf; Fin (-3)]; [Fin (-1); PosInf; Fin (-3)]]) /\
  log_softmax (Fixture.constant_env [Fin (-1); PosInf; Fin (-3)] 0)
    (Tensor2 3 [[Fin (-1); PosInf; Fin (-3)]; [Fin (-1); PosInf; Fin (-3)]])
  = Tensor2 3 [[NaN; NaN; NaN]; [NaN; NaN; NaN]] /\
  (forall select, meets_topk_contract select ->
     exists w sequences,
       generate (slice := unit) Fixture.new_scorer select
         (Fixture.constant_env [Fin (-1); PosInf; Fin (-3)] 0) 5 Fixture.self None
         (Fixture.generate_args None (Some 1))
       = (w, ok (Some sequences))).
Proof.
  split; [reflexivity |]. split; [reflexivity |]. split; [reflexivity |].
  split; [| split; [| split; [reflexivity | split; [reflexivity |]]]].
  - exists [Fin (-1); Fin (-3); NegInf; Fin (-7); Fin (-9); Fin (-11)], NegInf.
    simpl. auto 10.
  - intros select Hselect. exists [], (Tensor2 2 [[0; 0]]).
    rewrite <- (generate_agrees topk select).
    + vm_compute. reflexivity.
    + intros w call w' le st Hsetup Hinit.
      apply run_clear_cut_agrees; [exact topk_meets_contract | exact Hselect |].
      vm_compute in Hsetup. inversion Hsetup; subst w call. clear Hsetup.
      vm_compute in Hinit. inversion Hinit; subst w' le st. clear Hinit.
      vm_compute. reflexivity.
  - intros select Hselect.
    destruct (proj1 (Hselect 4%nat [NaN; NaN; NaN; NaN; NaN; NaN]) ltac:(simpl; lia))
      as [sel [Hsel [Hl [Hval _]]]].
    destruct sel as [| [s1 p1] [| [s2 p2] [| [s3 p3] [| [s4 p4] [| ? ?]]]]];
      try discriminate Hl.
    pose proof (Hval _ (or_introl eq_refl)) as V1.
    pose proof (Hval _ (or_intror (or_introl eq_refl))) as V2.
    pose proof (Hval _ (or_intror (or_intror (or_introl eq_refl)))) as V3.
    pose proof (Hval _ (or_intror (or_intror (or_intror (or_introl eq_refl))))) as V4.
    clear Hval Hl. simpl in V1, V2, V3, V4.
    destruct p1 as [| [| [| [| [| [| p1]]]]]]; simpl in V1;
      try (destruct p1; discriminate V1); inversion V1; subst s1; clear V1;
    (destruct p2 as [| [| [| [| [| [| p2]]]]]]; simpl in V2;
      try (destruct p2; discriminate V2); inversion V2; subst s2; clear V2);
    (destruct p3 as [| [| [| [| [| [| p3]]]]]]; simpl in V3;
      try (destruct p3; discriminate V3); inversion V3; subst s3; clear V3);
    (destruct p4 as [| [| [| [| [| [| p4]]]]]]; simpl in V4;
      try (destruct p4; discriminate V4); inversion V4; subst s4; clear V4);
    (rewrite (generate_on_nan_scores select _ Hsel);
     [vm_compute; eexists; eexists; reflexivity
     | intros st' Hst'; vm_compute in Hst'; discriminate Hst']).
Qed.

(** ** Determinism *)



Example beam_search_run :
  beam_search (slice := unit) topk
    (Fixture.constant_env [Fin (-1); Fin (-2); Fin (-3)] 0) Fixture.plain_config 5
    Fixture.scorer2 None (Fixture.search_args (Some [MaxLengthCriteria 3]) false)
  = ([], ok (Some (Tensor2 3 [[0; 0; 0]]))).
Proof. vm_compute. reflexivity. Qed.

Example beam_search_clear_cut_run :
  beam_search (slice := unit) topk (Fixture.table_env 5 Fixture.spread_rows 0)
    Fixture.open_config 5 Fixture.scorer2_keep2 None
    (Fixture.search_args (Some [MaxLengthCriteria 4]) false)
  = ([], ok (Some (Tensor2 4 [[0; 0; 0; 0]; [0; 0; 0; 1]]))).
Proof. vm_compute. reflexivity. Qed.


(** * Further properties of the code *)

(** ** More on [mapM] *)

Lemma mapM_map {A B C : Type} (f : B -> result C) (g : A -> B) (l : list A) :
  mapM f (map g l) = mapM (fun x => f (g x)) l.
Proof.
  induction l as [| x l IH]; simpl; [reflexivity | rewrite IH; reflexivity].
Qed.

Lemma mapM_id {A : Type} (f : A -> result A) (l : list A) :
  (forall x, In x l -> f x = ok x) -> mapM f l = ok l.
Proof.
  induction l as [| x l IH]; intros H; simpl; [reflexivity |].
  rewrite (H x (or_introl eq_refl)). cbn [rbind ok].
  rewrite IH by (intros y Hy; apply H; right; exact Hy). reflexivity.
Qed.

(** When every failure of [f] is the exception [e], one failing element
    makes the whole traversal raise [e]. *)
Lemma mapM_raise {A B : Type} (f : A -> result B) (e : exn) (l : list A) :
  (forall x e', In x l -> f x = raise e' -> e' = e) ->
  (exists x e', In x l /\ f x = raise e') ->
  mapM f l = raise e.
Proof.
  induction l as [| a l IH]; intros Hsame [x [e' [Hin Hx]]]; [destruct Hin |].
  simpl. destruct (f a) as [ea | y] eqn:Ha.
  - rewrite (Hsame a ea (or_introl eq_refl) Ha). reflexivity.
  - cbn [rbind]. rewrite IH; [reflexivity | |].
    + intros z ez Hz. apply Hsame. right. exact Hz.
    + destruct Hin as [Hin | Hin].
      * subst x. unfold raise in Hx. rewrite Hx in Ha. discriminate Ha.
      * exists x, e'. split; assumption.
Qed.

(** Two traversals in a row: [g] on the results of [f] is [h] on the
    elements. *)
Lemma mapM_then {A B C : Type} (f : A -> result B) (g : B -> result C)
    (h : A -> result C) (l : list A) (r : list B) :
  mapM f l = ok r ->
  (forall x y, In x l -> f x = ok y -> g y = h x) ->
  mapM g r = mapM h l.
Proof.
  revert r. induction l as [| x l IH]; simpl; intros r H Hgh.
  - inversion H. reflexivity.
  - destruct (f x) as [e | y] eqn:Hf; [discriminate H |]. cbn [rbind] in H.
    destruct (mapM f l) as [e | ys] eqn:Hm; [discriminate H |]. cbn [rbind] in H.
    inversion H; subst r. simpl.
    rewrite (Hgh x y (or_introl eq_refl) Hf).
    rewrite (IH ys eq_refl) by (intros a b Ha; apply Hgh; right; exact Ha).
    reflexivity.
Qed.

(** ** [shift_tokens_right]: what the result never holds and never reads *)

(** X1: a result of [shift_tokens_right] holds no -100 when the pad token
    is not -100 itself. *)
Theorem shift_tokens_right_no_ignore_index (m : tensor2 Z) (pad start : Z)
    (r : tensor2 Z) :
  pad <> -100 ->
  shift_tokens_right m (Some pad) start = ok r ->
  forall row, In row (rows r) -> ~ In (-100) row.
Proof.
  intros Hpad H row Hrow Hin.
  destruct (ncols m) as [| n] eqn:En.
  - unfold shift_tokens_right, assign_col0, assign_from_col1, new_zeros in H.
    simpl in H. rewrite En in H. discriminate H.
  - rewrite shift_tokens_right_rows in H by lia. inversion H; subst r. simpl in Hrow.
    apply in_map_iff in Hrow. destruct Hrow as [row0 [Hrow0 _]]. subst row.
    apply (in_map_iff (fill_label pad) (start :: removelast row0)) in Hin.
    destruct Hin as [x [Hx _]].
    unfold fill_label in Hx. destruct (x =? -100) eqn:E.
    + contradiction.
    + apply Z.eqb_neq in E. contradiction.
Qed.

Lemma shift_tokens_right_no_ignore_index_witness :
  (1 <> -100 /\
   shift_tokens_right (Tensor2 3 [[5; -100; 7]; [-100; 9; -100]]) (Some 1) 2
   = ok (Tensor2 3 [[2; 5; 1]; [2; 1; 9]])) /\
  ~ In (-100) [2; 1; 9].
Proof.
  split; [split; [lia | reflexivity] |].
  apply (shift_tokens_right_no_ignore_index
           (Tensor2 3 [[5; -100; 7]; [-100; 9; -100]]) 1 2
           (Tensor2 3 [[2; 5; 1]; [2; 1; 9]]));
    [lia | reflexivity | simpl; auto].
Defined.

(** X2: the last column of the input never reaches the result: two
    matrices of the same width that agree on all columns but the last are
    shifted to the same result (or to the same exception). *)
Theorem shift_tokens_right_ignores_last_column (m1 m2 : tensor2 Z)
    (pad : option Z) (start : Z) :
  ncols m1 = ncols m2 ->
  map (@removelast Z) (rows m1) = map (@removelast Z) (rows m2) ->
  shift_tokens_right m1 pad start = shift_tokens_right m2 pad start.
Proof.
  intros Hc Hr.
  destruct (ncols m1) as [| n] eqn:En.
  - unfold shift_tokens_right, assign_col0, assign_from_col1, new_zeros. simpl.
    rewrite <- Hc, En. reflexivity.
  - destruct pad as [p |].
    + rewrite !shift_tokens_right_rows by lia. rewrite <- Hc, En. f_equal. f_equal.
      transitivity (map (fun l => map (fill_label p) (start :: l))
                        (map (@removelast Z) (rows m1))).
      * rewrite map_map. reflexivity.
      * rewrite Hr, map_map. reflexivity.
    + unfold shift_tokens_right, assign_col0, assign_from_col1, new_zeros. simpl.
      rewrite <- Hc, En. reflexivity.
Qed.

Lemma shift_tokens_right_ignores_last_column_witness :
  (ncols (Tensor2 3 [[5; 6; 7]]) = ncols (Tensor2 3 [[5; 6; 99]]) /\
   map (@removelast Z) (rows (Tensor2 3 [[5; 6; 7]]))
   = map (@removelast Z) (rows (Tensor2 3 [[5; 6; 99]]))) /\
  shift_tokens_right (Tensor2 3 [[5; 6; 7]]) (Some 1) 2
  = shift_tokens_right (Tensor2 3 [[5; 6; 99]]) (Some 1) 2.
Proof.
  split; [split; reflexivity |].
  apply shift_tokens_right_ignores_last_column; reflexivity.
Defined.

(** ** [_reorder_cache]: failure, identity and composition *)

Lemma index_select_raises {slice : Type} (t : past_state slice) (idx : list Z) (e : exn) :
  index_select t idx = raise e -> e = index_select_error.
Proof.
  unfold index_select. induction idx as [| i idx IH]; simpl; intros H; [discriminate H |].
  destruct (i <? 0); [inversion H; reflexivity |].
  destruct (nth_error t (Z.to_nat i)); [| inversion H; reflexivity].
  cbn [rbind] in H. destruct (mapM _ idx) as [e' | r]; [| discriminate H].
  cbn [rbind] in H. inversion H; subst e'. apply IH. reflexivity.
Qed.

Lemma index_select_out_of_range {slice : Type} (t : past_state slice) (idx : list Z)
    (i : Z) :
  In i idx -> ~ (0 <= i < Z.of_nat (List.length t)) ->
  index_select t idx = raise index_select_error.
Proof.
  intros Hin Hout. unfold index_select. apply mapM_raise.
  - intros x e' _ Hx. destruct (x <? 0); [inversion Hx; reflexivity |].
    destruct (nth_error t (Z.to_nat x)); [discriminate Hx | inversion Hx; reflexivity].
  - exists i, index_select_error. split; [exact Hin |].
    destruct (Z.ltb_spec i 0) as [Hneg | Hpos]; [reflexivity |].
    destruct (nth_error t (Z.to_nat i)) as [s |] eqn:E; [| reflexivity].
    exfalso. apply Hout. split; [exact Hpos |].
    assert (Hlt : (Z.to_nat i < List.length t)%nat)
      by (apply nth_error_Some; rewrite E; discriminate).
    lia.
Qed.

(** X3: a parent index outside a self-attention state makes
    [_reorder_cache] raise the IndexError of [index_select]; no partly
    reordered cache is returned. *)
Theorem reorder_cache_out_of_range {slice : Type} (past : cache slice) (beam_idx : list Z)
    (layer : layer_past slice) (t : past_state slice) (i : Z) :
  In layer past -> In t (firstn 2 layer) -> In i beam_idx ->
  ~ (0 <= i < Z.of_nat (List.length t)) ->
  _reorder_cache past beam_idx = raise index_select_error.
Proof.
  intros Hlayer Ht Hi Hout. unfold _reorder_cache.
  assert (Hstates : forall (l : layer_past slice) e,
            mapM (fun st => index_select st beam_idx) (firstn 2 l) = raise e ->
            e = index_select_error).
  { intros l. induction (firstn 2 l) as [| s ss IH]; simpl; intros e H; [discriminate H |].
    destruct (index_select s beam_idx) as [e' | r] eqn:E.
    - cbn [rbind] in H. inversion H; subst e'. eapply index_select_raises. exact E.
    - cbn [rbind] in H. destruct (mapM _ ss) as [e' | rs]; [| discriminate H].
      cbn [rbind] in H. inversion H; subst e'. apply IH. reflexivity. }
  apply mapM_raise.
  - intros l e' _ Hl.
    destruct (mapM (fun st => index_select st beam_idx) (firstn 2 l)) as [e | sel] eqn:E;
      [| discriminate Hl].
    cbn [rbind] in Hl. inversion Hl; subst e'. apply (Hstates l). exact E.
  - exists layer, index_select_error. split; [exact Hlayer |].
    rewrite (mapM_raise (fun st => index_select st beam_idx) index_select_error);
      [reflexivity | |].
    + intros s e' _ Hs. eapply index_select_raises. exact Hs.
    + exists t, index_select_error. split; [exact Ht |].
      eapply index_select_out_of_range; eassumption.
Qed.

Lemma reorder_cache_out_of_range_witness :
  (In 4 [2; 0; 4; 1] /\ ~ (0 <= 4 < Z.of_nat (List.length ["k0"; "k1"; "k2"; "k3"]%string))) /\
  _reorder_cache
    [[["k0"; "k1"; "k2"; "k3"]; ["v0"; "v1"; "v2"; "v3"]; ["ck"]; ["cv"]]]%string
    [2; 0; 4; 1]
  = raise index_select_error.
Proof.
  split; [split; [simpl; auto | simpl; lia] |].
  apply (reorder_cache_out_of_range _ _
           [["k0"; "k1"; "k2"; "k3"]; ["v0"; "v1"; "v2"; "v3"]; ["ck"]; ["cv"]]%string
           ["k0"; "k1"; "k2"; "k3"]%string 4);
    [left; reflexivity | left; reflexivity | simpl; auto | simpl; lia].
Defined.

Lemma index_select_identity {slice : Type} (t : past_state slice) :
  index_select t (identity_beam_idx (List.length t)) = ok t.
Proof.
  unfold index_select, identity_beam_idx. rewrite mapM_map.
  assert (H : forall (pre : list slice),
            mapM (fun x : nat =>
                    if Z.of_nat x <? 0 then raise (IndexError "index out of range in self")
                    else match nth_error (pre ++ t) (Z.to_nat (Z.of_nat x)) with
                         | Some s => ok s
                         | None => raise (IndexError "index out of range in self")
                         end) (seq (List.length pre) (List.length t)) = ok t).
  { induction t as [| s t IH]; intros pre; simpl; [reflexivity |].
    destruct (Z.ltb_spec (Z.of_nat (List.length pre)) 0) as [Hn | _]; [lia |].
    rewrite Nat2Z.id, nth_error_app2, Nat.sub_diag by lia. simpl. cbn [rbind ok].
    specialize (IH (pre ++ [s])). rewrite length_app in IH. simpl in IH.
    rewrite Nat.add_1_r, <- app_assoc in IH. simpl in IH. rewrite IH. reflexivity. }
  apply (H []).
Qed.

(** X4: reordering by the identity [0, 1, ..., n-1] returns the cache
    itself, when the self-attention states have [n] beams. *)
Theorem reorder_cache_identity {slice : Type} (past : cache slice) (n : nat) :
  (forall layer t, In layer past -> In t (firstn 2 layer) -> List.length t = n) ->
  _reorder_cache past (identity_beam_idx n) = ok past.
Proof.
  intros Hn. unfold _reorder_cache. apply mapM_id. intros layer Hlayer.
  rewrite (mapM_id (fun st => index_select st (identity_beam_idx n))).
  - cbn [rbind ok]. rewrite firstn_skipn. reflexivity.
  - intros t Ht. rewrite <- (Hn layer t Hlayer Ht). apply index_select_identity.
Qed.

Lemma reorder_cache_identity_witness :
  (forall layer t,
     In layer [[["k0"; "k1"; "k2"]; ["v0"; "v1"; "v2"]; ["ck"]; ["cv"]]]%string ->
     In t (firstn 2 layer) -> List.length t = 3%nat) /\
  _reorder_cache [[["k0"; "k1"; "k2"]; ["v0"; "v1"; "v2"]; ["ck"]; ["cv"]]]%string
    (identity_beam_idx 3)
  = ok [[["k0"; "k1"; "k2"]; ["v0"; "v1"; "v2"]; ["ck"]; ["cv"]]]%string.
Proof.
  assert (H : forall layer t,
            In layer [[["k0"; "k1"; "k2"]; ["v0"; "v1"; "v2"]; ["ck"]; ["cv"]]]%string ->
            In t (firstn 2 layer) -> List.length t = 3%nat).
  { intros layer t [Hl | []] Ht. subst layer. simpl in Ht.
    destruct Ht as [Ht | [Ht | []]]; subst t; reflexivity. }
  split; [exact H |]. apply reorder_cache_identity. exact H.
Defined.

Lemma index_select_then {slice : Type} (t t' : past_state slice) (first second : list Z) :
  index_select t first = ok t' ->
  (forall j, In j second -> 0 <= j < Z.of_nat (List.length first)) ->
  index_select t' second = index_select t (compose_beam_idx first second).
Proof.
  intros H1 Hr. unfold compose_beam_idx.
  unfold index_select at 1 2. rewrite mapM_map. apply mapM_ext. intros j Hj.
  specialize (Hr j Hj).
  destruct (Z.ltb_spec j 0) as [Hneg | _]; [lia |].
  assert (Hlt : (Z.to_nat j < List.length first)%nat) by lia.
  destruct (nth_error first (Z.to_nat j)) as [b |] eqn:Hb;
    [| apply nth_error_None in Hb; lia].
  rewrite (nth_error_nth _ _ 0 Hb).
  destruct (mapM_nth _ _ _ H1 _ _ Hb) as [y [Hy Hfy]].
  rewrite Hy. destruct (b <? 0); [discriminate Hfy |].
  destruct (nth_error t (Z.to_nat b)); [| discriminate Hfy].
  symmetry. exact Hfy.
Qed.

(** X5: two reorderings in a row are one reordering by the composed
    parent indices [first[second[j]]], as long as the second indices point
    into the first. *)
Theorem reorder_cache_twice {slice : Type} (past once : cache slice)
    (first second : list Z) :
  _reorder_cache past first = ok once ->
  (forall j, In j second -> 0 <= j < Z.of_nat (List.length first)) ->
  _reorder_cache once second = _reorder_cache past (compose_beam_idx first second).
Proof.
  intros H1 Hr. unfold _reorder_cache at 1 2.
  refine (mapM_then _ _ _ past once H1 _). intros layer layer' _ Hl.
  destruct (mapM (fun st => index_select st first) (firstn 2 layer)) as [e | sel] eqn:Hsel;
    [discriminate Hl |].
  cbn [rbind] in Hl. remember (skipn 2 layer) as rest eqn:Hrest.
  assert (Hl' : layer' = sel ++ rest) by (unfold ok in Hl; congruence).
  subst layer'. clear Hl.
  pose proof (mapM_length _ _ _ Hsel) as Hlen. rewrite length_firstn in Hlen.
  assert (Hfirst : firstn 2 (sel ++ rest) = sel /\ skipn 2 (sel ++ rest) = rest).
  { destruct (Nat.le_gt_cases 2 (List.length layer)) as [Hge | Hlt].
    - assert (Hs : List.length sel = 2%nat) by lia.
      rewrite <- Hs. rewrite firstn_app, skipn_app, Nat.sub_diag.
      rewrite firstn_all, skipn_all. simpl. rewrite app_nil_r. split; reflexivity.
    - assert (Hnil : rest = []) by (subst rest; apply skipn_all2; lia).
      rewrite Hnil, app_nil_r.
      rewrite firstn_all2, skipn_all2 by lia. split; reflexivity. }
  destruct Hfirst as [Hf Hs]. cbv beta. rewrite Hf, Hs.
  rewrite (mapM_then _ (fun st => index_select st second)
             (fun st => index_select st (compose_beam_idx first second)) _ _ Hsel);
    [reflexivity |].
  intros t t' _ Ht. apply index_select_then; assumption.
Qed.

Lemma reorder_cache_twice_witness :
  (_reorder_cache [[["k0"; "k1"; "k2"]; ["v0"; "v1"; "v2"]; ["ck"]; ["cv"]]]%string [2; 2; 0]
   = ok [[["k2"; "k2"; "k0"]; ["v2"; "v2"; "v0"]; ["ck"]; ["cv"]]]%string /\
   forall j, In j [1; 2; 2] -> 0 <= j < Z.of_nat (List.length [2; 2; 0])) /\
  _reorder_cache [[["k2"; "k2"; "k0"]; ["v2"; "v2"; "v0"]; ["ck"]; ["cv"]]]%string [1; 2; 2]
  = _reorder_cache [[["k0"; "k1"; "k2"]; ["v0"; "v1"; "v2"]; ["ck"]; ["cv"]]]%string
      (compose_beam_idx [2; 2; 0] [1; 2; 2]).
Proof.
  assert (Hr : forall j, In j [1; 2; 2] -> 0 <= j < Z.of_nat (List.length [2; 2; 0]))
    by (simpl; intros j [H | [H | [H | []]]]; subst j; lia).
  split; [split; [reflexivity | exact Hr] |].
  apply (reorder_cache_twice _ _ [2; 2; 0] [1; 2; 2]); [reflexivity | exact Hr].
Defined.

(** ** [_merge_criteria_processor_list] and [_get_stopping_criteria] *)

Lemma merge_ok_iff {A T : Type} (type_of : A -> T) (type_eqb : T -> T -> bool)
    (object_type : string) (default custom r : list A) :
  _merge_criteria_processor_list type_of type_eqb object_type default (Some custom) = ok r
  <-> r = default ++ custom /\
      forall d c, In d default -> In c custom -> type_eqb (type_of c) (type_of d) = false.
Proof.
  unfold _merge_criteria_processor_list. destruct custom as [| c0 custom].
  - simpl. rewrite app_nil_r. split.
    + intros H. inversion H. split; [reflexivity | intros d c _ []].
    + intros [Hr _]. subst r. reflexivity.
  - cbn [List.length Nat.eqb].
    destruct (existsb _ default) eqn:E.
    + split; [discriminate |]. intros [_ Hno]. exfalso.
      apply existsb_exists in E. destruct E as [d [Hd Hc]].
      apply existsb_exists in Hc. destruct Hc as [c [Hc Heq]].
      rewrite (Hno d c Hd Hc) in Heq. discriminate Heq.
    + split.
      * intros H. inversion H. split; [reflexivity |]. intros d c Hd Hc.
        destruct (type_eqb (type_of c) (type_of d)) eqn:Heq; [| reflexivity].
        assert (Ht : existsb
                  (fun default0 =>
                     existsb (fun custom0 => type_eqb (type_of custom0) (type_of default0))
                       (c0 :: custom)) default = true).
        { apply existsb_exists. exists d. split; [exact Hd |].
          apply existsb_exists. exists c. split; [exact Hc | exact Heq]. }
        rewrite E in Ht. discriminate Ht.
      * intros [Hr _]. subst r. reflexivity.
Qed.

Lemma merge_clash {A T : Type} (type_of : A -> T) (type_eqb : T -> T -> bool)
    (object_type : string) (default custom : list A) (d c : A) :
  In d default -> In c custom -> type_eqb (type_of c) (type_of d) = true ->
  _merge_criteria_processor_list type_of type_eqb object_type default (Some custom)
  = raise (ValueError (duplicate_message object_type)).
Proof.
  intros Hd Hc Heq. unfold _merge_criteria_processor_list.
  destruct custom as [| c0 custom]; [destruct Hc |]. cbn [List.length Nat.eqb].
  replace (existsb _ default) with true; [reflexivity |].
  symmetry. apply existsb_exists. exists d. split; [exact Hd |].
  apply existsb_exists. exists c. split; [exact Hc | exact Heq].
Qed.

Lemma criterion_type_max_length (c : criterion) :
  criterion_type_eqb (type_of_criterion c) TyMaxLength = true
  <-> exists n, c = MaxLengthCriteria n.
Proof.
  destruct c as [n | t | k f]; simpl; split; intros H.
  - exists n. reflexivity.
  - reflexivity.
  - discriminate H.
  - destruct H as [m H]. discriminate H.
  - discriminate H.
  - destruct H as [m H]. discriminate H.
Qed.

Lemma criterion_type_max_time (c : criterion) :
  criterion_type_eqb (type_of_criterion c) TyMaxTime = true
  <-> exists t, c = MaxTimeCriteria t.
Proof.
  destruct c as [n | t | k f]; simpl; split; intros H.
  - discriminate H.
  - destruct H as [m H]. discriminate H.
  - exists t. reflexivity.
  - reflexivity.
  - discriminate H.
  - destruct H as [m H]. discriminate H.
Qed.

(** The criteria [_get_stopping_criteria] creates itself. *)
Lemma get_stopping_criteria_merge (max_length : option Z) (max_time : option Q)
    (custom : option (list criterion)) :
  _get_stopping_criteria max_length max_time custom
  = _merge_criteria_processor_list type_of_criterion criterion_type_eqb "stopping criteria"
      (match max_length with Some n => [MaxLengthCriteria n] | None => [] end
       ++ match max_time with Some t => [MaxTimeCriteria t] | None => [] end)
      custom.
Proof. destruct max_length, max_time; reflexivity. Qed.

(** X6: [_get_stopping_criteria] returns exactly when the caller's list
    repeats none of the criteria that the arguments create: no max-length
    criterion beside [max_length], no max-time criterion beside
    [max_time]; it then returns the max-length criterion, the max-time
    criterion and the caller's criteria, in this order. *)
Theorem get_stopping_criteria_returns (max_length : option Z) (max_time : option Q)
    (custom r : list criterion) :
  _get_stopping_criteria max_length max_time (Some custom) = ok r
  <-> r = match max_length with Some n => [MaxLengthCriteria n] | None => [] end
          ++ match max_time with Some t => [MaxTimeCriteria t] | None => [] end
          ++ custom /\
      (max_length <> None -> forall n, ~ In (MaxLengthCriteria n) custom) /\
      (max_time <> None -> forall t, ~ In (MaxTimeCriteria t) custom).
Proof.
  rewrite get_stopping_criteria_merge, merge_ok_iff, <- app_assoc. split.
  - intros [Hr Hno]. split; [exact Hr |]. split.
    + intros Hml n Hin. destruct max_length as [m |]; [| contradiction].
      specialize (Hno (MaxLengthCriteria m) (MaxLengthCriteria n)).
      simpl in Hno. discriminate Hno; auto.
    + intros Hmt t Hin. destruct max_time as [q |]; [| contradiction].
      specialize (Hno (MaxTimeCriteria q) (MaxTimeCriteria t)).
      simpl in Hno. discriminate Hno; [| exact Hin].
      apply in_or_app. right. left. reflexivity.
  - intros [Hr [Hml Hmt]]. split; [exact Hr |]. intros d c Hd Hc.
    destruct (criterion_type_eqb (type_of_criterion c) (type_of_criterion d)) eqn:E;
      [exfalso | reflexivity].
    apply in_app_or in Hd. destruct Hd as [Hd | Hd].
    + destruct max_length as [m |]; [| destruct Hd].
      destruct Hd as [Hd | []]. subst d.
      apply criterion_type_max_length in E. destruct E as [n E]. subst c.
      apply (Hml ltac:(discriminate) n Hc).
    + destruct max_time as [q |]; [| destruct Hd].
      destruct Hd as [Hd | []]. subst d.
      apply criterion_type_max_time in E. destruct E as [t E]. subst c.
      apply (Hmt ltac:(discriminate) t Hc).
Qed.

(** With [max_length] given, a caller's list that holds a max-length
    criterion of its own is refused with the ValueError about a custom
    stopping criterion, whatever its bound. *)
Lemma get_stopping_criteria_duplicate (n m : Z) (max_time : option Q)
    (custom : list criterion) :
  In (MaxLengthCriteria m) custom ->
  _get_stopping_criteria (Some n) max_time (Some custom)
  = raise (ValueError (duplicate_message "stopping criteria")).
Proof.
  intros Hin. rewrite get_stopping_criteria_merge.
  apply (merge_clash _ _ _ _ _ (MaxLengthCriteria n) (MaxLengthCriteria m));
    [left; reflexivity | exact Hin | reflexivity].
Qed.

Lemma get_logits_processor_needs_list (config : Config.t) (a : LP.args) :
  LP.logits_processor a = None -> exists e, _get_logits_processor config a = raise e.
Proof.
  intros Hnone. destruct (_get_logits_processor config a) as [e | chain] eqn:E.
  - exists e. reflexivity.
  - destruct (default_chain_registered config a chain E) as [d [custom [Hc _]]].
    rewrite Hnone in Hc. discriminate Hc.
Qed.

(** ** What [generate] refuses *)

Lemma fails_bind_r_ret {A B : Type} (v : A) (k : A -> M B) :
  fails (k v) -> fails (bind (ret v) k).
Proof.
  intros [w [e H]]. exists w, e. cbv [bind ret ok]. rewrite H. reflexivity.
Qed.

Section GenerateRefuses.
Context {Sc : Type} {scorer_class : BeamScorer Sc} {slice : Type}.
Variable new_scorer : nat -> Z -> Q -> bool -> Z -> result Sc.
Variable select : nat -> list score -> result (list entry).
Variable env : Env.

Lemma generate_setup_fails (fuel : nat) (self : model) (past : option (cache slice))
    (a : G.args) :
  fails (generate_setup new_scorer self a) ->
  fails (generate new_scorer select env fuel self past a).
Proof. intros H. unfold generate. apply fails_bind_l. exact H. Qed.

(** X7: [generate] never returns when the caller's stopping criteria hold
    a max-length criterion: [max_length] is always resolved to a number
    first (from the arguments or the configuration), so the criterion of
    the caller is a duplicate whatever its bound. *)
Theorem generate_refuses_max_length_criterion (fuel : nat) (self : model)
    (past : option (cache slice)) (a : G.args) (custom : list criterion) (m : Z) :
  G.stopping_criteria a = Some custom -> In (MaxLengthCriteria m) custom ->
  fails (generate new_scorer select env fuel self past a).
Proof.
  intros Hc Hin. apply generate_setup_fails. unfold generate_setup.
  apply fails_bind_r; intros pad.
  apply fails_bind_r; intros u1.
  apply fails_bind_r; intros start.
  apply fails_bind_r; intros n.
  apply fails_bind_r; intros u2.
  apply fails_bind_r; intros u3.
  apply fails_bind_r; intros u4.
  apply fails_bind_r; intros chain.
  apply fails_bind_l. rewrite Hc, (get_stopping_criteria_duplicate n m _ custom Hin).
  eexists. eexists. reflexivity.
Qed.

(** X8: [generate] never returns when [logits_processor] or
    [stopping_criteria] is passed as [None] instead of a list (the
    defaults are empty lists). *)
Theorem generate_needs_lists (fuel : nat) (self : model)
    (past : option (cache slice)) (a : G.args) :
  G.logits_processor a = None \/ G.stopping_criteria a = None ->
  fails (generate new_scorer select env fuel self past a).
Proof.
  intros H. apply generate_setup_fails. unfold generate_setup.
  apply fails_bind_r; intros pad.
  apply fails_bind_r; intros u1.
  apply fails_bind_r; intros start.
  apply fails_bind_r; intros n.
  apply fails_bind_r; intros u2.
  apply fails_bind_r; intros u3.
  apply fails_bind_r; intros u4.
  destruct H as [Hp | Hc].
  - apply fails_bind_l.
    match goal with
    | |- fails (lift (_get_logits_processor ?c ?args)) =>
        destruct (get_logits_processor_needs_list c args Hp) as [e He]; rewrite He
    end.
    eexists. eexists. reflexivity.
  - apply fails_bind_r; intros chain.
    apply fails_bind_l. rewrite Hc. rewrite get_stopping_criteria_merge.
    eexists. eexists. reflexivity.
Qed.

(** X9: [generate] never returns when there are more beam groups than
    beams, more sequences to return than beams, or a minimum length above
    [max_length]; arguments that are [None] are read from the
    configuration. *)
Theorem generate_refuses_configuration (fuel : nat) (self : model)
    (past : option (cache slice)) (a : G.args) :
  or_default (G.num_beam_groups a) (Config.num_beam_groups (config self))
    > or_default (G.num_beams a) (Config.num_beams (config self)) \/
  or_default (G.num_return_sequences a) (Config.num_return_sequences (config self))
    > or_default (G.num_beams a) (Config.num_beams (config self)) \/
  (exists ml m,
     G.max_length a = Some ml /\
     or_config (G.min_length a) (Config.min_length (config self)) = Some m /\ m > ml) ->
  fails (generate new_scorer select env fuel self past a).
Proof.
  intros H. apply generate_setup_fails. unfold generate_setup.
  set (num_beams := or_default (G.num_beams a) (Config.num_beams (config self))) in *.
  apply fails_bind_r; intros pad.
  apply fails_bind_r; intros u1.
  apply fails_bind_r; intros start.
  destruct H as [Hg | [Hr | [ml [m [Hml [Hmin Hlt]]]]]].
  - apply fails_bind_r; intros n.
    apply fails_bind_r; intros u2.
    apply fails_bind_r; intros u3.
    apply fails_bind_l.
    destruct (Z.ltb_spec num_beams
                (or_default (G.num_beam_groups a) (Config.num_beam_groups (config self))))
      as [_ | Hge]; [| lia].
    eexists. eexists. reflexivity.
  - apply fails_bind_r; intros n.
    apply fails_bind_r; intros u2.
    apply fails_bind_r; intros u3.
    apply fails_bind_r; intros u4.
    apply fails_bind_r; intros chain.
    apply fails_bind_r; intros criteria.
    apply fails_bind_l.
    destruct (Z.ltb_spec num_beams
                (or_default (G.num_return_sequences a)
                   (Config.num_return_sequences (config self))))
      as [_ | Hge]; [| lia].
    eexists. eexists. reflexivity.
  - rewrite Hml. destruct (G.max_new_tokens a) as [mn |].
    + apply fails_bind_l. eexists. eexists. reflexivity.
    + change (resolve_max_length (config self) (Some ml) None
                (Z.of_nat (ncols (Tensor2 1 (repeat [start] (nrows (G.input_ids a)))))))
        with (@ret Z ml).
      apply fails_bind_r_ret. rewrite Hmin. cbn [some_and].
      destruct (Z.ltb_spec ml m) as [_ | Hge]; [| lia].
      apply fails_bind_l. eexists. eexists. reflexivity.
Qed.
End GenerateRefuses.

Lemma generate_refuses_max_length_criterion_witness :
  (G.stopping_criteria
     (Fixture.custom_args (Some []) (Some [MaxLengthCriteria 30]) None None None)
   = Some [MaxLengthCriteria 30] /\
   In (MaxLengthCriteria 30) [MaxLengthCriteria 30]) /\
  fails (generate (slice := unit) Fixture.new_scorer topk
           (Fixture.constant_env [Fin (-1); Fin (-2); Fin (-3)] 0) 5 Fixture.self None
           (Fixture.custom_args (Some []) (Some [MaxLengthCriteria 30]) None None None)).
Proof.
  split; [split; [reflexivity | left; reflexivity] |].
  apply (generate_refuses_max_length_criterion Fixture.new_scorer topk
           (Fixture.constant_env [Fin (-1); Fin (-2); Fin (-3)] 0) 5 Fixture.self None
           (Fixture.custom_args (Some []) (Some [MaxLengthCriteria 30]) None None None)
           [MaxLengthCriteria 30] 30);
    [reflexivity | left; reflexivity].
Defined.

Lemma generate_needs_lists_witness :
  (G.logits_processor (Fixture.custom_args None (Some []) None None None) = None \/
   G.stopping_criteria (Fixture.custom_args None (Some []) None None None) = None) /\
  fails (generate (slice := unit) Fixture.new_scorer topk
           (Fixture.constant_env [Fin (-1); Fin (-2); Fin (-3)] 0) 5 Fixture.self None
           (Fixture.custom_args None (Some []) None None None)).
Proof.
  split; [left; reflexivity |].
  apply (generate_needs_lists Fixture.new_scorer topk
           (Fixture.constant_env [Fin (-1); Fin (-2); Fin (-3)] 0) 5 Fixture.self None
           (Fixture.custom_args None (Some []) None None None)).
  left. reflexivity.
Defined.

Lemma generate_refuses_configuration_witness :
  or_default (G.num_beam_groups (Fixture.custom_args (Some []) (Some []) None (Some 3) None))
    (Config.num_beam_groups (config Fixture.self))
  > or_default (G.num_beams (Fixture.custom_args (Some []) (Some []) None (Some 3) None))
      (Config.num_beams (config Fixture.self)) /\
  fails (generate (slice := unit) Fixture.new_scorer topk
           (Fixture.constant_env [Fin (-1); Fin (-2); Fin (-3)] 0) 5 Fixture.self None
           (Fixture.custom_args (Some []) (Some []) None (Some 3) None)).
Proof.
  split; [reflexivity |].
  apply (generate_refuses_configuration Fixture.new_scorer topk
           (Fixture.constant_env [Fin (-1); Fin (-2); Fin (-3)] 0) 5 Fixture.self None
           (Fixture.custom_args (Some []) (Some []) None (Some 3) None)).
  left. reflexivity.
Defined.

(** ** [beam_search]: the batch check, and what a step does to the token
       histories *)

Lemma mapM_in {A B : Type} (f : A -> result B) (l : list A) (r : list B) :
  mapM f l = ok r -> forall y, In y r -> exists x, In x l /\ f x = ok y.
Proof.
  revert r. induction l as [| a l IH]; simpl; intros r H y Hy.
  - inversion H; subst r. destruct Hy.
  - destruct (f a) as [e | b] eqn:Hf; [discriminate H |]. cbn [rbind] in H.
    destruct (mapM f l) as [e | bs] eqn:Hm; [discriminate H |]. cbn [rbind] in H.
    inversion H; subst r. destruct Hy as [Hy | Hy].
    + subst y. exists a. split; [left; reflexivity | exact Hf].
    + destruct (IH bs eq_refl y Hy) as [x [Hx Hfx]].
      exists x. split; [right; exact Hx | exact Hfx].
Qed.

Lemma gather_rows_from {A : Type} (t g : tensor2 A) (idx : list Z) :
  gather_rows t idx = ok g ->
  ncols g = ncols t /\ nrows g = List.length idx /\
  forall r, In r (rows g) -> In r (rows t).
Proof.
  unfold gather_rows. intros H.
  destruct (mapM _ idx) as [e | rws] eqn:Hm; [discriminate H |]. cbn [rbind] in H.
  inversion H; subst g. simpl. split; [reflexivity |].
  split; [exact (mapM_length _ _ _ Hm) |].
  intros r Hr. destruct (mapM_in _ _ _ Hm r Hr) as [i [_ Hi]]. cbv beta zeta in Hi.
  destruct (_ <? 0) in Hi; [discriminate Hi |].
  destruct (nth_error (rows t) _) as [r0 |] eqn:Hn; [| discriminate Hi].
  inversion Hi; subst r0. eapply nth_error_In. exact Hn.
Qed.

Lemma cat_column_appends {A : Type} (t t' : tensor2 A) (col : list A) :
  cat_column t col = ok t' ->
  ncols t' = S (ncols t) /\ nrows t' = List.length col /\
  forall r', In r' (rows t') -> exists r c, In r (rows t) /\ In c col /\ r' = r ++ [c].
Proof.
  unfold cat_column, nrows. intros H.
  destruct (Nat.eqb_spec (List.length (rows t)) (List.length col)) as [Hlen | _];
    [| discriminate H].
  inversion H; subst t'. simpl. split; [reflexivity |]. split.
  - rewrite length_map, length_combine. lia.
  - intros r' Hr'. apply in_map_iff in Hr'. destruct Hr' as [[r c] [Heq Hin]].
    exists r, c. split; [eapply in_combine_l; exact Hin |].
    split; [eapply in_combine_r; exact Hin | symmetry; exact Heq].
Qed.

Section Histories.
Context {Sc : Type} {scorer_class : BeamScorer Sc} {slice : Type}.
Variable select : nat -> list score -> result (list entry).
Variable env : Env.

(** X10: [beam_search] raises the ValueError about the batch dimension,
    before the loop and whatever else it is given, when [input_ids] does
    not have [num_beams * batch_size] rows for the scorer's two numbers. *)
Theorem beam_search_batch_dimension (config : Config.t) (fuel : nat) (beam_scorer : Sc)
    (past : option (cache slice)) (a : BS.args) :
  (scorer_num_beams beam_scorer * scorer_batch_size beam_scorer)%nat
    <> nrows (BS.input_ids a) ->
  fails_with batch_dimension_error (beam_search select env config fuel beam_scorer past a).
Proof.
  intros Hne. unfold beam_search. apply fails_with_bind_l. unfold beam_search_init.
  apply fails_with_bind_total.
  { destruct (BS.max_length a) as [ml |]; [| eexists; eexists; reflexivity].
    cbn [bind warn]. destruct (validate_stopping_criteria _ ml) as [[|] validated];
      eexists; eexists; reflexivity. }
  intros criteria. apply fails_with_bind_total.
  { destruct (List.length criteria =? 0)%nat; eexists; eexists; reflexivity. }
  intros u. apply fails_with_bind_l.
  destruct (Nat.eqb_spec (scorer_num_beams beam_scorer * scorer_batch_size beam_scorer)
              (nrows (BS.input_ids a))) as [Heq | _]; [contradiction |].
  exists []. reflexivity.
Qed.

(** What a step does to the state, whatever the scorer and the rules. *)
Lemma beam_step_state (le : loop_env) (outputs : tensor2 score)
    (st st' : loop_state Sc slice) :
  beam_step select env le outputs st = ok st' ->
  ncols (st_input_ids st') = S (ncols (st_input_ids st)) /\
  st_cur_len st' = S (st_cur_len st) /\
  st_iteration st' = st_iteration st /\
  st_this_peer_finished st' = st_this_peer_finished st /\
  forall row', In row' (rows (st_input_ids st')) ->
    exists row token, In row (rows (st_input_ids st)) /\ row' = row ++ [token].
Proof.
  unfold beam_step, adjust_logits_during_generation. intros H.
  destruct (apply_processors env _ _ _) as [e | processed]; [discriminate H |].
  cbn [rbind] in H.
  destruct (add_beam_scores _ _ _) as [e | scored]; [discriminate H |].
  cbn [rbind] in H.
  destruct (le_return_dict_in_generate le
            && (le_output_attentions le || le_output_hidden_states le));
    [discriminate H |].
  cbn [rbind ok] in H.
  destruct (select_candidates select _ _ scored) as [e | c]; [discriminate H |].
  cbn [rbind] in H.
  destruct (process _ _ _ _ _ _) as [e | [sc out]]; [discriminate H |].
  cbn [rbind] in H.
  destruct (gather_rows _ _) as [e | gathered] eqn:Hg; [discriminate H |]. cbn [rbind] in H.
  destruct (cat_column _ _) as [e | ids] eqn:Hc; [discriminate H |]. cbn [rbind] in H.
  destruct (match st_past st with Some _ => _ | None => _ end) as [e | past'];
    [discriminate H |]. cbn [rbind] in H.
  destruct (match st_beam_indices st with Some _ => _ | None => _ end) as [e | bi];
    [discriminate H |]. cbn [rbind] in H.
  inversion H; subst st'. simpl.
  destruct (gather_rows_from _ _ _ Hg) as [Hgc [_ Hgr]].
  destruct (cat_column_appends _ _ _ Hc) as [Hcc [_ Hcr]].
  split; [rewrite Hcc, Hgc; reflexivity |].
  split; [reflexivity |]. split; [reflexivity |]. split; [reflexivity |].
  intros row' Hrow'. destruct (Hcr row' Hrow') as [r [tok [Hr [_ Heq]]]].
  exists r, tok. split; [apply Hgr; exact Hr | exact Heq].
Qed.

(** X11: a step that returns has made every token history one token
    longer, and every new history is one of the old histories followed by
    one token, whatever the scorer, the rules and the selection do. *)
Theorem beam_step_appends_one_token (le : loop_env) (outputs : tensor2 score)
    (st st' : loop_state Sc slice) :
  beam_step select env le outputs st = ok st' ->
  ncols (st_input_ids st') = S (ncols (st_input_ids st)) /\
  forall row', In row' (rows (st_input_ids st')) ->
    exists row token, In row (rows (st_input_ids st)) /\ row' = row ++ [token].
Proof.
  intros H. destruct (beam_step_state le outputs st st' H) as [Hc [_ [_ [_ Hr]]]].
  split; [exact Hc | exact Hr].
Qed.

Lemma loop_iter_histories (le : loop_env) (st : loop_state Sc slice)
    (c : control (loop_state Sc slice)) :
  loop_iter select env le st = ok c ->
  let st' := match c with Break s => s | Continue s => s end in
  (ncols (st_input_ids st) <= ncols (st_input_ids st'))%nat /\
  forall row', In row' (rows (st_input_ids st')) ->
    exists row suffix,
      In row (rows (st_input_ids st)) /\ row' = row ++ suffix /\
      List.length suffix = (ncols (st_input_ids st') - ncols (st_input_ids st))%nat.
Proof.
  assert (Hsame : forall s : loop_state Sc slice,
            (ncols (st_input_ids s) <= ncols (st_input_ids s))%nat /\
            forall row', In row' (rows (st_input_ids s)) ->
              exists row suffix,
                In row (rows (st_input_ids s)) /\ row' = row ++ suffix /\
                List.length suffix = (ncols (st_input_ids s) - ncols (st_input_ids s))%nat).
  { intros s. split; [lia |]. intros row' Hrow'. exists row', [].
    split; [exact Hrow' |]. split; [rewrite app_nil_r; reflexivity | simpl; lia]. }
  unfold loop_iter. cbv zeta.
  destruct (le_synced_gpus le && _) eqn:Hb.
  - intros H. inversion H; subst c. apply Hsame.
  - destruct (forward env (st_input_ids st)) as [e | outputs]; [discriminate |].
    cbn [rbind].
    destruct (le_synced_gpus le && st_this_peer_finished st).
    + intros H. inversion H; subst c. apply (Hsame st).
    + destruct (beam_step select env le outputs st) as [e | st1] eqn:Hstep; [discriminate |].
      cbn [rbind]. intros H. inversion H; subst c. clear H.
      destruct (beam_step_state le outputs st st1 Hstep) as [Hc [_ [_ [_ Hr]]]].
      assert (Hids : st_input_ids
                       match loop_exit env le st1 with Break s => s | Continue s => s end
                     = st_input_ids st1).
      { unfold loop_exit. destruct (done_or_stop env le st1); [| reflexivity].
        destruct (negb (le_synced_gpus le)); reflexivity. }
      cbv zeta. rewrite Hids. split; [lia |].
      intros row' Hrow'. destruct (Hr row' Hrow') as [row [tok [Hrow Heq]]].
      exists row, [tok]. split; [exact Hrow |]. split; [exact Heq | simpl; lia].
Qed.

(** X12: the histories the loop returns with are the histories it started
    with, each possibly more than once or not at all, followed by the
    tokens generated: no token of the input is ever rewritten or dropped,
    with or without [synced_gpus]. *)
Theorem loop_keeps_histories (fuel : nat) (le : loop_env)
    (st final : loop_state Sc slice) :
  beam_search_loop select env fuel le st = ok (Some final) ->
  (ncols (st_input_ids st) <= ncols (st_input_ids final))%nat /\
  forall row', In row' (rows (st_input_ids final)) ->
    exists row suffix,
      In row (rows (st_input_ids st)) /\ row' = row ++ suffix /\
      List.length suffix = (ncols (st_input_ids final) - ncols (st_input_ids st))%nat.
Proof.
  revert st. induction fuel as [| fuel IH]; intros st H; simpl in H; [discriminate H |].
  destruct (loop_iter select env le st) as [e | c] eqn:Hiter; [discriminate H |].
  cbn [rbind] in H. pose proof (loop_iter_histories le st c Hiter) as Hc.
  destruct c as [s | s]; cbv zeta in Hc; cbn iota in Hc.
  - inversion H; subst s. exact Hc.
  - destruct Hc as [Hle Hrows]. destruct (IH s H) as [Hle' Hrows'].
    split; [lia |]. intros row' Hrow'.
    destruct (Hrows' row' Hrow') as [mid [suf2 [Hmid [Heq2 Hlen2]]]].
    destruct (Hrows mid Hmid) as [row [suf1 [Hrow [Heq1 Hlen1]]]].
    exists row, (suf1 ++ suf2). split; [exact Hrow |].
    split; [rewrite Heq2, Heq1, app_assoc; reflexivity |].
    rewrite length_app. lia.
Qed.
End Histories.

Lemma beam_search_batch_dimension_witness :
  (scorer_num_beams (SpecScorer.new 2 2 0 false 1 (fun s _ => s))
   * scorer_batch_size (SpecScorer.new 2 2 0 false 1 (fun s _ => s)))%nat
    <> nrows (BS.input_ids (Fixture.search_args (Some [MaxLengthCriteria 3]) false)) /\
  fails_with batch_dimension_error
    (beam_search (slice := unit) topk Fixture.steady_env Fixture.plain_config 5
       (SpecScorer.new 2 2 0 false 1 (fun s _ => s)) None
       (Fixture.search_args (Some [MaxLengthCriteria 3]) false)).
Proof.
  split; [discriminate |].
  apply (beam_search_batch_dimension topk Fixture.steady_env Fixture.plain_config 5
           (SpecScorer.new 2 2 0 false 1 (fun s _ => s)) None
           (Fixture.search_args (Some [MaxLengthCriteria 3]) false)).
  discriminate.
Defined.

Lemma beam_step_appends_one_token_witness :
  exists st',
    beam_step topk Fixture.steady_env (Fixture.loop_env0 [MaxLengthCriteria 3] false)
      (Tensor2 3 [[Fin (-1); Fin (-2); Fin (-3)]; [Fin (-1); Fin (-2); Fin (-3)]])
      Fixture.state0 = ok st' /\
    ncols (st_input_ids st') = S (ncols (st_input_ids Fixture.state0)) /\
    forall row', In row' (rows (st_input_ids st')) ->
      exists row token, In row (rows (st_input_ids Fixture.state0)) /\ row' = row ++ [token].
Proof.
  destruct (beam_step topk Fixture.steady_env (Fixture.loop_env0 [MaxLengthCriteria 3] false)
              (Tensor2 3 [[Fin (-1); Fin (-2); Fin (-3)]; [Fin (-1); Fin (-2); Fin (-3)]])
              Fixture.state0) as [e | st'] eqn:H.
  - vm_compute in H. discriminate H.
  - exists st'. split; [reflexivity |].
    apply (beam_step_appends_one_token topk Fixture.steady_env
             (Fixture.loop_env0 [MaxLengthCriteria 3] false)
             (Tensor2 3 [[Fin (-1); Fin (-2); Fin (-3)]; [Fin (-1); Fin (-2); Fin (-3)]])
             Fixture.state0 st' H).
Defined.

Lemma loop_keeps_histories_witness :
  exists final,
    beam_search_loop topk Fixture.steady_env 5
      (Fixture.loop_env0 [MaxLengthCriteria 3] true) Fixture.state0 = ok (Some final) /\
    (ncols (st_input_ids Fixture.state0) <= ncols (st_input_ids final))%nat /\
    forall row', In row' (rows (st_input_ids final)) ->
      exists row suffix,
        In row (rows (st_input_ids Fixture.state0)) /\ row' = row ++ suffix /\
        List.length suffix
        = (ncols (st_input_ids final) - ncols (st_input_ids Fixture.state0))%nat.
Proof.
  destruct (beam_search_loop topk Fixture.steady_env 5
              (Fixture.loop_env0 [MaxLengthCriteria 3] true) Fixture.state0)
    as [e | [final |]] eqn:H.
  - vm_compute in H. discriminate H.
  - exists final. split; [reflexivity |].
    apply (loop_keeps_histories topk Fixture.steady_env 5
             (Fixture.loop_env0 [MaxLengthCriteria 3] true) Fixture.state0 final H).
  - vm_compute in H. discriminate H.
Defined.

(** ** The loop under a max-length criterion *)

Section MaxLength.
Context {Sc : Type} {scorer_class : BeamScorer Sc} {slice : Type}.
Variable select : nat -> list score -> result (list entry).
Variable env : Env.
Variable le : loop_env.
Variable m : Z.
Hypothesis has_max_length : In (MaxLengthCriteria m) (le_stopping_criteria le).

Lemma done_or_stop_max_length (st : loop_state Sc slice) :
  m <= Z.of_nat (ncols (st_input_ids st)) -> done_or_stop env le st = true.
Proof.
  intros Hlen. unfold done_or_stop, stopping_criteria_call.
  apply orb_true_iff. right. apply existsb_exists.
  exists (MaxLengthCriteria m). split; [exact has_max_length |].
  simpl. apply Z.leb_le. exact Hlen.
Qed.

Lemma iteration_body_ncols (st st1 : loop_state Sc slice) :
  iteration_body select env le st = ok st1 ->
  ncols (st_input_ids st1) = S (ncols (st_input_ids st)) /\
  st_this_peer_finished st1 = st_this_peer_finished st.
Proof.
  unfold iteration_body. intros H.
  destruct (forward env (st_input_ids st)) as [e | outputs]; [discriminate H |].
  cbn [rbind] in H.
  destruct (beam_step_state select env le outputs st st1 H) as [Hc [_ [_ [Hf _]]]].
  split; [exact Hc | exact Hf].
Qed.

(** Without [synced_gpus] the loop is over after at most
    [max(1, m - length)] iterations: the criterion fires once the
    histories have [m] tokens. *)
Lemma loop_over_within (fuel : nat) (st : loop_state Sc slice) :
  le_synced_gpus le = false ->
  Z.max 1 (m - Z.of_nat (ncols (st_input_ids st))) <= Z.of_nat fuel ->
  beam_search_loop select env fuel le st <> ok None.
Proof.
  intros Hs. revert st. induction fuel as [| fuel IH]; intros st Hfuel; [simpl in Hfuel; lia |].
  simpl. rewrite (loop_iter_not_synced select env le st Hs).
  destruct (iteration_body select env le st) as [e | st1] eqn:Hbody; cbn [rbind];
    [discriminate |].
  destruct (iteration_body_ncols st st1 Hbody) as [Hc _].
  destruct (done_or_stop env le st1) eqn:Hdone; [discriminate |].
  apply IH. simpl.
  destruct (Z_lt_le_dec (Z.of_nat (ncols (st_input_ids st1))) m) as [Hlt | Hge].
  - lia.
  - rewrite (done_or_stop_max_length st1 Hge) in Hdone. discriminate Hdone.
Qed.

Lemma loop_finished_keeps_input (fuel : nat) (st final : loop_state Sc slice) :
  le_synced_gpus le = true -> st_this_peer_finished st = true ->
  beam_search_loop select env fuel le st = ok (Some final) ->
  st_input_ids final = st_input_ids st.
Proof.
  intros Hs. revert st. induction fuel as [| fuel IH]; intros st Hfin H; simpl in H;
    [discriminate H |].
  unfold loop_iter in H. cbv zeta in H. rewrite Hs, Hfin in H. cbn [andb] in H.
  destruct (_ =? 0)%nat in H.
  - cbn [rbind] in H. inversion H. reflexivity.
  - destruct (forward env (st_input_ids st)) as [e | outputs]; [discriminate H |].
    cbn [rbind] in H. apply IH in H; [exact H | exact Hfin].
Qed.

Lemma loop_iter_running (st : loop_state Sc slice) :
  st_this_peer_finished st = false ->
  loop_iter select env le st
  = (outputs <- forward env (st_input_ids st) ;;
     st1 <- beam_step select env le outputs st ;;
     ok (loop_exit env le st1))%res.
Proof.
  intros Hfin. unfold loop_iter. cbv zeta. rewrite Hfin.
  destruct (le_synced_gpus le); reflexivity.
Qed.

(** X14: with a max-length criterion of bound [m] in the list, the
    histories the loop returns with have at most [max(m, length + 1)]
    tokens, with or without [synced_gpus]: one step is always made, and no
    step after the criterion has fired. *)
Theorem loop_length_bound (fuel : nat) (st final : loop_state Sc slice) :
  st_this_peer_finished st = false ->
  beam_search_loop select env fuel le st = ok (Some final) ->
  Z.of_nat (ncols (st_input_ids final))
  <= Z.max m (Z.of_nat (ncols (st_input_ids st)) + 1).
Proof.
  revert st. induction fuel as [| fuel IH]; intros st Hfin H; simpl in H; [discriminate H |].
  rewrite (loop_iter_running st Hfin) in H.
  destruct (forward env (st_input_ids st)) as [e | outputs]; [discriminate H |].
  cbn [rbind] in H.
  destruct (beam_step select env le outputs st) as [e | st1] eqn:Hstep; [discriminate H |].
  cbn [rbind] in H.
  destruct (beam_step_state select env le outputs st st1 Hstep) as [Hc [_ [_ [Hf _]]]].
  unfold loop_exit in H. destruct (done_or_stop env le st1) eqn:Hdone.
  - destruct (le_synced_gpus le) eqn:Hs; simpl in H.
    + apply loop_finished_keeps_input in H; [| exact Hs | reflexivity].
      simpl in H. rewrite H, Hc. lia.
    + inversion H; subst final. rewrite Hc. lia.
  - apply IH in H; [| simpl; rewrite Hf; exact Hfin]. simpl in H.
    destruct (Z_lt_le_dec (Z.of_nat (ncols (st_input_ids st1))) m) as [Hlt | Hge].
    + lia.
    + rewrite (done_or_stop_max_length st1 Hge) in Hdone. discriminate Hdone.
Qed.
End MaxLength.

Lemma loop_length_bound_witness :
  exists final,
    (In (MaxLengthCriteria 3)
        (le_stopping_criteria (Fixture.loop_env0 [MaxLengthCriteria 3] true)) /\
     st_this_peer_finished Fixture.state0 = false /\
     beam_search_loop topk Fixture.steady_env 5
       (Fixture.loop_env0 [MaxLengthCriteria 3] true) Fixture.state0 = ok (Some final)) /\
    Z.of_nat (ncols (st_input_ids final))
    <= Z.max 3 (Z.of_nat (ncols (st_input_ids Fixture.state0)) + 1).
Proof.
  destruct (beam_search_loop topk Fixture.steady_env 5
              (Fixture.loop_env0 [MaxLengthCriteria 3] true) Fixture.state0)
    as [e | [final |]] eqn:H.
  - vm_compute in H. discriminate H.
  - exists final. split; [split; [left; reflexivity | split; reflexivity] |].
    apply (loop_length_bound topk Fixture.steady_env
             (Fixture.loop_env0 [MaxLengthCriteria 3] true) 3 (or_introl eq_refl) 5
             Fixture.state0 final); [reflexivity | exact H].
  - vm_compute in H. discriminate H.
Defined.

(** ** What [generate] hands to [beam_search] *)

Lemma concat_repeat_repeat {A : Type} (x : A) (b n : nat) :
  concat (map (fun r => repeat r n) (repeat x b)) = repeat x (b * n).
Proof.
  induction b as [| b IH]; simpl; [reflexivity |].
  rewrite IH, repeat_app. reflexivity.
Qed.

(** What [generate_setup] hands over when it returns. *)
Lemma generate_setup_call {Sc : Type}
    (new_scorer : nat -> Z -> Q -> bool -> Z -> result Sc) (self : model) (a : G.args)
    (w : list warning) (call : beam_search_call Sc) :
  generate_setup new_scorer self a = (w, ok call) ->
  exists start,
    Config.decoder_start_token_id (config self) = Some start /\
    BS.input_ids (call_args call)
    = Tensor2 1 (repeat [start]
                   (nrows (G.input_ids a)
                    * Z.to_nat (or_default (G.num_beams a) (Config.num_beams (config self))))) /\
    0 <= or_default (G.num_beams a) (Config.num_beams (config self)) /\
    or_default (G.num_beam_groups a) (Config.num_beam_groups (config self))
    <= or_default (G.num_beams a) (Config.num_beams (config self)) /\
    or_default (G.num_return_sequences a) (Config.num_return_sequences (config self))
    <= or_default (G.num_beams a) (Config.num_beams (config self)) /\
    BS.synced_gpus (call_args call) = G.synced_gpus a.
Proof.
  unfold generate_setup. intros H.
  set (num_beams := or_default (G.num_beams a) (Config.num_beams (config self))) in *.
  bind_inv H pad Hpad.
  bind_inv H u1 Himg.
  bind_inv H start Hstart.
  bind_inv H n Hres.
  bind_inv H u2 Hmin.
  bind_inv H u3 Hwarn.
  bind_inv H u4 Hgroups.
  bind_inv H chain Hchain.
  bind_inv H criteria Hcrit.
  bind_inv H u5 Hret.
  bind_inv H u6 Hmax.
  bind_inv H scorer Hsc.
  bind_inv H expand Hexp.
  bind_inv H u7 Hkw.
  inversion H; subst call. cbn [call_args BS.input_ids BS.synced_gpus rows].
  exists start. split.
  { destruct (Config.decoder_start_token_id (config self)) as [t |];
      inversion Hstart; reflexivity. }
  destruct (Z.ltb_spec num_beams 0) as [Hneg | Hpos]; [discriminate Hexp |].
  inversion Hexp; subst expand.
  split; [rewrite concat_repeat_repeat; reflexivity |].
  split; [exact Hpos |]. split.
  - destruct (Z.ltb_spec num_beams
                (or_default (G.num_beam_groups a) (Config.num_beam_groups (config self))))
      as [Hlt | Hge]; [discriminate Hgroups | lia].
  - destruct (Z.ltb_spec num_beams
                (or_default (G.num_return_sequences a)
                   (Config.num_return_sequences (config self))))
      as [Hlt | Hge]; [discriminate Hret | split; [lia | reflexivity]].
Qed.


(** X15: when [generate] reaches [beam_search], the decoder input it
    hands over has [batch_size * num_beams] rows, each of them the
    decoder start token of the configuration alone; the [input_ids] of the
    caller only give the batch size.  The number of beams is then not
    negative and no smaller than the number of groups and of sequences to
    return. *)
Theorem generate_setup_decoder_input {Sc : Type}
    (new_scorer : nat -> Z -> Q -> bool -> Z -> result Sc) (self : model) (a : G.args)
    (w : list warning) (call : beam_search_call Sc) :
  generate_setup new_scorer self a = (w, ok call) ->
  exists start,
    Config.decoder_start_token_id (config self) = Some start /\
    BS.input_ids (call_args call)
    = Tensor2 1 (repeat [start]
                   (nrows (G.input_ids a)
                    * Z.to_nat (or_default (G.num_beams a) (Config.num_beams (config self))))) /\
    0 <= or_default (G.num_beams a) (Config.num_beams (config self)) /\
    or_default (G.num_beam_groups a) (Config.num_beam_groups (config self))
    <= or_default (G.num_beams a) (Config.num_beams (config self)) /\
    or_default (G.num_return_sequences a) (Config.num_return_sequences (config self))
    <= or_default (G.num_beams a) (Config.num_beams (config self)).
Proof.
  intros H.
  destruct (generate_setup_call new_scorer self a w call H)
    as [start [Hs [Hids [Hpos [Hg [Hr _]]]]]].
  exists start. split; [exact Hs |]. split; [exact Hids |]. split; [exact Hpos |].
  split; [exact Hg | exact Hr].
Qed.

Lemma generate_setup_decoder_input_witness :
  exists w call start,
    generate_setup Fixture.new_scorer Fixture.self
      (Fixture.custom_args (Some []) (Some []) None None None) = (w, ok call) /\
    Config.decoder_start_token_id (config Fixture.self) = Some start /\
    BS.input_ids (call_args call) = Tensor2 1 [[start]; [start]].
Proof.
  destruct (generate_setup Fixture.new_scorer Fixture.self
              (Fixture.custom_args (Some []) (Some []) None None None))
    as [w [e | call]] eqn:H.
  - vm_compute in H. discriminate H.
  - destruct (generate_setup_decoder_input Fixture.new_scorer Fixture.self
                (Fixture.custom_args (Some []) (Some []) None None None) w call H)
      as [start [Hstart [Hids _]]].
    exists w, call, start. split; [reflexivity |]. split; [exact Hstart |]. exact Hids.
Defined.

(** ** [_get_logits_processor]: the classes in the chain, and when a
       chain is returned *)

Lemma processor_type_eqb_refl (t : processor_type) : processor_type_eqb t t = true.
Proof. destruct t; simpl; try reflexivity. apply Nat.eqb_refl. Qed.

(** Name and forget the values of the [let]s in front of [H]. *)
Ltac skip_lets H := repeat (let v := fresh "v" in name_let H v; clearbody v).

(** Split the outermost bind of [H]; the first goal is the case in which
    the bound computation raises, as [E] says. *)
Ltac case_bind H v E :=
  lazymatch type of H with
  | rbind ?c ?k = ?r =>
      destruct c as [? | v] eqn:E;
      [cbn [rbind] in H | change (k v = r) in H; cbv beta in H]
  end.

(** The chain is the merge of some list with the caller's rules, then
    [LogitNormalization] if asked for. *)
Lemma get_logits_processor_merged (config : Config.t) (a : LP.args)
    (chain : list processor) :
  _get_logits_processor config a = ok chain ->
  exists defaults merged,
    _merge_criteria_processor_list type_of_processor processor_type_eqb
      "logits processor" defaults (LP.logits_processor a) = ok merged /\
    chain = merged ++ match LP.renormalize_logits a with
                      | Some true => [LogitNormalization]
                      | _ => []
                      end.
Proof.
  intros H. cbv delta [_get_logits_processor] in H. cbv beta in H.
  skip_lets H. name_bind H p4 E4. clear E4.
  skip_lets H. name_bind H p7 E7. clear E7.
  skip_lets H. name_bind H p13 E13. clear E13.
  name_let H defaults. clearbody defaults.
  name_bind H merged Em.
  exists defaults, merged. split; [exact Em |].
  destruct (LP.renormalize_logits a) as [[|] |]; inversion H.
  - reflexivity.
  - rewrite app_nil_r. reflexivity.
  - rewrite app_nil_r. reflexivity.
Qed.

(** X16: in a chain that [_get_logits_processor] returns, the rules of the
    caller stand behind the rules the function activated before the merge
    and in front of the [LogitNormalization] it appends when
    [renormalize_logits] is on.  No rule of the caller has the class of a
    rule in front of the caller's rules.  The appended
    [LogitNormalization] is outside that check: with [renormalize_logits]
    on and a [LogitNormalization] among the caller's rules, the chain
    holds two of them, the second one last. *)
Theorem logits_processor_duplicate_classes (config : Config.t) (a : LP.args)
    (chain defaults custom : list processor) :
  _get_logits_processor config a = ok chain ->
  LP.logits_processor a = Some custom ->
  chain = defaults ++ custom ++ match LP.renormalize_logits a with
                                | Some true => [LogitNormalization]
                                | _ => []
                                end ->
  (forall d c, In d defaults -> In c custom -> type_of_processor c <> type_of_processor d) /\
  (forall d, In d defaults -> type_of_processor d <> type_of_processor LogitNormalization) /\
  (LP.renormalize_logits a = Some true -> In LogitNormalization custom ->
   exists front back,
     chain = front ++ LogitNormalization :: back ++ [LogitNormalization]).
Proof.
  intros H Hc Hchain.
  destruct (get_logits_processor_merged config a chain H) as [defaults' [merged [Hm Hch]]].
  destruct (default_chain_registered config a chain H)
    as [defaults'' [custom' [Hc' [[Hreg _] Hchain']]]].
  rewrite Hc in Hm. apply merge_ok_iff in Hm. destruct Hm as [Hmerged Hno].
  subst merged. rewrite Hchain, <- app_assoc in Hch.
  apply app_inv_tail in Hch. subst defaults'.
  split; [| split].
  - intros d c Hd Hin Heq.
    specialize (Hno d c Hd Hin). rewrite Heq, processor_type_eqb_refl in Hno.
    discriminate Hno.
  - intros d Hd Heq.
    rewrite Hc in Hc'. inversion Hc'; subst custom'. rewrite Hchain in Hchain'.
    apply app_inv_tail in Hchain'. subst defaults''.
    destruct Hreg as [_ Hbelow]. rewrite Forall_forall in Hbelow.
    specialize (Hbelow d Hd). unfold rank_of in Hbelow. rewrite Heq in Hbelow.
    simpl in Hbelow. lia.
  - intros Hon Hin. apply in_split in Hin. destruct Hin as [c1 [c2 Hsplit]].
    exists (defaults ++ c1), c2. rewrite Hchain, Hon, Hsplit.
    rewrite <- !app_assoc. reflexivity.
Qed.

Example chain_with_two_normalizations :
  _get_logits_processor Fixture.plain_config
    (LP.Build None None None 1 (Tensor2 2 [[7; 8]]) None None 20 (Some 2) None None None
       2 1 None None None (Some [LogitNormalization]) (Some true) None None None)
  = ok [LogitNormalization; LogitNormalization].
Proof. reflexivity. Qed.

Lemma logits_processor_duplicate_classes_witness :
  (_get_logits_processor Fixture.plain_config
     (LP.Build (Some (12 # 10)) (Some 3) None 1 (Tensor2 2 [[7; 8]]) None (Some 5) 20
        (Some 2) None (Some 2) None 2 1 None None None
        (Some [CustomLogitsProcessor 7; LogitNormalization]) (Some true) (Some [4; 5])
        None None)
   = ok ([RepetitionPenaltyLogitsProcessor (12 # 10); NoRepeatNGramLogitsProcessor 3;
          MinLengthLogitsProcessor 5 2; ForcedEOSTokenLogitsProcessor 20 2;
          SuppressTokensLogitsProcessor [4; 5]]
         ++ [CustomLogitsProcessor 7; LogitNormalization] ++ [LogitNormalization]) /\
   In LogitNormalization [CustomLogitsProcessor 7; LogitNormalization]) /\
  (forall d c,
     In d [RepetitionPenaltyLogitsProcessor (12 # 10); NoRepeatNGramLogitsProcessor 3;
           MinLengthLogitsProcessor 5 2; ForcedEOSTokenLogitsProcessor 20 2;
           SuppressTokensLogitsProcessor [4; 5]] ->
     In c [CustomLogitsProcessor 7; LogitNormalization] ->
     type_of_processor c <> type_of_processor d) /\
  exists front back,
    [RepetitionPenaltyLogitsProcessor (12 # 10); NoRepeatNGramLogitsProcessor 3;
     MinLengthLogitsProcessor 5 2; ForcedEOSTokenLogitsProcessor 20 2;
     SuppressTokensLogitsProcessor [4; 5]]
    ++ [CustomLogitsProcessor 7; LogitNormalization] ++ [LogitNormalization]
    = front ++ LogitNormalization :: back ++ [LogitNormalization].
Proof.
  split; [split; [reflexivity | simpl; auto] |].
  destruct (logits_processor_duplicate_classes Fixture.plain_config
              (LP.Build (Some (12 # 10)) (Some 3) None 1 (Tensor2 2 [[7; 8]]) None (Some 5) 20
                 (Some 2) None (Some 2) None 2 1 None None None
                 (Some [CustomLogitsProcessor 7; LogitNormalization]) (Some true)
                 (Some [4; 5]) None None)
              ([RepetitionPenaltyLogitsProcessor (12 # 10); NoRepeatNGramLogitsProcessor 3;
                MinLengthLogitsProcessor 5 2; ForcedEOSTokenLogitsProcessor 20 2;
                SuppressTokensLogitsProcessor [4; 5]]
               ++ [CustomLogitsProcessor 7; LogitNormalization] ++ [LogitNormalization])
              [RepetitionPenaltyLogitsProcessor (12 # 10); NoRepeatNGramLogitsProcessor 3;
               MinLengthLogitsProcessor 5 2; ForcedEOSTokenLogitsProcessor 20 2;
               SuppressTokensLogitsProcessor [4; 5]]
              [CustomLogitsProcessor 7; LogitNormalization]
              eq_refl eq_refl eq_refl) as [Hno [_ Htwo]].
  split; [exact Hno |]. apply Htwo; [reflexivity | simpl; auto].
Defined.

(** X17: [_get_logits_processor] returns a chain only if the model is an
    encoder-decoder whenever [encoder_no_repeat_ngram_size] (argument or
    configuration) is positive, the number of beam groups is not 0
    whenever a prefix function is given, the forced decoder ids in force
    (the argument, else the configuration) are not an empty list whenever
    [begin_suppress_tokens] is set, and [logits_processor] is a list.
    Otherwise it raises.  (The constructors of the rule classes check
    their arguments as well; they are not in the source file, and what
    they raise only adds to these conditions.) *)
Theorem get_logits_processor_returns_only_if (config : Config.t) (a : LP.args)
    (chain : list processor) :
  _get_logits_processor config a = ok chain ->
  (forall n,
     or_config (LP.encoder_no_repeat_ngram_size a)
               (Config.encoder_no_repeat_ngram_size config) = Some n ->
     0 < n -> Config.is_encoder_decoder config = true) /\
  (LP.prefix_allowed_tokens_fn a <> None -> LP.num_beam_groups a <> 0) /\
  (or_config (LP.begin_suppress_tokens a) (Config.begin_suppress_tokens config) <> None ->
   LP.forced_decoder_ids a <> Some [] /\
   (LP.forced_decoder_ids a = None ->
    Config.forced_decoder_ids config <> Some (Some []))) /\
  (exists custom, LP.logits_processor a = Some custom).
Proof.
  intros H. cbv delta [_get_logits_processor] in H. cbv beta in H.
  name_let H p0. clearbody p0.
  name_let H repetition_penalty. clearbody repetition_penalty.
  name_let H no_repeat_ngram_size. clearbody no_repeat_ngram_size.
  name_let H encoder_no_repeat_ngram_size.
  name_let H bad_words_ids. clearbody bad_words_ids.
  name_let H eos_token_id. clearbody eos_token_id.
  name_let H diversity_penalty. clearbody diversity_penalty.
  name_let H forced_bos_token_id. clearbody forced_bos_token_id.
  name_let H forced_eos_token_id. clearbody forced_eos_token_id.
  name_let H remove_invalid_values. clearbody remove_invalid_values.
  name_let H exponential_decay_length_penalty. clearbody exponential_decay_length_penalty.
  name_let H suppress_tokens. clearbody suppress_tokens.
  name_let H begin_suppress_tokens.
  name_let H forced_decoder_ids.
  skip_lets H. case_bind H p4 E4; [discriminate H |].
  skip_lets H. case_bind H p7 E7; [discriminate H |].
  skip_lets H. case_bind H p13 E13; [discriminate H |].
  skip_lets H. case_bind H merged Em; [discriminate H |].
  clear H. split; [| split; [| split]].
  - intros n Hn Hpos. fold encoder_no_repeat_ngram_size in Hn. rewrite Hn in E4.
    replace (0 <? n) with true in E4 by (symmetry; apply Z.ltb_lt; exact Hpos).
    destruct (Config.is_encoder_decoder config); [reflexivity | discriminate E4].
  - intros Hfn Hz. destruct (LP.prefix_allowed_tokens_fn a) as [fn |]; [| contradiction].
    rewrite Hz in E7. discriminate E7.
  - intros Hb. fold begin_suppress_tokens in Hb.
    destruct begin_suppress_tokens as [b |]; [| contradiction]. cbv zeta in E13.
    assert (Hf : forced_decoder_ids <> Some []).
    { intros Hf. rewrite Hf in E13. discriminate E13. }
    subst forced_decoder_ids. split.
    + intros Hg. rewrite Hg in Hf. apply Hf. reflexivity.
    + intros Hnone Hcfg. rewrite Hnone, Hcfg in Hf. apply Hf. reflexivity.
  - unfold _merge_criteria_processor_list in Em.
    destruct (LP.logits_processor a) as [custom |]; [| discriminate Em].
    exists custom. reflexivity.
Qed.

Lemma get_logits_processor_returns_only_if_witness :
  _get_logits_processor Fixture.plain_config
    (LP.Build None None (Some 2) 1 (Tensor2 2 [[7; 8]]) None None 20 (Some 2) None None
       (Some 0%nat) 2 1 None None None (Some [CustomLogitsProcessor 7]) None None
       (Some [9]) (Some [(1, 5)]))
  = ok [EncoderNoRepeatNGramLogitsProcessor 2 (Tensor2 2 [[7; 8]]);
        PrefixConstrainedLogitsProcessor 0 2;
        SuppressTokensAtBeginLogitsProcessor [9] 2;
        ForceTokensLogitsProcessor [(1, 5)]; CustomLogitsProcessor 7] /\
  Config.is_encoder_decoder Fixture.plain_config = true /\
  LP.num_beam_groups
    (LP.Build None None (Some 2) 1 (Tensor2 2 [[7; 8]]) None None 20 (Some 2) None None
       (Some 0%nat) 2 1 None None None (Some [CustomLogitsProcessor 7]) None None
       (Some [9]) (Some [(1, 5)])) <> 0.
Proof.
  split; [reflexivity |].
  destruct (get_logits_processor_returns_only_if Fixture.plain_config
              (LP.Build None None (Some 2) 1 (Tensor2 2 [[7; 8]]) None None 20 (Some 2) None
                 None (Some 0%nat) 2 1 None None None (Some [CustomLogitsProcessor 7]) None
                 None (Some [9]) (Some [(1, 5)]))
              _ eq_refl) as [Henc [Hgroups _]].
  split; [apply (Henc 2); [reflexivity | lia] | apply Hgroups; discriminate].
Defined.

(** ** Attention masks *)

Lemma nth_error_repeat_if {A : Type} (x : A) (n i : nat) :
  nth_error (repeat x n) i = if (i <? n)%nat then Some x else None.
Proof.
  destruct (Nat.ltb_spec i n) as [Hlt | Hge].
  - apply nth_error_repeat. exact Hlt.
  - apply nth_error_None. rewrite repeat_length. exact Hge.
Qed.

Lemma nth_error_combine_if {A B : Type} (l1 : list A) (l2 : list B) (i : nat) :
  nth_error (combine l1 l2) i
  = match nth_error l1 i, nth_error l2 i with
    | Some a, Some b => Some (a, b)
    | _, _ => None
    end.
Proof.
  revert l2 i. induction l1 as [| x l1 IH]; intros l2 i.
  - destruct i; reflexivity.
  - destruct l2 as [| y l2].
    + destruct i as [| i]; simpl; [reflexivity |]. destruct (nth_error l1 i); reflexivity.
    + destruct i as [| i]; simpl; [reflexivity | apply IH].
Qed.

Lemma nth_error_arange (n i : nat) :
  nth_error (arange n) i = if (i <? n)%nat then Some (Z.of_nat i) else None.
Proof.
  unfold arange. rewrite nth_error_map, nth_error_seq.
  destruct (i <? n)%nat; reflexivity.
Qed.

Section MaskEntries.
Context {A B : Type}.
Variable zero : A.
Variable min_value : A.
Variable min_value32 : B.
Variable zero32 : B.
Variable to_dtype : B -> A.

(** The square mask before the cast and before the cached positions are
    put in front. *)
Lemma causal_square_row (tgt_len i : nat) :
  nth_error
    (masked_fill (full tgt_len tgt_len min_value32)
       (map (fun ci => map (fun cj => cj <? ci + 1) (arange tgt_len)) (arange tgt_len))
       zero32) i
  = if (i <? tgt_len)%nat
    then Some (map (fun j => if (j <=? i)%nat then zero32 else min_value32)
                 (seq 0 tgt_len))
    else None.
Proof.
  unfold masked_fill, full.
  rewrite nth_error_map, nth_error_combine_if, nth_error_repeat_if, nth_error_map,
    nth_error_arange.
  destruct (i <? tgt_len)%nat; [| reflexivity]. simpl. f_equal.
  apply nth_error_ext. intros j.
  rewrite !nth_error_map, nth_error_combine_if, nth_error_repeat_if, nth_error_map,
    nth_error_arange, nth_error_seq.
  destruct (j <? tgt_len)%nat; [| reflexivity]. simpl. f_equal.
  destruct (Z.ltb_spec (Z.of_nat j) (Z.of_nat i + 1)) as [Hlt | Hge];
    destruct (Nat.leb_spec j i) as [Hle | Hgt]; try reflexivity; lia.
Qed.

(** X18: the causal mask has shape [bsz, 1, tgt_len, past + tgt_len].  Its
    entry for query position [i] and key position [j] is the 0 of the dtype
    at a cached position ([j < past]); from there on it is an entry of the
    square mask, built in float32 and cast to the dtype: the cast of the
    float32 0 up to the query's own position ([j <= past + i]), and
    beyond it the cast of the float32 tensor that holds the minimum of the
    dtype. *)
Theorem make_causal_mask_entries (bsz tgt_len past b i j : nat) :
  at4 (_make_causal_mask zero min_value32 zero32 to_dtype (bsz, tgt_len) past) b 0 i j
  = if (b <? bsz)%nat && (i <? tgt_len)%nat && (j <? past + tgt_len)%nat
    then Some (if (j <? past)%nat then zero
               else if (j <=? past + i)%nat then to_dtype zero32
               else to_dtype min_value32)
    else None.
Proof.
  unfold _make_causal_mask, at4. cbv zeta.
  rewrite nth_error_repeat_if. destruct (b <? bsz)%nat; [| reflexivity].
  cbn [nth_error andb].
  assert (Hpast : forall mask : list (list A),
            (if (0 <? past)%nat then map (fun row => repeat zero past ++ row) mask else mask)
            = map (fun row => repeat zero past ++ row) mask).
  { intros mask. destruct past as [| p]; [| reflexivity].
    simpl. symmetry. apply map_id. }
  rewrite Hpast, !nth_error_map, causal_square_row.
  destruct (i <? tgt_len)%nat; [| reflexivity]. cbn [option_map andb].
  rewrite nth_error_app, repeat_length.
  destruct (Nat.ltb_spec j past) as [Hlt | Hge].
  - rewrite nth_error_repeat_if.
    destruct (Nat.ltb_spec j past) as [_ | Hge]; [| lia].
    destruct (Nat.ltb_spec j (past + tgt_len)) as [_ | Hge]; [reflexivity | lia].
  - rewrite !nth_error_map, nth_error_seq.
    destruct (Nat.ltb_spec (j - past) tgt_len) as [Hin | Hout];
      destruct (Nat.ltb_spec j (past + tgt_len)) as [Hin' | Hout']; try lia;
      [| reflexivity].
    simpl. f_equal.
    destruct (Nat.leb_spec (j - past) i) as [Hle | Hgt];
      destruct (Nat.leb_spec j (past + i)) as [Hle' | Hgt']; try reflexivity; lia.
Qed.

(** X19: the expanded padding mask has shape [bsz, 1, tgt_len, src_len];
    its entry for example [b] and key position [j] is the same for every
    query position: 0 where the mask of the example holds 1 at [j], and
    the minimum of the dtype for every other value of the mask. *)
Theorem expand_mask_entries (mask : tensor2 Z) (tgt_len : option nat) (b i j : nat) :
  at4 (_expand_mask zero min_value mask tgt_len) b 0 i j
  = match nth_error (rows mask) b with
    | Some row =>
        if (i <? or_default tgt_len (ncols mask))%nat
        then option_map (fun m => if m =? 1 then zero else min_value) (nth_error row j)
        else None
    | None => None
    end.
Proof.
  unfold _expand_mask, at4. cbv zeta.
  rewrite !nth_error_map.
  destruct (nth_error (rows mask) b) as [row |]; [| reflexivity].
  cbn [option_map map nth_error].
  rewrite !nth_error_map, nth_error_repeat_if.
  destruct (i <? or_default tgt_len (ncols mask))%nat; [| reflexivity].
  cbn [option_map]. rewrite !nth_error_map.
  destruct (nth_error row j) as [m |]; [| reflexivity].
  cbn [option_map]. f_equal.
  destruct (Z.eqb_spec (1 - m) 0) as [Hz | Hnz]; destruct (Z.eqb_spec m 1) as [H1 | Hn1];
    try reflexivity; lia.
Qed.
End MaskEntries.

(** ** Positional embeddings *)

Lemma mapM_repeat {A B : Type} (f : A -> result B) (x : A) (y : B) (n : nat) :
  f x = ok y -> mapM f (repeat x n) = ok (repeat y n).
Proof.
  intros H. induction n as [| n IH]; simpl; [reflexivity |].
  rewrite H, IH. reflexivity.
Qed.

Lemma skipn_nth_error {A : Type} (l : list A) (k : nat) (x : A) :
  nth_error l k = Some x -> skipn k l = x :: skipn (S k) l.
Proof.
  revert k. induction l as [| y l IH]; intros k H; [destruct k; discriminate H |].
  destruct k as [| k]; simpl in H.
  - inversion H. reflexivity.
  - apply (IH k H).
Qed.

Section PositionalEmbedding.
Context {A : Type}.
Variable weight : list A.

Lemma lookup_run (n start : nat) :
  (start + n <= List.length weight)%nat ->
  mapM (fun i => lookup weight (Z.of_nat (start + i))) (seq 0 n)
  = ok (firstn n (skipn start weight)).
Proof.
  revert start. induction n as [| n IH]; intros start Hlen; [reflexivity |].
  rewrite <- cons_seq, <- seq_shift. cbn [mapM]. rewrite mapM_map.
  unfold lookup at 1. rewrite Nat.add_0_r.
  destruct (Z.ltb_spec (Z.of_nat start) 0) as [Hneg | _]; [lia |].
  rewrite Nat2Z.id.
  destruct (nth_error weight start) as [x |] eqn:Hx;
    [| apply nth_error_None in Hx; lia].
  cbn [rbind ok].
  rewrite (mapM_ext _ (fun i => lookup weight (Z.of_nat (S start + i)))).
  - rewrite (IH (S start)) by lia. cbn [rbind ok].
    rewrite (skipn_nth_error _ _ _ Hx). reflexivity.
  - intros i _. f_equal. lia.
Qed.

Lemma forward_as_lookups (input_ids : tensor2 Z) (past_key_values_length : Z) :
  BartLearnedPositionalEmbedding_forward weight input_ids past_key_values_length
  = mapM (mapM (lookup weight))
      (repeat (map (fun i => past_key_values_length + Z.of_nat i + positional_offset)
                 (seq 0 (ncols input_ids)))
              (nrows input_ids)).
Proof.
  unfold BartLearnedPositionalEmbedding_forward, embedding. cbv zeta.
  rewrite map_repeat, map_map. reflexivity.
Qed.

(** X20: as long as the positions [past + 2 .. past + 2 + seq_len - 1]
    lie in the table, the positional embedding of every example is the
    slice of the table that starts at row [past + 2] and has [seq_len]
    rows; the tokens themselves play no part, and with [past >= 0] the
    first two rows of the table are never used. *)
Theorem positional_embedding_rows (input_ids : tensor2 Z) (past_key_values_length : Z) :
  0 <= past_key_values_length + positional_offset ->
  past_key_values_length + positional_offset + Z.of_nat (ncols input_ids)
    <= Z.of_nat (List.length weight) ->
  BartLearnedPositionalEmbedding_forward weight input_ids past_key_values_length
  = ok (repeat
          (firstn (ncols input_ids)
             (skipn (Z.to_nat (past_key_values_length + positional_offset)) weight))
          (nrows input_ids)).
Proof.
  intros Hlo Hhi. rewrite forward_as_lookups. apply mapM_repeat.
  rewrite mapM_map.
  rewrite (mapM_ext _ (fun i =>
             lookup weight (Z.of_nat (Z.to_nat (past_key_values_length + positional_offset) + i)))).
  - apply lookup_run. lia.
  - intros i _. f_equal. lia.
Qed.

(** X21: for a batch that is not empty, positions that leave the table (a
    sequence that ends beyond the last row, or a start below row 0) make
    the positional embedding raise the IndexError of the lookup. *)
Theorem positional_embedding_out_of_range (input_ids : tensor2 Z)
    (past_key_values_length : Z) :
  (0 < nrows input_ids)%nat -> (0 < ncols input_ids)%nat ->
  past_key_values_length + positional_offset < 0 \/
  Z.of_nat (List.length weight)
    < past_key_values_length + positional_offset + Z.of_nat (ncols input_ids) ->
  BartLearnedPositionalEmbedding_forward weight input_ids past_key_values_length
  = raise index_select_error.
Proof.
  intros Hrows Hcols Hout. rewrite forward_as_lookups.
  assert (Hlookup : forall i e, lookup weight i = raise e -> e = index_select_error).
  { intros i e. unfold lookup. destruct (i <? 0); [intros H; inversion H; reflexivity |].
    destruct (nth_error weight (Z.to_nat i)); intros H; [discriminate H |].
    inversion H. reflexivity. }
  assert (Hrow : mapM (lookup weight)
                   (map (fun i => past_key_values_length + Z.of_nat i + positional_offset)
                      (seq 0 (ncols input_ids)))
                 = raise index_select_error).
  { apply mapM_raise; [intros i e _; apply Hlookup |].
    destruct Hout as [Hneg | Hbig].
    - exists (past_key_values_length + Z.of_nat 0 + positional_offset), index_select_error.
      split.
      + apply in_map_iff. exists 0%nat. split; [reflexivity | apply in_seq; lia].
      + unfold lookup.
        destruct (Z.ltb_spec (past_key_values_length + Z.of_nat 0 + positional_offset) 0)
          as [_ | Hge]; [reflexivity | lia].
    - exists (past_key_values_length + Z.of_nat (ncols input_ids - 1) + positional_offset),
        index_select_error.
      split.
      + apply in_map_iff. exists (ncols input_ids - 1)%nat.
        split; [reflexivity | apply in_seq; lia].
      + unfold lookup. destruct (_ <? 0); [reflexivity |].
        destruct (nth_error weight _) as [x |] eqn:Hx; [| reflexivity].
        exfalso.
        assert (Hlt : (Z.to_nat (past_key_values_length + Z.of_nat (ncols input_ids - 1)
                                 + positional_offset) < List.length weight)%nat)
          by (apply nth_error_Some; rewrite Hx; discriminate).
        lia. }
  destruct (nrows input_ids) as [| n]; [lia |].
  cbn [repeat mapM]. rewrite Hrow. reflexivity.
Qed.
End PositionalEmbedding.

Lemma positional_embedding_rows_witness :
  (0 <= 1 + positional_offset /\
   1 + positional_offset + Z.of_nat (ncols (Tensor2 2 [[7; 8]; [9; 9]]))
     <= Z.of_nat (List.length ["p0"; "p1"; "p2"; "p3"; "p4"; "p5"]%string)) /\
  BartLearnedPositionalEmbedding_forward ["p0"; "p1"; "p2"; "p3"; "p4"; "p5"]%string
    (Tensor2 2 [[7; 8]; [9; 9]]) 1
  = ok [["p3"; "p4"]; ["p3"; "p4"]]%string.
Proof.
  split; [split; unfold positional_offset; simpl; lia |].
  apply (positional_embedding_rows ["p0"; "p1"; "p2"; "p3"; "p4"; "p5"]%string
           (Tensor2 2 [[7; 8]; [9; 9]]) 1); unfold positional_offset; simpl; lia.
Defined.

Lemma positional_embedding_out_of_range_witness :
  ((0 < nrows (Tensor2 2 [[7; 8]; [9; 9]]))%nat /\
   (0 < ncols (Tensor2 2 [[7; 8]; [9; 9]]))%nat /\
   Z.of_nat (List.length ["p0"; "p1"; "p2"; "p3"; "p4"; "p5"]%string)
     < 3 + positional_offset + Z.of_nat (ncols (Tensor2 2 [[7; 8]; [9; 9]]))) /\
  BartLearnedPositionalEmbedding_forward ["p0"; "p1"; "p2"; "p3"; "p4"; "p5"]%string
    (Tensor2 2 [[7; 8]; [9; 9]]) 3
  = raise index_select_error.
Proof.
  split; [split; [unfold nrows; simpl; lia | split; unfold positional_offset; simpl; lia] |].
  apply (positional_embedding_out_of_range ["p0"; "p1"; "p2"; "p3"; "p4"; "p5"]%string
           (Tensor2 2 [[7; 8]; [9; 9]]) 3); [unfold nrows; simpl; lia | simpl; lia |].
  right. unfold positional_offset. simpl. lia.
Defined.

(** ** [_resize_final_logits_bias] *)

Section ResizeBias.
Context {A : Type}.
Variable zero : A.

Lemma resize_final_logits_bias_closed (bias : list A) (n : Z) :
  0 <= n ->
  _resize_final_logits_bias zero bias n
  = firstn (Z.to_nat n) bias ++ repeat zero (Z.to_nat n - List.length bias).
Proof.
  intros Hn. unfold _resize_final_logits_bias, slice_to. cbv zeta.
  destruct (Z.leb_spec n (Z.of_nat (List.length bias))) as [Hle | Hgt].
  - destruct (Z.ltb_spec n 0) as [Hneg | _]; [lia |].
    replace (Z.to_nat n - List.length bias)%nat with 0%nat by lia.
    simpl. rewrite app_nil_r. reflexivity.
  - rewrite firstn_all2 by lia. f_equal. f_equal. lia.
Qed.

(** X22: for [new_num_tokens >= 0] the resized bias has exactly
    [new_num_tokens] entries: entry [i] is the old entry [i] where the old
    bias has one, and zero beyond the old length. *)
Theorem resize_final_logits_bias_entries (bias : list A) (n : Z) (i : nat) :
  0 <= n ->
  nth_error (_resize_final_logits_bias zero bias n) i
  = if (i <? Z.to_nat n)%nat then Some (nth i bias zero) else None.
Proof.
  intros Hn. rewrite (resize_final_logits_bias_closed bias n Hn).
  rewrite nth_error_app, length_firstn.
  destruct (Nat.ltb_spec i (Nat.min (Z.to_nat n) (List.length bias))) as [Hin | Hout].
  - destruct (Nat.ltb_spec i (Z.to_nat n)) as [_ | Hge]; [| lia].
    rewrite nth_error_firstn.
    destruct (Nat.ltb_spec i (Z.to_nat n)) as [_ | Hge]; [| lia].
    apply nth_error_nth'. lia.
  - rewrite nth_error_repeat_if.
    destruct (Nat.ltb_spec i (Z.to_nat n)) as [Hlt | Hge].
    + destruct (Nat.ltb_spec (i - Nat.min (Z.to_nat n) (List.length bias))
                  (Z.to_nat n - List.length bias)) as [_ | Hge]; [| lia].
      rewrite nth_overflow by lia. reflexivity.
    + destruct (Nat.ltb_spec (i - Nat.min (Z.to_nat n) (List.length bias))
                  (Z.to_nat n - List.length bias)) as [Hlt | _]; [lia | reflexivity].
Qed.

(** X23: growing the bias and then resizing it back to its old length
    gives the old bias back (shrinking first does not: the entries cut off
    come back as zeros). *)
Theorem resize_final_logits_bias_round_trip (bias : list A) (n : Z) :
  Z.of_nat (List.length bias) <= n ->
  _resize_final_logits_bias zero (_resize_final_logits_bias zero bias n)
    (Z.of_nat (List.length bias))
  = bias.
Proof.
  intros Hn.
  rewrite (resize_final_logits_bias_closed bias n) by lia.
  rewrite resize_final_logits_bias_closed by lia.
  rewrite Nat2Z.id. rewrite (firstn_all2 (n := Z.to_nat n) bias) by lia.
  rewrite firstn_app, firstn_all, Nat.sub_diag. cbn [firstn].
  rewrite length_app, repeat_length.
  replace (List.length bias - (List.length bias + (Z.to_nat n - List.length bias)))%nat
    with 0%nat by lia.
  simpl. rewrite !app_nil_r. reflexivity.
Qed.
End ResizeBias.

Lemma resize_final_logits_bias_entries_witness :
  0 <= 5 /\
  nth_error (_resize_final_logits_bias 0 [7; 8; 9] 5) 4
  = (if (4 <? Z.to_nat 5)%nat then Some (nth 4 [7; 8; 9] 0) else None).
Proof.
  split; [lia |]. apply (resize_final_logits_bias_entries 0 [7; 8; 9] 5 4). lia.
Defined.

Lemma resize_final_logits_bias_round_trip_witness :
  Z.of_nat (List.length [7; 8; 9]) <= 5 /\
  _resize_final_logits_bias 0 (_resize_final_logits_bias 0 [7; 8; 9] 5)
    (Z.of_nat (List.length [7; 8; 9]))
  = [7; 8; 9].
Proof.
  split; [simpl; lia |]. apply (resize_final_logits_bias_round_trip 0 [7; 8; 9] 5).
  simpl. lia.
Defined.

(** ** [prepare_inputs_for_generation] after a step *)

Lemma last_of_appended {A : Type} (r : list A) (c : A) :
  skipn (List.length (r ++ [c]) - 1) (r ++ [c]) = [c].
Proof.
  rewrite length_app. simpl.
  replace (List.length r + 1 - 1)%nat with (List.length r) by lia.
  rewrite skipn_app, skipn_all, Nat.sub_diag. reflexivity.
Qed.

(** X24: once there is a cache, the decoder input prepared for the model
    after [torch.cat] has appended the chosen tokens is the column of these
    tokens alone; without a cache it is the whole history. *)
Theorem prepare_inputs_after_step {slice H E : Type} (history appended : tensor2 Z)
    (tokens : list Z) (past : option (cache slice)) (attention_mask : option (tensor2 Z))
    (head_mask decoder_head_mask cross_attn_head_mask : option H)
    (use_cache : option bool) (encoder_outputs : option E) :
  cat_column history tokens = ok appended ->
  mi_decoder_input_ids
    (prepare_inputs_for_generation appended past attention_mask head_mask
       decoder_head_mask cross_attn_head_mask use_cache encoder_outputs)
  = match past with
    | Some _ => Tensor2 1 (map (fun t => [t]) tokens)
    | None => appended
    end.
Proof.
  unfold cat_column, nrows. intros Hcat.
  destruct (Nat.eqb_spec (List.length (rows history)) (List.length tokens)) as [Hlen | _];
    [| discriminate Hcat].
  inversion Hcat; subst appended. clear Hcat.
  unfold prepare_inputs_for_generation. destruct past as [p |]; [| reflexivity].
  cbn [mi_decoder_input_ids]. unfold last_column. cbn [ncols rows Nat.min]. f_equal.
  rewrite map_map. revert tokens Hlen.
  induction (rows history) as [| r rs IH]; intros tokens Hlen.
  - destruct tokens; [reflexivity | discriminate Hlen].
  - destruct tokens as [| t tokens]; [discriminate Hlen |].
    cbn [combine map fst snd]. rewrite last_of_appended. f_equal.
    apply IH. simpl in Hlen. lia.
Qed.

Lemma prepare_inputs_after_step_witness :
  cat_column (Tensor2 2 [[0; 5]; [0; 6]]) [8; 9] = ok (Tensor2 3 [[0; 5; 8]; [0; 6; 9]]) /\
  mi_decoder_input_ids
    (prepare_inputs_for_generation (H := unit) (E := unit)
       (Tensor2 3 [[0; 5; 8]; [0; 6; 9]]) (Some [[["k"]; ["v"]]]%string) None None None None
       None None)
  = Tensor2 1 [[8]; [9]].
Proof.
  split; [reflexivity |].
  apply (prepare_inputs_after_step (H := unit) (E := unit) (Tensor2 2 [[0; 5]; [0; 6]])
           (Tensor2 3 [[0; 5; 8]; [0; 6; 9]]) [8; 9] (Some [[["k"]; ["v"]]]%string)
           None None None None None None).
  reflexivity.
Defined.

(** ** [EntityEmbedding.set_embeddings] *)

Lemma assign_rows_from_shape {A : Type} (k : nat) (weight new_weight w' : tensor2 A) :
  assign_rows_from k weight new_weight = ok w' ->
  (k <= nrows weight)%nat ->
  ncols w' = ncols weight /\
  nrows w' = (k + nrows new_weight)%nat /\
  firstn k (rows w') = firstn k (rows weight).
Proof.
  unfold assign_rows_from, nrows. intros H Hk.
  assert (Hfirst : forall tail : list (list A),
            firstn k (firstn k (rows weight) ++ tail) = firstn k (rows weight)).
  { intros tail. rewrite firstn_app, length_firstn, firstn_firstn.
    replace (Nat.min k k) with k by lia.
    replace (k - Nat.min k (List.length (rows weight)))%nat with 0%nat by lia.
    simpl. rewrite app_nil_r. reflexivity. }
  destruct (ncols new_weight =? ncols weight)%nat.
  - inversion H; subst w'. simpl. split; [reflexivity |].
    split; [rewrite length_app, length_firstn; lia | apply Hfirst].
  - destruct (ncols new_weight =? 1)%nat; [| discriminate H].
    inversion H; subst w'. simpl. split; [reflexivity |].
    split; [rewrite length_app, length_firstn, length_map; lia | apply Hfirst].
Qed.

(** X25: when [set_embeddings] returns, the table has the shape it had;
    if the new embeddings have [offset] rows fewer than the table (no pad
    and scene entries), the first [offset] rows of the table are the old
    ones.  A file with any other number of rows is refused with the
    ValueError about mismatched embeddings. *)
Theorem set_embeddings_keeps_shape {A : Type} (offset : nat) (weight w' : tensor2 A)
    (new_embeddings : embedding_file) (new_weight : tensor2 A) :
  new_embeddings = TensorFile new_weight \/ new_embeddings = EmbeddingFile new_weight ->
  (set_embeddings offset weight new_embeddings = ok w' ->
   ncols w' = ncols weight /\ nrows w' = nrows weight /\
   (nrows weight = (nrows new_weight + offset)%nat ->
    firstn offset (rows w') = firstn offset (rows weight))) /\
  (nrows weight <> (nrows new_weight + offset)%nat -> nrows weight <> nrows new_weight ->
   set_embeddings offset weight new_embeddings
   = raise (ValueError "Mismatched entity embedding.")).
Proof.
  intros Hfile.
  assert (Hset : set_embeddings offset weight new_embeddings
                 = if (nrows weight =? nrows new_weight + offset)%nat
                   then assign_rows_from offset weight new_weight
                   else if (nrows weight =? nrows new_weight)%nat
                        then assign_rows_from 0 weight new_weight
                        else raise (ValueError "Mismatched entity embedding.")).
  { destruct Hfile as [Hf | Hf]; subst new_embeddings; reflexivity. }
  rewrite Hset. clear Hset. split.
  - intros H.
    destruct (Nat.eqb_spec (nrows weight) (nrows new_weight + offset)) as [Heq | Hne].
    + destruct (assign_rows_from_shape offset weight new_weight w' H) as [Hc [Hr Hf]];
        [lia |].
      split; [exact Hc |]. split; [lia | intros _; exact Hf].
    + destruct (Nat.eqb_spec (nrows weight) (nrows new_weight)) as [Heq | Hne'];
        [| discriminate H].
      destruct (assign_rows_from_shape 0 weight new_weight w' H) as [Hc [Hr _]]; [lia |].
      split; [exact Hc |]. split; [lia | intros Hoff; contradiction].
  - intros Hne Hne'.
    destruct (Nat.eqb_spec (nrows weight) (nrows new_weight + offset)) as [Heq | _];
      [contradiction |].
    destruct (Nat.eqb_spec (nrows weight) (nrows new_weight)) as [Heq | _];
      [contradiction | reflexivity].
Qed.

Lemma set_embeddings_keeps_shape_witness :
  (TensorFile (Tensor2 2 [[5; 5]; [6; 6]]) = TensorFile (Tensor2 2 [[5; 5]; [6; 6]]) \/
   TensorFile (Tensor2 2 [[5; 5]; [6; 6]]) = EmbeddingFile (Tensor2 2 [[5; 5]; [6; 6]])) /\
  set_embeddings 2 (Tensor2 2 [[0; 0]; [1; 1]; [2; 2]; [3; 3]])
    (TensorFile (Tensor2 2 [[5; 5]; [6; 6]]))
  = ok (Tensor2 2 [[0; 0]; [1; 1]; [5; 5]; [6; 6]]) /\
  firstn 2 (rows (Tensor2 2 [[0; 0]; [1; 1]; [5; 5]; [6; 6]]))
  = firstn 2 (rows (Tensor2 2 [[0; 0]; [1; 1]; [2; 2]; [3; 3]])).
Proof.
  split; [left; reflexivity |]. split; [reflexivity |].
  apply (proj1 (set_embeddings_keeps_shape 2 (Tensor2 2 [[0; 0]; [1; 1]; [2; 2]; [3; 3]])
                  (Tensor2 2 [[0; 0]; [1; 1]; [5; 5]; [6; 6]])
                  (TensorFile (Tensor2 2 [[5; 5]; [6; 6]])) (Tensor2 2 [[5; 5]; [6; 6]])
                  (or_introl eq_refl)) eq_refl).
  reflexivity.
Defined.

(** ** [generate] comes to an end *)

Lemma criteria_max_length_in (l : list criterion) (n : Z) :
  criteria_max_length l = Some n -> In (MaxLengthCriteria n) l.
Proof.
  induction l as [| c l IH]; simpl; intros H; [discriminate H |].
  destruct c as [k | t | id f].
  - inversion H. left. reflexivity.
  - right. apply IH. exact H.
  - right. apply IH. exact H.
Qed.

(** Without the deprecated [max_length] argument the loop runs under the
    criteria it was given. *)
Lemma beam_search_init_criteria {Sc : Type} {scorer_class : BeamScorer Sc} {slice : Type}
    (config : Config.t) (beam_scorer : Sc) (past : option (cache slice)) (a : BS.args)
    (w : list warning) (le : loop_env) (st : loop_state Sc slice)
    (criteria : list criterion) :
  BS.max_length a = None -> BS.stopping_criteria a = Some criteria ->
  beam_search_init config beam_scorer past a = (w, ok (le, st)) ->
  le_stopping_criteria le = criteria.
Proof.
  intros Hml Hc. unfold beam_search_init. rewrite Hml, Hc. intros H.
  bind_inv H criteria' Hcrit.
  bind_inv H u1 Hwarn.
  bind_inv H u2 Hshape.
  bind_inv H u3 Hkey.
  inversion H; subst. inversion Hcrit. reflexivity.
Qed.

(** The criteria the caller passes are among the criteria of the loop,
    with or without the deprecated [max_length] argument. *)
Lemma beam_search_init_keeps_criteria {Sc : Type} {scorer_class : BeamScorer Sc}
    {slice : Type} (config : Config.t) (beam_scorer : Sc) (past : option (cache slice))
    (a : BS.args) (w : list warning) (le : loop_env) (st : loop_state Sc slice)
    (c : criterion) :
  beam_search_init config beam_scorer past a = (w, ok (le, st)) ->
  In c (or_default (BS.stopping_criteria a) []) ->
  In c (le_stopping_criteria le).
Proof.
  unfold beam_search_init. intros H Hin.
  bind_inv H criteria Hcrit.
  bind_inv H u1 Hwarn.
  bind_inv H u2 Hshape.
  bind_inv H u3 Hkey.
  inversion H; subst. simpl.
  destruct (BS.max_length a) as [ml |].
  - cbn [bind warn] in Hcrit. unfold validate_stopping_criteria in Hcrit.
    destruct (criteria_max_length (or_default (BS.stopping_criteria a) [])) as [n |].
    + destruct (negb (n =? ml)); inversion Hcrit; subst criteria; exact Hin.
    + inversion Hcrit; subst criteria. apply in_or_app. left. exact Hin.
  - inversion Hcrit; subst criteria. exact Hin.
Qed.

(** X13: called without [synced_gpus] and with a max-length criterion of
    bound [m] among the stopping criteria (a criterion that fires once the
    histories have [m] tokens), [beam_search] is over after at most
    [max(1, m - length)] iterations of its loop: by then it has returned
    the sequences or raised, it is not still running. *)
Theorem beam_search_ends_by_max_length {Sc : Type} {scorer_class : BeamScorer Sc}
    {slice : Type} (select : nat -> list score -> result (list entry)) (env : Env)
    (config : Config.t) (fuel : nat) (beam_scorer : Sc) (past : option (cache slice))
    (a : BS.args) (m : Z) :
  BS.synced_gpus a = false ->
  In (MaxLengthCriteria m) (or_default (BS.stopping_criteria a) []) ->
  Z.max 1 (m - Z.of_nat (ncols (BS.input_ids a))) <= Z.of_nat fuel ->
  forall w, beam_search select env config fuel beam_scorer past a <> (w, ok None).
Proof.
  intros Hs Hin Hfuel w Hrun. unfold beam_search in Hrun.
  bind_inv Hrun init Hinit. destruct init as [le st].
  pose proof (beam_search_init_keeps_criteria _ _ _ _ _ _ _ _ Hinit Hin) as Hle.
  destruct (beam_search_init_state _ _ _ _ _ _ _ Hinit)
    as [_ [Hst [_ [_ [_ [_ [_ [Hlesync _]]]]]]]].
  bind_inv Hrun final Hloop.
  destruct final as [st' |].
  - bind_inv Hrun sequences Hfin. inversion Hrun.
  - unfold lift in Hloop. inversion Hloop as [[Ewarn Erun]].
    revert Erun. apply (loop_over_within select env le m Hle).
    + rewrite Hlesync. exact Hs.
    + rewrite Hst. exact Hfuel.
Qed.

Lemma beam_search_ends_by_max_length_witness :
  (BS.synced_gpus (Fixture.search_args (Some [MaxLengthCriteria 3]) false) = false /\
   In (MaxLengthCriteria 3)
      (or_default (BS.stopping_criteria (Fixture.search_args (Some [MaxLengthCriteria 3]) false))
         []) /\
   Z.max 1 (3 - Z.of_nat (ncols (BS.input_ids
                                   (Fixture.search_args (Some [MaxLengthCriteria 3]) false))))
   <= Z.of_nat 2) /\
  forall w,
    beam_search (slice := unit) topk Fixture.steady_env Fixture.plain_config 2
      Fixture.scorer2 None (Fixture.search_args (Some [MaxLengthCriteria 3]) false)
    <> (w, ok None).
Proof.
  split; [split; [reflexivity | split; [left; reflexivity | simpl; lia]] |].
  apply (beam_search_ends_by_max_length topk Fixture.steady_env Fixture.plain_config 2
           Fixture.scorer2 None (Fixture.search_args (Some [MaxLengthCriteria 3]) false) 3);
    [reflexivity | left; reflexivity | simpl; lia].
Defined.

Section GenerateEnds.
Context {Sc : Type} {scorer_class : BeamScorer Sc} {slice : Type}.
Variable new_scorer : nat -> Z -> Q -> bool -> Z -> result Sc.
Variable select : nat -> list score -> result (list entry).
Variable env : Env.

(** X26: without [synced_gpus], [generate] is over after at most
    [max(1, max_length - 1)] iterations of the loop, where [max_length] is
    the resolved bound ([max_length], else [max_new_tokens + 1], else the
    configuration's): by then it has returned sequences or raised, since
    the criteria it builds always hold the max-length criterion and the
    decoder input starts with one token. *)
Theorem generate_ends_by_max_length (fuel : nat) (self : model)
    (past : option (cache slice)) (a : G.args) (wl : list warning) (n : Z) :
  G.synced_gpus a = false ->
  resolve_max_length (config self) (G.max_length a) (G.max_new_tokens a) 1 = (wl, ok n) ->
  Z.max 1 (n - 1) <= Z.of_nat fuel ->
  forall w, generate new_scorer select env fuel self past a <> (w, ok None).
Proof.
  intros Hs Hres Hfuel w Hgen. unfold generate in Hgen.
  bind_inv Hgen call Hsetup.
  destruct (generate_setup_criteria _ _ _ _ _ Hsetup)
    as [criteria [wl' [n' [Hres' [Hcrit [Hmax Hml]]]]]].
  rewrite Hres in Hres'. inversion Hres'; subst wl' n'. clear Hres'.
  destruct (generate_setup_call _ _ _ _ _ Hsetup)
    as [start [_ [Hids [_ [_ [_ Hsync]]]]]].
  unfold beam_search in Hgen.
  bind_inv Hgen init Hinit. destruct init as [le st].
  pose proof (beam_search_init_criteria _ _ _ _ _ _ _ criteria Hml Hcrit Hinit) as Hle.
  destruct (beam_search_init_state _ _ _ _ _ _ _ Hinit)
    as [_ [Hst [_ [_ [_ [_ [_ [Hlesync _]]]]]]]].
  bind_inv Hgen final Hloop.
  destruct final as [st' |].
  - bind_inv Hgen sequences Hfin. inversion Hgen.
  - unfold lift in Hloop. inversion Hloop as [[Ewarn Erun]].
    revert Erun. apply (loop_over_within select env le n).
    + rewrite Hle. apply criteria_max_length_in. exact Hmax.
    + rewrite Hlesync, Hsync. exact Hs.
    + rewrite Hst, Hids. simpl. exact Hfuel.
Qed.
End GenerateEnds.

Lemma generate_ends_by_max_length_witness :
  (G.synced_gpus (Fixture.generate_args None (Some 2)) = false /\
   resolve_max_length (config Fixture.self)
     (G.max_length (Fixture.generate_args None (Some 2)))
     (G.max_new_tokens (Fixture.generate_args None (Some 2))) 1 = ([], ok 3) /\
   Z.max 1 (3 - 1) <= Z.of_nat 2) /\
  forall w,
    generate (slice := unit) Fixture.new_scorer topk Fixture.steady_env 2 Fixture.self None
      (Fixture.generate_args None (Some 2)) <> (w, ok None).
Proof.
  split; [split; [reflexivity | split; [reflexivity | simpl; lia]] |].
  apply (generate_ends_by_max_length Fixture.new_scorer topk Fixture.steady_env 2
           Fixture.self None (Fixture.generate_args None (Some 2)) [] 3);
    [reflexivity | reflexivity | simpl; lia].
Defined.

(** ** The cache follows the histories *)

Lemma reorder_cache_lengths {slice : Type} (past past' : cache slice) (beam_idx : list Z) :
  _reorder_cache past beam_idx = ok past' ->
  forall layer t, In layer past' -> In t (firstn 2 layer) ->
    List.length t = List.length beam_idx.
Proof.
  unfold _reorder_cache. intros H layer' t Hlayer Ht.
  destruct (mapM_in _ _ _ H layer' Hlayer) as [layer [_ Hl]]. cbv beta in Hl.
  destruct (mapM (fun st => index_select st beam_idx) (firstn 2 layer)) as [e | sel] eqn:Hsel;
    [discriminate Hl |].
  cbn [rbind] in Hl. remember (skipn 2 layer) as rest eqn:Hrest.
  assert (Hl' : layer' = sel ++ rest) by (unfold ok in Hl; congruence).
  subst layer'. clear Hl.
  pose proof (mapM_length _ _ _ Hsel) as Hlen. rewrite length_firstn in Hlen.
  assert (Hin : In t sel).
  { destruct (Nat.le_gt_cases 2 (List.length layer)) as [Hge | Hlt].
    - assert (Hs : List.length sel = 2%nat) by lia.
      rewrite <- Hs, firstn_app, firstn_all, Nat.sub_diag in Ht.
      simpl in Ht. rewrite app_nil_r in Ht. exact Ht.
    - assert (Hnil : rest = []) by (subst rest; apply skipn_all2; lia).
      rewrite Hnil, app_nil_r in Ht. eapply firstn_In. exact Ht. }
  destruct (mapM_in _ _ _ Hsel t Hin) as [t0 [_ Ht0]]. cbv beta in Ht0.
  unfold index_select in Ht0. exact (mapM_length _ _ _ Ht0).
Qed.

(** X27: after a step that returns, every reordered state of the cache
    has as many beam slices as there are token histories: the cache and
    [input_ids] are gathered by the same parent indices. *)
Theorem beam_step_cache_follows {Sc : Type} {scorer_class : BeamScorer Sc} {slice : Type}
    (select : nat -> list score -> result (list entry)) (env : Env) (le : loop_env)
    (outputs : tensor2 score) (st st' : loop_state Sc slice) (past' : cache slice) :
  beam_step select env le outputs st = ok st' ->
  st_past st' = Some past' ->
  forall layer t, In layer past' -> In t (firstn 2 layer) ->
    List.length t = nrows (st_input_ids st').
Proof.
  unfold beam_step, adjust_logits_during_generation. intros H Hpast.
  destruct (apply_processors env _ _ _) as [e | processed]; [discriminate H |].
  cbn [rbind] in H.
  destruct (add_beam_scores _ _ _) as [e | scored]; [discriminate H |].
  cbn [rbind] in H.
  destruct (le_return_dict_in_generate le
            && (le_output_attentions le || le_output_hidden_states le));
    [discriminate H |].
  cbn [rbind ok] in H.
  destruct (select_candidates select _ _ scored) as [e | c]; [discriminate H |].
  cbn [rbind] in H.
  destruct (process _ _ _ _ _ _) as [e | [sc out]]; [discriminate H |].
  cbn [rbind] in H.
  destruct (gather_rows _ _) as [e | gathered] eqn:Hg; [discriminate H |]. cbn [rbind] in H.
  destruct (cat_column _ _) as [e | ids] eqn:Hc; [discriminate H |]. cbn [rbind] in H.
  destruct (st_past st) as [past |] eqn:Hold.
  - destruct (_reorder_cache past (next_beam_indices out)) as [e | reordered] eqn:Hre;
      [discriminate H |]. cbn [rbind] in H.
    destruct (match st_beam_indices st with Some _ => _ | None => _ end) as [e | bi];
      [discriminate H |]. cbn [rbind] in H.
    inversion H; subst st'. simpl in Hpast. inversion Hpast; subst past'. simpl.
    intros layer t Hlayer Ht.
    rewrite (reorder_cache_lengths _ _ _ Hre layer t Hlayer Ht).
    destruct (gather_rows_from _ _ _ Hg) as [_ [Hgn _]].
    unfold cat_column in Hc.
    destruct (Nat.eqb_spec (nrows gathered) (List.length (next_beam_tokens out)))
      as [Heq | _]; [| discriminate Hc].
    inversion Hc; subst ids. unfold nrows. simpl.
    rewrite length_map, length_combine. unfold nrows in *. lia.
  - cbn [rbind] in H.
    destruct (match st_beam_indices st with Some _ => _ | None => _ end) as [e | bi];
      [discriminate H |]. cbn [rbind] in H.
    inversion H; subst st'. simpl in Hpast. discriminate Hpast.
Qed.

Lemma beam_step_cache_follows_witness :
  exists st' past',
    (beam_step topk Fixture.steady_env (Fixture.loop_env0 [MaxLengthCriteria 3] false)
       (Tensor2 3 [[Fin (-1); Fin (-2); Fin (-3)]; [Fin (-1); Fin (-2); Fin (-3)]])
       Fixture.state_with_cache = ok st' /\
     st_past st' = Some past') /\
    forall layer t, In layer past' -> In t (firstn 2 layer) ->
      List.length t = nrows (st_input_ids st').
Proof.
  destruct (beam_step topk Fixture.steady_env (Fixture.loop_env0 [MaxLengthCriteria 3] false)
              (Tensor2 3 [[Fin (-1); Fin (-2); Fin (-3)]; [Fin (-1); Fin (-2); Fin (-3)]])
              Fixture.state_with_cache) as [e | st'] eqn:H.
  - vm_compute in H. discriminate H.
  - destruct (st_past st') as [past' |] eqn:Hpast.
    + exists st', past'. split; [split; [reflexivity | exact Hpast] |].
      apply (beam_step_cache_follows topk Fixture.steady_env
               (Fixture.loop_env0 [MaxLengthCriteria 3] false)
               (Tensor2 3 [[Fin (-1); Fin (-2); Fin (-3)]; [Fin (-1); Fin (-2); Fin (-3)]])
               Fixture.state_with_cache st' past' H Hpast).
    + vm_compute in H. inversion H; subst st'. discriminate Hpast.
Defined.

(** ** Stored attentions, and the candidates at the end of the loop *)

Section LoopEnds.
Context {Sc : Type} {scorer_class : BeamScorer Sc} {slice : Type}.
Variable select : nat -> list score -> result (list entry).
Variable env : Env.

(** The step reads [outputs.decoder_attentions] of a model called with
    [return_dict=False]. *)
Lemma beam_step_storing_attentions (le : loop_env) (outputs : tensor2 score)
    (st : loop_state Sc slice) :
  le_return_dict_in_generate le && (le_output_attentions le || le_output_hidden_states le)
  = true ->
  exists e, beam_step select env le outputs st = raise e.
Proof.
  intros Hflags. unfold beam_step, adjust_logits_during_generation.
  destruct (apply_processors env _ _ _) as [e | processed]; [exists e; reflexivity |].
  cbn [rbind].
  destruct (add_beam_scores _ _ _) as [e | scored]; [exists e; reflexivity |].
  cbn [rbind]. rewrite Hflags. cbn [rbind]. eexists. reflexivity.
Qed.

Lemma beam_search_init_flags (config : Config.t) (beam_scorer : Sc)
    (past : option (cache slice)) (a : BS.args) (w : list warning) (le : loop_env)
    (st : loop_state Sc slice) :
  beam_search_init config beam_scorer past a = (w, ok (le, st)) ->
  le_return_dict_in_generate le
  = or_default (BS.return_dict_in_generate a) (Config.return_dict_in_generate config) /\
  le_output_attentions le
  = or_default (BS.output_attentions a) (Config.output_attentions config) /\
  le_output_hidden_states le
  = or_default (BS.output_hidden_states a) (Config.output_hidden_states config).
Proof.
  unfold beam_search_init. intros H.
  bind_inv H criteria Hcrit.
  bind_inv H u1 Hwarn.
  bind_inv H u2 Hshape.
  bind_inv H u3 Hkey.
  inversion H; subst. simpl. split; [reflexivity |]. split; reflexivity.
Qed.

(** X28: with [return_dict_in_generate] and one of [output_attentions]
    and [output_hidden_states] on (as arguments, else in the
    configuration), [beam_search] never returns: the model is called with
    [return_dict=False], and the first pass through the loop body that
    gets as far as storing the attentions raises. *)
Theorem beam_search_cannot_store_attentions (config : Config.t) (fuel : nat)
    (beam_scorer : Sc) (past : option (cache slice)) (a : BS.args) :
  or_default (BS.return_dict_in_generate a) (Config.return_dict_in_generate config) = true ->
  or_default (BS.output_attentions a) (Config.output_attentions config) = true \/
  or_default (BS.output_hidden_states a) (Config.output_hidden_states config) = true ->
  (0 < fuel)%nat ->
  fails (beam_search select env config fuel beam_scorer past a).
Proof.
  intros Hdict Hatt Hfuel. unfold beam_search.
  destruct (beam_search_init config beam_scorer past a) as [w [e | [le st]]] eqn:Hinit.
  - exists w, e. reflexivity.
  - destruct (beam_search_init_flags _ _ _ _ _ _ _ Hinit) as [Hd [Ha Hh]].
    destruct (beam_search_init_state _ _ _ _ _ _ _ Hinit)
      as [_ [_ [_ [Hfin _]]]].
    assert (Hflags : le_return_dict_in_generate le
                     && (le_output_attentions le || le_output_hidden_states le) = true).
    { rewrite Hd, Ha, Hh, Hdict. simpl. apply orb_true_iff. exact Hatt. }
    assert (Hloop : exists e, beam_search_loop select env fuel le st = raise e).
    { destruct fuel as [| fuel]; [lia |]. simpl.
      rewrite (loop_iter_running select env le st Hfin).
      destruct (forward env (st_input_ids st)) as [e | outputs]; [exists e; reflexivity |].
      cbn [rbind].
      destruct (beam_step_storing_attentions le outputs st Hflags) as [e He].
      rewrite He. exists e. reflexivity. }
    destruct Hloop as [e He]. exists (w ++ []), e.
    cbn [bind]. rewrite He. reflexivity.
Qed.

Lemma loop_iter_candidates (le : loop_env) (st : loop_state Sc slice)
    (c : control (loop_state Sc slice)) :
  st_this_peer_finished st = false \/ st_candidates st <> None ->
  loop_iter select env le st = ok c ->
  st_candidates match c with Break s => s | Continue s => s end <> None.
Proof.
  intros Hst. unfold loop_iter. cbv zeta.
  destruct (le_synced_gpus le && _) eqn:Hb.
  - intros H. inversion H; subst c.
    destruct Hst as [Hfin | Hc]; [| exact Hc].
    rewrite Hfin in Hb. apply andb_true_iff in Hb. destruct Hb as [_ Hb].
    simpl in Hb. discriminate Hb.
  - destruct (forward env (st_input_ids st)) as [e | outputs]; [discriminate |].
    cbn [rbind].
    destruct (le_synced_gpus le && st_this_peer_finished st) eqn:Hskip.
    + intros H. inversion H; subst c. simpl.
      destruct Hst as [Hfin | Hc]; [| exact Hc].
      rewrite Hfin, andb_false_r in Hskip. discriminate Hskip.
    + destruct (beam_step select env le outputs st) as [e | st1] eqn:Hstep; [discriminate |].
      cbn [rbind]. intros H. inversion H; subst c.
      destruct (beam_step_candidates select env le outputs st st1 Hstep)
        as [_ [_ [cands [_ [_ [_ Hc]]]]]].
      unfold loop_exit. destruct (done_or_stop env le st1);
        [destruct (negb (le_synced_gpus le)) |]; simpl; rewrite Hc; discriminate.
Qed.

(** X29: when the loop ends, the candidates of the last step
    ([next_tokens] and [next_indices], which [finalize] is given) are
    bound, with or without [synced_gpus]: the loop that starts with
    [this_peer_finished = False] cannot end before a step has been made. *)
Theorem loop_ends_with_candidates (fuel : nat) (le : loop_env)
    (st final : loop_state Sc slice) :
  st_this_peer_finished st = false ->
  beam_search_loop select env fuel le st = ok (Some final) ->
  exists cands, st_candidates final = Some cands.
Proof.
  intros Hfin H.
  assert (Hgen : forall fuel (st : loop_state Sc slice),
            st_this_peer_finished st = false \/ st_candidates st <> None ->
            beam_search_loop select env fuel le st = ok (Some final) ->
            st_candidates final <> None).
  { clear. induction fuel as [| fuel IH]; intros st Hst H; simpl in H; [discriminate H |].
    destruct (loop_iter select env le st) as [e | c] eqn:Hiter; [discriminate H |].
    cbn [rbind] in H. pose proof (loop_iter_candidates le st c Hst Hiter) as Hc.
    destruct c as [s | s].
    - inversion H; subst s. exact Hc.
    - apply (IH s); [right; exact Hc | exact H]. }
  specialize (Hgen fuel st (or_introl Hfin) H).
  destruct (st_candidates final) as [cands |]; [exists cands; reflexivity | contradiction].
Qed.
End LoopEnds.

Lemma beam_search_cannot_store_attentions_witness :
  (or_default
     (BS.return_dict_in_generate
        (BS.Build (Tensor2 1 [[0]; [0]]) None (Some [MaxLengthCriteria 3]) None None None
           (Some true) None None (Some true) false true))
     (Config.return_dict_in_generate Fixture.plain_config) = true /\
   or_default
     (BS.output_attentions
        (BS.Build (Tensor2 1 [[0]; [0]]) None (Some [MaxLengthCriteria 3]) None None None
           (Some true) None None (Some true) false true))
     (Config.output_attentions Fixture.plain_config) = true /\
   (0 < 5)%nat) /\
  fails (beam_search (slice := unit) topk Fixture.steady_env Fixture.plain_config 5
           Fixture.scorer2 None
           (BS.Build (Tensor2 1 [[0]; [0]]) None (Some [MaxLengthCriteria 3]) None None None
              (Some true) None None (Some true) false true)).
Proof.
  split; [split; [reflexivity | split; [reflexivity | lia]] |].
  apply (beam_search_cannot_store_attentions topk Fixture.steady_env Fixture.plain_config 5
           Fixture.scorer2 None
           (BS.Build (Tensor2 1 [[0]; [0]]) None (Some [MaxLengthCriteria 3]) None None None
              (Some true) None None (Some true) false true));
    [reflexivity | left; reflexivity | lia].
Defined.

Lemma loop_ends_with_candidates_witness :
  exists final cands,
    (st_this_peer_finished Fixture.state0 = false /\
     beam_search_loop topk Fixture.steady_env 5
       (Fixture.loop_env0 [MaxLengthCriteria 3] true) Fixture.state0 = ok (Some final)) /\
    st_candidates final = Some cands.
Proof.
  destruct (beam_search_loop topk Fixture.steady_env 5
              (Fixture.loop_env0 [MaxLengthCriteria 3] true) Fixture.state0)
    as [e | [final |]] eqn:H.
  - vm_compute in H. discriminate H.
  - destruct (loop_ends_with_candidates topk Fixture.steady_env 5
                (Fixture.loop_env0 [MaxLengthCriteria 3] true) Fixture.state0 final
                eq_refl H) as [cands Hc].
    exists final, cands. split; [split; reflexivity | exact Hc].
  - vm_compute in H. discriminate H.
Defined.

(** ** The pad token of [generate] *)

(** X30: when [generate] reaches [beam_search], the end-of-sequence token
    it passes is the argument, else the configuration's, else the decoder
    configuration's; the pad token is the argument, else the
    configuration's, else this end-of-sequence token, and in the last case
    the warning about setting [pad_token_id] to [eos_token_id] has been
    logged. *)
Theorem generate_setup_pad_token {Sc : Type}
    (new_scorer : nat -> Z -> Q -> bool -> Z -> result Sc) (self : model) (a : G.args)
    (w : list warning) (call : beam_search_call Sc) (pad eos : option Z) :
  generate_setup new_scorer self a = (w, ok call) ->
  pad = or_config (G.pad_token_id a) (Config.pad_token_id (config self)) ->
  eos = match or_config (G.eos_token_id a) (Config.eos_token_id (config self)),
              Config.decoder_eos_token_id (config self) with
        | None, Some from_decoder => from_decoder
        | given, _ => given
        end ->
  BS.eos_token_id (call_args call) = eos /\
  BS.pad_token_id (call_args call) = or_config pad eos /\
  (pad = None -> eos <> None ->
   In (LoggerWarning "Setting `pad_token_id` to `eos_token_id` for open-end generation.") w).
Proof.
  intros H Epad Eeos. subst pad eos. unfold generate_setup in H.
  destruct (or_config (G.pad_token_id a) (Config.pad_token_id (config self))) as [p |];
    destruct (or_config (G.eos_token_id a) (Config.eos_token_id (config self))) as [e |];
    destruct (Config.decoder_eos_token_id (config self)) as [[d |] |];
    bind_inv H pad' Hpad;
    bind_inv H u1 Himg;
    bind_inv H start Hstart;
    bind_inv H n Hres;
    bind_inv H u2 Hmin;
    bind_inv H u3 Hwarn;
    bind_inv H u4 Hgroups;
    bind_inv H chain Hchain;
    bind_inv H criteria Hcrit;
    bind_inv H u5 Hret;
    bind_inv H u6 Hmax;
    bind_inv H scorer Hsc;
    bind_inv H expand Hexp;
    bind_inv H u7 Hkw;
    inversion H; subst call; cbn [call_args BS.eos_token_id BS.pad_token_id];
    inversion Hpad; subst;
    (split; [reflexivity |]); (split; [reflexivity |]);
    intros Hnone Hsome;
    try discriminate Hnone; try contradiction;
    right; left; reflexivity.
Qed.

Lemma generate_setup_pad_token_witness :
  exists w call,
    generate_setup Fixture.new_scorer
      (Model (Config.Build true (Some 0) None (Some 2) None (Some 0) 2 1 1 0%Q false false 20
                None false false false false None None None None None None None None None
                None None None) true true)
      (Fixture.custom_args (Some []) (Some []) None None None) = (w, ok call) /\
    BS.pad_token_id (call_args call) = Some 2 /\
    In (LoggerWarning "Setting `pad_token_id` to `eos_token_id` for open-end generation.") w.
Proof.
  destruct (generate_setup Fixture.new_scorer
              (Model (Config.Build true (Some 0) None (Some 2) None (Some 0) 2 1 1 0%Q false
                        false 20 None false false false false None None None None None None
                        None None None None None None) true true)
              (Fixture.custom_args (Some []) (Some []) None None None))
    as [w [e | call]] eqn:H.
  - vm_compute in H. discriminate H.
  - destruct (generate_setup_pad_token Fixture.new_scorer _ _ w call None (Some 2) H
                eq_refl eq_refl) as [_ [Hpad Hw]].
    exists w, call. split; [reflexivity |]. split; [exact Hpad |].
    apply Hw; [reflexivity | discriminate].
Defined.
